(** * Average-precision evaluation of [infer.py]

    A shallow embedding of [get_iou] and [compute_map] from [src/infer.py],
    and the properties of the evaluation engine stated over it.

    Numbers.  The Python code computes with floats; here every number is an
    exact rational ([Q]), so rounding, infinities and NaN coordinates or
    scores are not modelled.  Comparisons, [max] and [min] are the ones the
    code performs.  The [np.nan] that [compute_map] stores for a class
    without ground truth is a separate constructor of [ap_value].  Rounding
    can turn a strict inequality of the rationals into an equality of the
    floats (the IoU of a large box with itself is exactly [1.0]; a recall can
    fall on a point of the ['interp'] grid), so the theorems bound values
    with non-strict inequalities and fix no value that depends on such a
    comparison.

    Exceptions.  Every Python operation of [get_iou] and [compute_map] that
    can raise is modelled by a function into [result]: dictionary
    subscripts ([KeyError]), list subscripts ([IndexError], with Python's
    negative indices), the true division of Python numbers
    ([ZeroDivisionError]) and the explicit [raise ValueError]. *)

From Stdlib Require Import QArith Lqa Lia ZArith.
From stdpp Require Import base option list sorting gmap strings.

Local Open Scope Q_scope.

(** ** Exceptions and results *)

Inductive exn : Type :=
| KeyError (key : string)
| IndexError
| ZeroDivisionError
| ValueError (msg : string).

Inductive result (A : Type) : Type :=
| Ok (a : A)
| Raise (e : exn).
Arguments Ok {A} a.
Arguments Raise {A} e.

#[global] Instance result_bind : MBind result :=
  fun A B (k : A -> result B) (r : result A) =>
    match r with
    | Ok a => k a
    | Raise e => Raise e
    end.

#[global] Instance result_ret : MRet result := fun A a => Ok a.

(** A Python [for] loop whose body may raise: the state is threaded from
    left to right and the first exception ends the loop. *)
Fixpoint for_each {A S} (body : S -> A -> result S) (xs : list A) (s : S)
  : result S :=
  match xs with
  | [] => Ok s
  | x :: xs' => s' ← body s x; for_each body xs' s'
  end.

(** A list comprehension whose element expression may raise. *)
Fixpoint comprehension {A B} (f : A -> result B) (xs : list A)
  : result (list B) :=
  match xs with
  | [] => Ok []
  | x :: xs' => y ← f x; ys ← comprehension f xs'; Ok (y :: ys)
  end.

(** [enumerate(xs)], and its tail starting at index [k]. *)
Definition enumerate_from {A} (k : nat) (xs : list A) : list (nat * A) :=
  imap (fun i x => (k + i, x)%nat) xs.
Definition enumerate {A} (xs : list A) : list (nat * A) := enumerate_from 0 xs.

(** ** Subscripts *)

(** [d[k]] on a dictionary. *)
Definition dict_get {V} (d : gmap string V) (k : string) : result V :=
  match d !! k with
  | Some v => Ok v
  | None => Raise (KeyError k)
  end.

(** [l[i]] for an index that is never negative (a loop counter). *)
Definition list_get {A} (l : list A) (i : nat) : result A :=
  match l !! i with
  | Some v => Ok v
  | None => Raise IndexError
  end.

(** The position that Python's subscript [l[i]] denotes in a list of length
    [len] when [i] may be negative: [-1] is the last element. *)
Definition py_index (len : nat) (i : Z) : option nat :=
  if ((0 <=? i) && (i <? Z.of_nat len))%Z then Some (Z.to_nat i)
  else if ((i <? 0) && (- Z.of_nat len <=? i))%Z
       then Some (Z.to_nat (Z.of_nat len + i))
       else None.

Definition list_get_z {A} (l : list A) (i : Z) : result A :=
  match py_index (length l) i with
  | Some n => list_get l n
  | None => Raise IndexError
  end.

(** [l[i] = x] *)
Definition list_set_z {A} (l : list A) (i : Z) (x : A) : result (list A) :=
  match py_index (length l) i with
  | Some n => Ok (<[n := x]> l)
  | None => Raise IndexError
  end.

(** ** Numbers *)

Definition Qltb (x y : Q) : bool := negb (Qle_bool y x).

(** Python's [max(a, b)] and [min(a, b)]: the first argument is kept unless
    the second is strictly better. *)
Definition py_max (a b : Q) : Q := if Qltb a b then b else a.
Definition py_min (a b : Q) : Q := if Qltb b a then b else a.

(** Python's [a / b] on numbers. *)
Definition py_truediv (a b : Q) : result Q :=
  if Qeq_bool b 0 then Raise ZeroDivisionError else Ok (a / b).

(** The literal [1E-6]. *)
Definition eps6 : Q := 1 # 1000000.

(** ** Boxes and [get_iou] *)

Definition Box : Type := Q * Q * Q * Q.

Definition get_iou (det gt : Box) : result Q :=
  let '(det_x1, det_y1, det_x2, det_y2) := det in
  let '(gt_x1, gt_y1, gt_x2, gt_y2) := gt in
  let x_left := py_max det_x1 gt_x1 in
  let y_top := py_max det_y1 gt_y1 in
  let x_right := py_min det_x2 gt_x2 in
  let y_bottom := py_min det_y2 gt_y2 in
  if Qltb x_right x_left || Qltb y_bottom y_top then Ok 0
  else
    let area_intersection := (x_right - x_left) * (y_bottom - y_top) in
    let det_area := (det_x2 - det_x1) * (det_y2 - det_y1) in
    let gt_area := (gt_x2 - gt_x1) * (gt_y2 - gt_y1) in
    let area_union := det_area + gt_area - area_intersection + eps6 in
    py_truediv area_intersection area_union.

(** A box whose right edge is left of its left edge, or whose bottom edge is
    above its top edge. *)
Definition degenerate (b : Box) : Prop :=
  let '(x1, y1, x2, y2) := b in x2 < x1 \/ y2 < y1.

Definition box_area (b : Box) : Q :=
  let '(x1, y1, x2, y2) := b in (x2 - x1) * (y2 - y1).

(** ** Input data of [compute_map] *)

(** A detection [[x1, y1, x2, y2, score]]: [det_pred[:-1]] is [det_box] and
    [det_pred[-1]] is [det_score]. *)
Record Det : Type := { det_box : Box; det_score : Q }.

(** A per-class AP: a number, or [np.nan]. *)
Inductive ap_value : Type :=
| APNum (q : Q)
| APNaN.

(** [sorted(gt_labels)] of the set of keys of all ground-truth dictionaries:
    strings are compared lexicographically. *)
Definition gt_labels (gt_boxes : list (gmap string (list Box))) : list string :=
  merge_sort String.le (elements (⋃ (dom <$> gt_boxes) : gset string)).

(** The detections of one class, each tagged with its image index, in input
    enumeration order:
    [[[im_idx, im_dets_label] for im_idx, im_dets in enumerate(det_boxes)
      if label in im_dets for im_dets_label in im_dets[label]]]. *)
Definition image_dets (label : string) (p : nat * gmap string (list Det))
  : list (nat * Det) :=
  let '(im_idx, im_dets) := p in
  match im_dets !! label with
  | Some dets => (fun im_dets_label => (im_idx, im_dets_label)) <$> dets
  | None => []
  end.

Definition collect_dets (det_boxes : list (gmap string (list Det)))
    (label : string) : list (nat * Det) :=
  enumerate det_boxes ≫= image_dets label.

(** [sorted(xs, key=key)]: a stable sort, ascending in the key. *)
Fixpoint insert_by {A} (key : A -> Q) (x : A) (l : list A) : list A :=
  match l with
  | [] => [x]
  | y :: l' => if Qle_bool (key x) (key y) then x :: y :: l'
               else y :: insert_by key x l'
  end.

Definition py_sorted {A} (key : A -> Q) (l : list A) : list A :=
  foldr (insert_by key) [] l.

(** The order that [sorted(xs, key=key)] establishes. *)
Definition key_le {A} (key : A -> Q) (a b : A) : Prop := key a <= key b.

(** [lambda k: -k[1][-1]] *)
Definition neg_score (k : nat * Det) : Q := - det_score (snd k).

(** ** The per-class matcher *)

(** The search for the best ground-truth box of one detection: the state is
    [(max_iou_found, max_iou_gt_idx)]. *)
Definition best_gt_step (det : Box) (acc : Q * Z) (p : nat * Box)
  : result (Q * Z) :=
  let '(max_iou_found, max_iou_gt_idx) := acc in
  let '(gt_box_idx, gt_box) := p in
  gt_box_iou ← get_iou det gt_box;
  if Qltb max_iou_found gt_box_iou then Ok (gt_box_iou, Z.of_nat gt_box_idx)
  else Ok (max_iou_found, max_iou_gt_idx).

Definition best_gt (det : Box) (im_gts : list Box) : result (Q * Z) :=
  for_each (best_gt_step det) (enumerate im_gts) (-1, (-1)%Z).

(** The state of the matching loop: the arrays [tp] and [fp] and the table
    [gt_matched]. *)
Record match_state : Type := {
  tp : list Z;
  fp : list Z;
  gt_matched : list (list bool)
}.

(** One iteration of [for det_idx, (im_idx, det_pred) in enumerate(cls_dets)]. *)
Definition match_body (gt_boxes : list (gmap string (list Box)))
    (label : string) (iou_threshold : Q)
    (st : match_state) (p : nat * (nat * Det)) : result match_state :=
  let '(det_idx, (im_idx, det_pred)) := p in
  im_gt_dict ← list_get gt_boxes im_idx;
  im_gts ← dict_get im_gt_dict label;
  '(max_iou_found, max_iou_gt_idx) ← best_gt (det_box det_pred) im_gts;
  is_fp ← (if Qltb max_iou_found iou_threshold then Ok true
           else row ← list_get (gt_matched st) im_idx;
                list_get_z row max_iou_gt_idx);
  if is_fp : bool then
    Ok {| tp := tp st; fp := <[det_idx := 1%Z]> (fp st);
          gt_matched := gt_matched st |}
  else
    row ← list_get (gt_matched st) im_idx;
    row' ← list_set_z row max_iou_gt_idx true;
    Ok {| tp := <[det_idx := 1%Z]> (tp st); fp := fp st;
          gt_matched := <[im_idx := row']> (gt_matched st) |}.

(** [[[False for _ in im_gts[label]] for im_gts in gt_boxes]] *)
Definition init_matched (gt_boxes : list (gmap string (list Box)))
    (label : string) : result (list (list bool)) :=
  comprehension
    (fun im_gts => gts ← dict_get im_gts label;
                   Ok (replicate (length gts) false))
    gt_boxes.

(** [sum([len(im_gts[label]) for im_gts in gt_boxes])] *)
Definition count_gts (gt_boxes : list (gmap string (list Box)))
    (label : string) : result Z :=
  lens ← comprehension
    (fun im_gts => gts ← dict_get im_gts label; Ok (Z.of_nat (length gts)))
    gt_boxes;
  Ok (foldl Z.add 0%Z lens).

(** The matching of one class, up to the end of the loop over [cls_dets]:
    the sorted detections, the number of ground-truth boxes and the final
    state. *)
Definition match_class (det_boxes : list (gmap string (list Det)))
    (gt_boxes : list (gmap string (list Box)))
    (iou_threshold : Q) (label : string)
  : result (list (nat * Det) * Z * match_state) :=
  let cls_dets := py_sorted neg_score (collect_dets det_boxes label) in
  matched ← init_matched gt_boxes label;
  num_gts ← count_gts gt_boxes label;
  let st0 := {| tp := replicate (length cls_dets) 0%Z;
                fp := replicate (length cls_dets) 0%Z;
                gt_matched := matched |} in
  st ← for_each (match_body gt_boxes label iou_threshold)
                (enumerate cls_dets) st0;
  Ok (cls_dets, num_gts, st).

(** ** Precision and recall *)

(** [np.cumsum] *)
Fixpoint cumsum_from (acc : Z) (l : list Z) : list Z :=
  match l with
  | [] => []
  | x :: l' => (acc + x)%Z :: cumsum_from (acc + x)%Z l'
  end.
Definition cumsum (l : list Z) : list Z := cumsum_from 0%Z l.

(** [np.finfo(np.float32).eps], that is 2^-23. *)
Definition eps32 : Q := 1 # 8388608.

(** [np.maximum] on two numbers. *)
Definition np_maximum (a b : Q) : Q := if Qltb a b then b else a.

(** [tp / np.maximum(num_gts, eps)] and [tp / np.maximum((tp + fp), eps)],
    element by element.  The divisors are at least [eps32], and numpy's
    division does not raise. *)
Definition recalls_of (tp_cum : list Z) (num_gts : Z) : list Q :=
  (fun t => inject_Z t / np_maximum (inject_Z num_gts) eps32) <$> tp_cum.

Definition precisions_of (tp_cum fp_cum : list Z) : list Q :=
  zip_with (fun t f => inject_Z t / np_maximum (inject_Z (t + f)) eps32)
           tp_cum fp_cum.

(** ** The two integration methods *)

(** [for i in range(precisions.size - 1, 0, -1):
        precisions[i - 1] = np.maximum(precisions[i - 1], precisions[i])] *)
Fixpoint envelope (precisions : list Q) : list Q :=
  match precisions with
  | [] => []
  | p :: rest =>
      match envelope rest with
      | [] => [p]
      | (q :: _) as rest' => np_maximum p q :: rest'
      end
  end.

(** [np.sum] *)
Definition np_sum (l : list Q) : Q := foldl Qplus 0 l.

(** [i = np.where(recalls[1:] != recalls[:-1])[0]] *)
Definition recall_changes (recalls : list Q) : list nat :=
  filter (fun i => Qeq_bool (nth (S i) recalls 0) (nth i recalls 0) = false)
         (seq 0 (pred (length recalls))).

Definition ap_area (recalls precisions : list Q) : Q :=
  let recalls := [0] ++ recalls ++ [1] in
  let precisions := envelope ([0] ++ precisions ++ [0]) in
  let i := recall_changes recalls in
  np_sum ((fun i => (nth (S i) recalls 0 - nth i recalls 0)
                    * nth (S i) precisions 0) <$> i).

(** [np.arange(0, 1 + 1E-3, 0.1)]: the eleven points 0, 0.1, ..., 1. *)
Definition interp_pts : list Q :=
  (fun k => inject_Z (Z.of_nat k) * (1 # 10)) <$> seq 0 11.

(** [precisions[recalls >= interp_pt]] *)
Definition mask_ge (recalls precisions : list Q) (interp_pt : Q) : list Q :=
  snd <$> filter (fun rp => Qle_bool interp_pt (fst rp) = true)
                 (zip recalls precisions).

(** [a.max() if a.size > 0.0 else 0.0] *)
Definition max_or_zero (a : list Q) : Q :=
  match a with
  | [] => 0
  | x :: a' => foldl np_maximum x a'
  end.

Definition ap_interp (recalls precisions : list Q) : Q :=
  foldl (fun ap interp_pt =>
           ap + max_or_zero (mask_ge recalls precisions interp_pt))
        0 interp_pts
  / 11.

(** The [if method == 'area': ... elif method == 'interp': ... else: raise]
    chain. *)
Definition integrate_ap (method : string) (recalls precisions : list Q)
  : result Q :=
  if decide (method = "area") then Ok (ap_area recalls precisions)
  else if decide (method = "interp") then Ok (ap_interp recalls precisions)
  else Raise (ValueError "Method can only be area or interp").

(** ** [compute_map] *)

(** The first part of the body of [for idx, label in enumerate(gt_labels)]:
    the matching, the precision-recall curve and its integration, which
    give [ap] and [num_gts]. *)
Definition class_ap (det_boxes : list (gmap string (list Det)))
    (gt_boxes : list (gmap string (list Box)))
    (iou_threshold : Q) (method : string) (label : string) : result (Q * Z) :=
  '(_, num_gts, st) ← match_class det_boxes gt_boxes iou_threshold label;
  let tp := cumsum (tp st) in
  let fp := cumsum (fp st) in
  let recalls := recalls_of tp num_gts in
  let precisions := precisions_of tp fp in
  ap ← integrate_ap method recalls precisions;
  Ok (ap, num_gts).

(** The end of the body, [if num_gts > 0: ... else: ...], on the state
    [(aps, all_aps)]. *)
Definition record_ap (acc : list Q * gmap string ap_value) (label : string)
    (r : Q * Z) : list Q * gmap string ap_value :=
  let '(aps, all_aps) := acc in
  let '(ap, num_gts) := r in
  if (0 <? num_gts)%Z
  then (aps ++ [ap], <[label := APNum ap]> all_aps)
  else (aps, <[label := APNaN]> all_aps).

Definition class_body (det_boxes : list (gmap string (list Det)))
    (gt_boxes : list (gmap string (list Box)))
    (iou_threshold : Q) (method : string)
    (acc : list Q * gmap string ap_value) (label : string)
  : result (list Q * gmap string ap_value) :=
  r ← class_ap det_boxes gt_boxes iou_threshold method label;
  Ok (record_ap acc label r).

(** [sum(aps)]: Python's [sum] starts from [0] and adds from the left. *)
Definition py_sum (l : list Q) : Q := foldl Qplus 0 l.

(** [sum(aps) / len(aps)], the quotient of the last line but one, where the
    division does not raise. *)
Definition mean_of (aps : list Q) : Q :=
  py_sum aps / inject_Z (Z.of_nat (length aps)).

Definition compute_map (det_boxes : list (gmap string (list Det)))
    (gt_boxes : list (gmap string (list Box)))
    (iou_threshold : Q) (method : string)
  : result (Q * gmap string ap_value) :=
  '(aps, all_aps) ← for_each (class_body det_boxes gt_boxes iou_threshold method)
                             (gt_labels gt_boxes) ([], ∅);
  mean_ap ← py_truediv (py_sum aps) (inject_Z (Z.of_nat (length aps)));
  Ok (mean_ap, all_aps).

(** ** The matching rule, in the words of the specification *)

(** [selects det gts sel]: among all the boxes of [gts], [sel] is the index
    of the one with maximum IoU against [det] (the first such index when
    several boxes attain the maximum) together with that IoU; there is no
    selection when [gts] is empty.  Whether a box is already matched plays
    no role. *)
Inductive selects (det : Box) (gts : list Box) : option (nat * Q) -> Prop :=
| selects_none : gts = [] -> selects det gts None
| selects_some j g m :
    gts !! j = Some g ->
    get_iou det g = Ok m ->
    (forall k g' v, gts !! k = Some g' -> get_iou det g' = Ok v -> v <= m) ->
    (forall k g' v, (k < j)%nat -> gts !! k = Some g' ->
                    get_iou det g' = Ok v -> v < m) ->
    selects det gts (Some (j, m)).

(** A detection is a true positive when the IoU of the selected box reaches
    the threshold and that box is not matched yet. *)
Definition is_true_positive (iou_threshold : Q) (row : list bool)
    (sel : option (nat * Q)) : Prop :=
  match sel with
  | Some (j, m) => iou_threshold <= m /\ row !! j = Some false
  | None => False
  end.

Definition mark_matched (row : list bool) (sel : option (nat * Q)) : list bool :=
  match sel with
  | Some (j, _) => <[j := true]> row
  | None => row
  end.

(** [greedy_run gt_boxes label thr dets tbl flags tbl']: processing the
    detections [dets] in order from the match table [tbl] classifies them as
    [flags] ([true] for a true positive) and ends with table [tbl'].  A
    false positive leaves the table as it is. *)
Inductive greedy_run (gt_boxes : list (gmap string (list Box)))
    (label : string) (iou_threshold : Q)
  : list (nat * Det) -> list (list bool) -> list bool -> list (list bool)
    -> Prop :=
| greedy_nil tbl : greedy_run gt_boxes label iou_threshold [] tbl [] tbl
| greedy_cons im d rest tbl gd gts row sel (flag : bool) flags tbl' :
    gt_boxes !! im = Some gd ->
    gd !! label = Some gts ->
    tbl !! im = Some row ->
    selects (det_box d) gts sel ->
    (flag = true <-> is_true_positive iou_threshold row sel) ->
    greedy_run gt_boxes label iou_threshold rest
      (if flag then <[im := mark_matched row sel]> tbl else tbl) flags tbl' ->
    greedy_run gt_boxes label iou_threshold ((im, d) :: rest) tbl
      (flag :: flags) tbl'.

(** Detections in descending order of score. *)
Definition score_desc (a b : nat * Det) : Prop :=
  det_score (snd b) <= det_score (snd a).

(** The match table has one row per image, as long as the image's list of
    ground-truth boxes of the class. *)
Definition table_ok (gt_boxes : list (gmap string (list Box)))
    (label : string) (tbl : list (list bool)) : Prop :=
  Forall2 (fun (gd : gmap string (list Box)) row =>
             exists gts, gd !! label = Some gts /\ length row = length gts)
          gt_boxes tbl.

(** The arrays [tp] and [fp] that a list of outcomes stands for. *)
Definition tp_of (flags : list bool) : list Z := Z.b2z <$> flags.
Definition fp_of (flags : list bool) : list Z := (fun b => Z.b2z (negb b)) <$> flags.

(** Every image's ground-truth dictionary has the key [label]. *)
Definition all_have_key (gt_boxes : list (gmap string (list Box)))
    (label : string) : Prop :=
  Forall (fun gd : gmap string (list Box) => is_Some (gd !! label)) gt_boxes.

(** The ground-truth boxes of a class in one image (none without the key). *)
Definition gts_of (gd : gmap string (list Box)) (label : string) : list Box :=
  default [] (gd !! label).

(** The match table before any detection is processed, and the number of
    ground-truth boxes of the class over all images. *)
Definition fresh_table (gt_boxes : list (gmap string (list Box)))
    (label : string) : list (list bool) :=
  (fun gd => replicate (length (gts_of gd label)) false) <$> gt_boxes.

Definition total_gts (gt_boxes : list (gmap string (list Box)))
    (label : string) : Z :=
  foldl Z.add 0%Z ((fun gd => Z.of_nat (length (gts_of gd label))) <$> gt_boxes).

Definition valid_method (method : string) : Prop :=
  method = "area" \/ method = "interp".

(** The entry of [all_aps] that a class result [(ap, num_gts)] yields. *)
Definition ap_entry (r : Q * Z) : ap_value :=
  if (0 <? snd r)%Z then APNum (fst r) else APNaN.

(** The result of a class whose evaluation does not raise. *)
Definition class_result (det_boxes : list (gmap string (list Det)))
    (gt_boxes : list (gmap string (list Box)))
    (iou_threshold : Q) (method : string) (label : string) : Q * Z :=
  match class_ap det_boxes gt_boxes iou_threshold method label with
  | Ok r => r
  | Raise _ => (0, 0%Z)
  end.

(** The unweighted arithmetic mean, in the words of the specification: every
    value is counted once, and the total is divided by the number of values.
    The total is defined by recursion on the list, on its own: it does not go
    through [py_sum]. *)
Fixpoint total_of (values : list Q) : Q :=
  match values with
  | [] => 0
  | v :: values' => v + total_of values'
  end.

Definition arithmetic_mean (values : list Q) : Q :=
  total_of values / inject_Z (Z.of_nat (length values)).

(** [get_iou b b] is within [tol] of 1. *)
Definition self_iou_within (tol : Q) (b : Box) : Prop :=
  exists v, get_iou b b = Ok v /\ 1 - tol <= v /\ v <= 1 + tol.

(** The classes whose total ground-truth count is positive, in the order in
    which [compute_map] visits them. *)
Definition positive_labels (gt_boxes : list (gmap string (list Box)))
  : list string :=
  filter (fun l => (0 < total_gts gt_boxes l)%Z) (gt_labels gt_boxes).

(** The state [(aps, all_aps)] after the loop over [labels], when no class
    raises. *)
Definition record_all (det_boxes : list (gmap string (list Det)))
    (gt_boxes : list (gmap string (list Box)))
    (iou_threshold : Q) (method : string)
    (acc : list Q * gmap string ap_value) (labels : list string)
  : list Q * gmap string ap_value :=
  foldl (fun acc l =>
           record_ap acc l
             (class_result det_boxes gt_boxes iou_threshold method l))
        acc labels.

(** [gt_boxes] with the key [z], mapped to an empty list, added to every
    image. *)
Definition add_empty_class (z : string)
    (gt_boxes : list (gmap string (list Box))) : list (gmap string (list Box)) :=
  (fun gd : gmap string (list Box) => <[z := []]> gd) <$> gt_boxes.

(** ** Quantities read off the matcher's state *)

(** The number of boxes that a row, and a match table, mark as matched. *)
Definition count_true (row : list bool) : nat :=
  length (filter (fun b : bool => b = true) row).

Definition matched_count (tbl : list (list bool)) : nat :=
  sum_list (count_true <$> tbl).

(** [sum(tp)], the last value of [np.cumsum(tp)]. *)
Definition sum_Z (l : list Z) : Z := foldl Z.add 0%Z l.

(** A number between 0 and 1. *)
Definition in_unit (q : Q) : Prop := 0 <= q /\ q <= 1.

(** A sequence that never increases. *)
Definition non_increasing (l : list Q) : Prop :=
  StronglySorted (fun a b : Q => b <= a) l.

(** ** The caller [evaluate_map] and the label table of the dataset *)

(** [PerImageAnnotationDataset.idx2label] of [custom_dataset.py]. *)
Definition idx2label : gmap Z string :=
  list_to_map
    [ (0%Z, "Portable_Charger_1"); (1%Z, "Portable_Charger_2");
      (2%Z, "Mobile_Phone"); (3%Z, "Laptop"); (4%Z, "Tablet");
      (5%Z, "Cosmetic"); (6%Z, "Water"); (7%Z, "Nonmetallic_Lighter") ].

(** What [evaluate_map] can raise: the [KeyError] of [voc.idx2label[label]],
    whose key is an integer, or an exception of the kinds above. *)
Inductive caller_exn : Type :=
| LabelKeyError (label : Z)
| Raised (e : exn).

Inductive caller_result (A : Type) : Type :=
| Done (a : A)
| Failed (e : caller_exn).
Arguments Done {A} a.
Arguments Failed {A} e.

#[global] Instance caller_bind : MBind caller_result :=
  fun A B (k : A -> caller_result B) (r : caller_result A) =>
    match r with
    | Done a => k a
    | Failed e => Failed e
    end.

Definition lift_result {A} (r : result A) : caller_result A :=
  match r with
  | Ok a => Done a
  | Raise e => Failed (Raised e)
  end.

(** [voc.idx2label[label]] *)
Definition label_name_of (i2l : gmap Z string) (label : Z)
  : caller_result string :=
  match i2l !! label with
  | Some name => Done name
  | None => Failed (LabelKeyError label)
  end.

(** [d[k].append(x)] *)
Definition dict_append {V} (d : gmap string (list V)) (k : string) (x : V)
  : caller_result (gmap string (list V)) :=
  match d !! k with
  | Some l => Done (<[k := l ++ [x]]> d)
  | None => Failed (Raised (KeyError k))
  end.

(** The dictionary after
    [for label_name in voc.idx2label.values(): d[label_name] = []]; the
    result does not depend on the order of the values. *)
Definition empty_lists {V} (i2l : gmap Z string) : gmap string (list V) :=
  foldr (fun label_name d => <[label_name := []]> d) ∅
        (snd <$> map_to_list i2l).

(** What the model and the data loader give for one image: the boxes,
    labels and scores of [frcnn_output], and the boxes and labels of
    [target]. *)
Record sample : Type := {
  out_boxes : list Box;
  out_labels : list Z;
  out_scores : list Q;
  target_boxes : list Box;
  target_labels : list Z
}.

(** [for idx, box in enumerate(boxes): ...
        pred_boxes[label_name].append([x1, y1, x2, y2, score])],
    from the index [idx] on. *)
Fixpoint add_preds (i2l : gmap Z string) (labels : list Z) (scores : list Q)
    (idx : nat) (boxes : list Box) (pred_boxes : gmap string (list Det))
  : caller_result (gmap string (list Det)) :=
  match boxes with
  | [] => Done pred_boxes
  | box :: boxes' =>
      label ← lift_result (list_get labels idx);
      score ← lift_result (list_get scores idx);
      label_name ← label_name_of i2l label;
      pred_boxes' ← dict_append pred_boxes label_name
                      {| det_box := box; det_score := score |};
      add_preds i2l labels scores (S idx) boxes' pred_boxes'
  end.

(** [for idx, box in enumerate(target_boxes): ...
        gt_boxes[label_name].append([x1, y1, x2, y2])] *)
Fixpoint add_gts (i2l : gmap Z string) (labels : list Z)
    (idx : nat) (boxes : list Box) (gt_boxes : gmap string (list Box))
  : caller_result (gmap string (list Box)) :=
  match boxes with
  | [] => Done gt_boxes
  | box :: boxes' =>
      label ← lift_result (list_get labels idx);
      label_name ← label_name_of i2l label;
      gt_boxes' ← dict_append gt_boxes label_name box;
      add_gts i2l labels (S idx) boxes' gt_boxes'
  end.

(** The two dictionaries that [evaluate_map] builds for one image. *)
Definition image_dicts (i2l : gmap Z string) (s : sample)
  : caller_result (gmap string (list Det) * gmap string (list Box)) :=
  pred_boxes ← add_preds i2l (out_labels s) (out_scores s) 0 (out_boxes s)
                 (empty_lists i2l);
  gt_boxes ← add_gts i2l (target_labels s) 0 (target_boxes s)
               (empty_lists i2l);
  Done (pred_boxes, gt_boxes).

(** The loop over the test set, on the state [(gts, preds)]. *)
Fixpoint collect_images (i2l : gmap Z string) (dataset : list sample)
    (gts : list (gmap string (list Box)))
    (preds : list (gmap string (list Det)))
  : caller_result (list (gmap string (list Box))
                   * list (gmap string (list Det))) :=
  match dataset with
  | [] => Done (gts, preds)
  | s :: dataset' =>
      '(pred_boxes, gt_boxes) ← image_dicts i2l s;
      collect_images i2l dataset' (gts ++ [gt_boxes]) (preds ++ [pred_boxes])
  end.

(** [for idx in range(len(voc.idx2label)): print(...)]: the class names and
    the APs that are printed. *)
Fixpoint print_aps (i2l : gmap Z string) (all_aps : gmap string ap_value)
    (idxs : list nat) : caller_result (list (string * ap_value)) :=
  match idxs with
  | [] => Done []
  | idx :: idxs' =>
      name ← label_name_of i2l (Z.of_nat idx);
      ap ← lift_result (dict_get all_aps name);
      lines ← print_aps i2l all_aps idxs';
      Done ((name, ap) :: lines)
  end.

(** [evaluate_map], from the outputs of the model on the test set: the
    printed per-class lines and the printed mean. *)
Definition evaluate_map (i2l : gmap Z string) (dataset : list sample)
  : caller_result (list (string * ap_value) * Q) :=
  '(gts, preds) ← collect_images i2l dataset [] [];
  '(mean_ap, all_aps) ← lift_result (compute_map preds gts (1 # 2) "interp");
  lines ← print_aps i2l all_aps (seq 0 (size i2l));
  Done (lines, mean_ap).

(** The boxes, or detections, of one image whose label is named [name], in
    the order of the input. *)
Definition named {V} (i2l : gmap Z string) (name : string)
    (labelled : list (Z * V)) : list V :=
  snd <$> filter (fun p => i2l !! fst p = Some name) labelled.

(** [name] is one of the class names of the table. *)
Definition is_class_name (i2l : gmap Z string) (name : string) : Prop :=
  exists label, i2l !! label = Some name.

(** * Properties *)

(** ** Numbers *)

Lemma Qltb_lt x y : Qltb x y = true <-> x < y.
Proof.
  unfold Qltb. rewrite negb_true_iff, <- not_true_iff_false, Qle_bool_iff.
  split; [apply Qnot_le_lt | apply Qlt_not_le].
Qed.

Lemma Qltb_ge x y : Qltb x y = false <-> y <= x.
Proof.
  unfold Qltb. rewrite negb_false_iff. apply Qle_bool_iff.
Qed.

Lemma py_max_ub a b : a <= py_max a b /\ b <= py_max a b.
Proof.
  unfold py_max. destruct (Qltb a b) eqn:E.
  - apply Qltb_lt in E. lra.
  - apply Qltb_ge in E. lra.
Qed.

Lemma py_min_lb a b : py_min a b <= a /\ py_min a b <= b.
Proof.
  unfold py_min. destruct (Qltb b a) eqn:E.
  - apply Qltb_lt in E. lra.
  - apply Qltb_ge in E. lra.
Qed.

Lemma Qmul_le_mono_nonneg (a b c d : Q) :
  0 <= a -> a <= c -> 0 <= b -> b <= d -> a * b <= c * d.
Proof. intros. nra. Qed.

Lemma py_truediv_pos a b : 0 < b -> py_truediv a b = Ok (a / b).
Proof.
  intros Hb. unfold py_truediv.
  destruct (Qeq_bool b 0) eqn:E; [|done].
  apply Qeq_bool_iff in E. lra.
Qed.

(** ** [get_iou] *)

(** What [get_iou] computes, without the exception layer. *)
Lemma get_iou_cases (det gt : Box) :
  (get_iou det gt = Ok 0) \/
  (exists i u, 0 <= i /\ i < u /\ get_iou det gt = Ok (i / u)).
Proof.
  destruct det as [[[dx1 dy1] dx2] dy2], gt as [[[gx1 gy1] gx2] gy2].
  unfold get_iou.
  destruct (py_max_ub dx1 gx1) as [Hx1 Hx2], (py_max_ub dy1 gy1) as [Hy1 Hy2].
  destruct (py_min_lb dx2 gx2) as [Hx3 Hx4], (py_min_lb dy2 gy2) as [Hy3 Hy4].
  set (xl := py_max dx1 gx1) in *. set (yt := py_max dy1 gy1) in *.
  set (xr := py_min dx2 gx2) in *. set (yb := py_min dy2 gy2) in *.
  destruct (Qltb xr xl) eqn:Ex; [by left|].
  destruct (Qltb yb yt) eqn:Ey; [by left|]. simpl.
  apply Qltb_ge in Ex, Ey. right.
  set (inter := (xr - xl) * (yb - yt)).
  set (da := (dx2 - dx1) * (dy2 - dy1)).
  set (ga := (gx2 - gx1) * (gy2 - gy1)).
  assert (0 <= inter) by (unfold inter; nra).
  assert (inter <= da)
    by (unfold inter, da; apply Qmul_le_mono_nonneg; lra).
  assert (inter <= ga)
    by (unfold inter, ga; apply Qmul_le_mono_nonneg; lra).
  assert (Heps : 0 < eps6) by reflexivity.
  exists inter, (da + ga - inter + eps6). split; [done|]. split; [lra|].
  apply py_truediv_pos. lra.
Qed.

Lemma get_iou_range (det gt : Box) :
  exists v, get_iou det gt = Ok v /\ 0 <= v /\ v <= 1.
Proof.
  destruct (get_iou_cases det gt) as [H|(i & u & Hi & Hu & H)].
  - exists 0. split; [done|]. lra.
  - exists (i / u). split; [done|]. split.
    + apply Qle_shift_div_l; lra.
    + apply Qle_shift_div_r; lra.
Qed.

Lemma get_iou_degenerate (det gt : Box) :
  degenerate det \/ degenerate gt -> get_iou det gt = Ok 0.
Proof.
  destruct det as [[[dx1 dy1] dx2] dy2], gt as [[[gx1 gy1] gx2] gy2].
  unfold get_iou, degenerate.
  destruct (py_max_ub dx1 gx1) as [Hx1 Hx2], (py_max_ub dy1 gy1) as [Hy1 Hy2].
  destruct (py_min_lb dx2 gx2) as [Hx3 Hx4], (py_min_lb dy2 gy2) as [Hy3 Hy4].
  intros Hdeg.
  destruct (Qltb (py_min dx2 gx2) (py_max dx1 gx1)) eqn:Ex; [done|].
  destruct (Qltb (py_min dy2 gy2) (py_max dy1 gy1)) eqn:Ey; [done|].
  apply Qltb_ge in Ex, Ey. lra.
Qed.

(** ** [sorted] *)

Section py_sorted.
Context {A : Type} (key : A -> Q).

#[local] Abbreviation key_le := (key_le key).

Lemma insert_by_Permutation x l : insert_by key x l ≡ₚ x :: l.
Proof.
  induction l as [|y l IH]; simpl; [done|].
  destruct (Qle_bool (key x) (key y)); [done|].
  rewrite IH. apply perm_swap.
Qed.

Lemma py_sorted_Permutation l : py_sorted key l ≡ₚ l.
Proof.
  induction l as [|x l IH]; simpl; [done|].
  by rewrite insert_by_Permutation, IH.
Qed.

Lemma insert_by_sorted x l :
  StronglySorted key_le l -> StronglySorted key_le (insert_by key x l).
Proof.
  induction 1 as [|y l Hl IH Hy]; simpl.
  - repeat constructor.
  - destruct (Qle_bool (key x) (key y)) eqn:E.
    + apply Qle_bool_iff in E. constructor; [by constructor|].
      constructor; [done|].
      eapply Forall_impl; [exact Hy|]. unfold key_le. intros z Hz. lra.
    + assert (key y <= key x).
      { apply Qlt_le_weak, Qltb_lt. unfold Qltb. by rewrite E. }
      constructor; [done|].
      rewrite insert_by_Permutation. by constructor.
Qed.

Lemma py_sorted_sorted l : StronglySorted key_le (py_sorted key l).
Proof.
  induction l as [|x l IH]; simpl; [constructor|].
  by apply insert_by_sorted.
Qed.

(** Stability: a stable sort commutes with taking a sub-sequence. *)
Lemma insert_by_filter (P : A -> Prop) `{!forall x, Decision (P x)} x l :
  StronglySorted key_le l ->
  filter P (insert_by key x l) =
    if decide (P x) then insert_by key x (filter P l) else filter P l.
Proof.
  induction 1 as [|y l Hl IH Hy]; simpl.
  - rewrite filter_cons, filter_nil. by destruct (decide (P x)).
  - destruct (Qle_bool (key x) (key y)) eqn:E.
    + rewrite filter_cons. destruct (decide (P x)) as [Hx|Hx]; [|done].
      rewrite filter_cons. destruct (decide (P y)) as [Hy'|Hy'].
      * simpl. by rewrite E.
      * assert (Hall : Forall (fun z => key x <= key z) (filter P l)).
        { apply Forall_forall. intros z [_ Hz]%list_elem_of_filter.
          rewrite Forall_forall in Hy. specialize (Hy z Hz).
          apply Qle_bool_iff in E. unfold key_le in Hy. lra. }
        destruct (filter P l) as [|z l']; [done|]. simpl.
        apply Forall_cons in Hall as [Hz _].
        apply Qle_bool_iff in Hz. by rewrite Hz.
    + rewrite !filter_cons, IH.
      destruct (decide (P y)), (decide (P x)); simpl; by rewrite ?E.
Qed.

Lemma py_sorted_filter (P : A -> Prop) `{!forall x, Decision (P x)} l :
  filter P (py_sorted key l) = py_sorted key (filter P l).
Proof.
  induction l as [|x l IH]; simpl; [done|].
  rewrite insert_by_filter by apply py_sorted_sorted.
  rewrite filter_cons, IH. by destruct (decide (P x)).
Qed.
End py_sorted.

(** ** Loops and subscripts *)

Lemma enumerate_from_cons {A} k (x : A) l :
  enumerate_from k (x :: l) = (k, x) :: enumerate_from (S k) l.
Proof.
  unfold enumerate_from. rewrite imap_cons. f_equal; [f_equal; lia|].
  apply imap_ext. intros i y _. simpl. f_equal. lia.
Qed.

Lemma comprehension_Ok {A B} (f : A -> result B) (g : A -> B) xs :
  Forall (fun x => f x = Ok (g x)) xs -> comprehension f xs = Ok (g <$> xs).
Proof.
  induction 1 as [|x xs Hx _ IH]; simpl; [done|]. by rewrite Hx, IH.
Qed.

Lemma py_index_nat len (j : nat) :
  py_index len (Z.of_nat j) = if decide (j < len)%nat then Some j else None.
Proof.
  unfold py_index.
  destruct (decide (j < len)%nat) as [H|H].
  - replace (0 <=? Z.of_nat j)%Z with true by (symmetry; apply Z.leb_le; lia).
    replace (Z.of_nat j <? Z.of_nat len)%Z with true
      by (symmetry; apply Z.ltb_lt; lia).
    simpl. by rewrite Nat2Z.id.
  - replace (Z.of_nat j <? Z.of_nat len)%Z with false
      by (symmetry; apply Z.ltb_ge; lia).
    replace (Z.of_nat j <? 0)%Z with false by (symmetry; apply Z.ltb_ge; lia).
    by rewrite andb_false_r.
Qed.

(** ** The search for the best ground-truth box *)

Lemma best_gt_loop det gts k m0 i0 :
  exists m idx,
    for_each (best_gt_step det) (enumerate_from k gts) (m0, i0) = Ok (m, idx)
    /\ m0 <= m
    /\ (forall j g v, gts !! j = Some g -> get_iou det g = Ok v -> v <= m)
    /\ ((m, idx) = (m0, i0) \/
        exists j g, gts !! j = Some g /\ idx = Z.of_nat (k + j)
          /\ get_iou det g = Ok m /\ m0 < m
          /\ forall j' g' v, (j' < j)%nat -> gts !! j' = Some g' ->
                             get_iou det g' = Ok v -> v < m).
Proof.
  revert k m0 i0. induction gts as [|g gts IH]; intros k m0 i0.
  - exists m0, i0. simpl. split; [done|]. split; [lra|]. split; [|by left].
    intros j g v Hj. by rewrite lookup_nil in Hj.
  - rewrite enumerate_from_cons. simpl.
    destruct (get_iou_range det g) as (v & Hv & _). rewrite Hv. simpl.
    destruct (Qltb m0 v) eqn:E.
    + apply Qltb_lt in E.
      destruct (IH (S k) v (Z.of_nat k)) as (m & idx & Hrun & Hle & Hub & Hsel).
      exists m, idx. split; [done|]. split; [lra|]. split.
      { intros [|j] g' v' Hj Hv'; simpl in Hj.
        - injection Hj as <-. rewrite Hv in Hv'. injection Hv' as <-. done.
        - eauto. }
      right. destruct Hsel as [[= -> ->]|(j & g' & Hj & -> & Hg' & Hlt & Hfirst)].
      * exists 0%nat, g. split; [done|]. split; [f_equal; lia|].
        split; [done|]. split; [done|]. intros j' g' v' Hj'. lia.
      * exists (S j), g'. split; [done|]. split; [f_equal; lia|].
        split; [done|]. split; [lra|].
        intros [|j'] g'' v' Hj' Hg'' Hv'; simpl in Hg''.
        -- injection Hg'' as <-. rewrite Hv in Hv'. injection Hv' as <-. done.
        -- apply (Hfirst j' g''); [lia|done..].
    + apply Qltb_ge in E.
      destruct (IH (S k) m0 i0) as (m & idx & Hrun & Hle & Hub & Hsel).
      exists m, idx. split; [done|]. split; [done|]. split.
      { intros [|j] g' v' Hj Hv'; simpl in Hj.
        - injection Hj as <-. rewrite Hv in Hv'. injection Hv' as <-. lra.
        - eauto. }
      destruct Hsel as [Heq|(j & g' & Hj & -> & Hg' & Hlt & Hfirst)];
        [by left|right].
      exists (S j), g'. split; [done|]. split; [f_equal; lia|].
      split; [done|]. split; [done|].
      intros [|j'] g'' v' Hj' Hg'' Hv'; simpl in Hg''.
      * injection Hg'' as <-. rewrite Hv in Hv'. injection Hv' as <-. lra.
      * apply (Hfirst j' g''); [lia|done..].
Qed.

(** [best_gt] always returns; it returns [(-1, -1)] exactly on an empty list,
    and otherwise the first box of maximum IoU. *)
Lemma best_gt_spec det gts :
  (gts = [] /\ best_gt det gts = Ok (-1, (-1)%Z) /\ selects det gts None) \/
  (exists j m, best_gt det gts = Ok (m, Z.of_nat j) /\ 0 <= m /\
               (j < length gts)%nat /\ selects det gts (Some (j, m))).
Proof.
  unfold best_gt, enumerate.
  destruct (best_gt_loop det gts 0 (-1) (-1)%Z)
    as (m & idx & Hrun & Hle & Hub & Hsel).
  destruct Hsel as [[= -> ->]|(j & g & Hj & -> & Hg & Hlt & Hfirst)].
  - destruct gts as [|g gts].
    + left. split; [done|]. split; [done|]. by constructor.
    + exfalso. destruct (get_iou_range det g) as (v & Hv & Hv0 & _).
      specialize (Hub 0%nat g v eq_refl Hv). lra.
  - right. exists j, m. split; [done|].
    destruct (get_iou_range det g) as (v & Hv & Hv0 & _).
    rewrite Hg in Hv. injection Hv as <-.
    split; [done|]. split; [by eapply lookup_lt_Some|].
    by econstructor.
Qed.

(** ** One iteration of the matching loop *)

Lemma match_body_spec gt_boxes label thr st det_idx im d gd gts row :
  gt_boxes !! im = Some gd -> gd !! label = Some gts ->
  gt_matched st !! im = Some row -> length row = length gts ->
  exists sel, selects (det_box d) gts sel /\
    ((is_true_positive thr row sel /\
      match_body gt_boxes label thr st (det_idx, (im, d)) =
        Ok {| tp := <[det_idx := 1%Z]> (tp st); fp := fp st;
              gt_matched := <[im := mark_matched row sel]> (gt_matched st) |})
     \/ (~ is_true_positive thr row sel /\
         match_body gt_boxes label thr st (det_idx, (im, d)) =
           Ok {| tp := tp st; fp := <[det_idx := 1%Z]> (fp st);
                 gt_matched := gt_matched st |})
     \/ (gts = [] /\ thr <= -1 /\
         match_body gt_boxes label thr st (det_idx, (im, d)) = Raise IndexError)).
Proof.
  intros Hgd Hgts Hrow Hlen. unfold match_body, list_get, dict_get.
  rewrite Hgd. simpl. rewrite Hgts. simpl.
  destruct (best_gt_spec (det_box d) gts)
    as [(-> & -> & Hsel)|(j & m & -> & Hm & Hj & Hsel)]; simpl.
  - exists None. split; [done|].
    destruct (Qltb (-1) thr) eqn:E; simpl.
    + right; left. split; [by intros []|done].
    + right; right. apply Qltb_ge in E. split; [done|]. split; [done|].
      rewrite Hrow. simpl. destruct row; [done|discriminate Hlen].
  - exists (Some (j, m)). split; [done|].
    destruct (Qltb m thr) eqn:E; simpl.
    + apply Qltb_lt in E. right; left. split; [|done]. intros [? _]. lra.
    + apply Qltb_ge in E. rewrite Hrow. simpl. unfold list_get_z, list_set_z.
      rewrite py_index_nat. rewrite <- Hlen in Hj.
      destruct (decide (j < length row)%nat); [|done].
      destruct (lookup_lt_is_Some_2 row j Hj) as [b Hb].
      unfold list_get. rewrite Hb. simpl. destruct b; simpl.
      * right; left. split; [|done]. intros [_ ?]. congruence.
      * left. split; [done|]. done.
Qed.

Lemma match_body_no_image gt_boxes label thr st det_idx im d :
  gt_boxes !! im = None ->
  match_body gt_boxes label thr st (det_idx, (im, d)) = Raise IndexError.
Proof. intros H. unfold match_body, list_get. by rewrite H. Qed.

Lemma table_ok_mark gt_boxes label tbl im gd gts row sel :
  table_ok gt_boxes label tbl ->
  gt_boxes !! im = Some gd -> gd !! label = Some gts ->
  length row = length gts ->
  table_ok gt_boxes label (<[im := mark_matched row sel]> tbl).
Proof.
  intros Hok Hgd Hgts Hlen. unfold table_ok.
  rewrite <- (list_insert_id gt_boxes im gd Hgd).
  apply Forall2_insert; [done|]. exists gts. split; [done|].
  destruct sel as [[j m]|]; simpl; [|done]. by rewrite length_insert.
Qed.

Lemma table_ok_lookup gt_boxes label tbl im gd :
  table_ok gt_boxes label tbl -> gt_boxes !! im = Some gd ->
  exists gts row, gd !! label = Some gts /\ tbl !! im = Some row
                  /\ length row = length gts.
Proof.
  intros Hok Hgd.
  destruct (Forall2_lookup_l _ _ _ _ _ Hok Hgd) as (row & Hrow & gts & ? & ?).
  eauto.
Qed.

(** ** The matching loop *)

Lemma array_shape_set (l pre : list Z) n :
  l = pre ++ replicate (S n) 0%Z ->
  <[length pre := 1%Z]> l = (pre ++ [1%Z]) ++ replicate n 0%Z.
Proof.
  intros ->. rewrite insert_app_r_alt, Nat.sub_diag by lia. simpl.
  by rewrite <- app_assoc.
Qed.

Lemma array_shape_keep (l pre : list Z) n :
  l = pre ++ replicate (S n) 0%Z -> l = (pre ++ [0%Z]) ++ replicate n 0%Z.
Proof. intros ->. simpl. by rewrite <- app_assoc. Qed.

Lemma match_loop_outcome gt_boxes label thr dets : forall k st tpre fpre,
  table_ok gt_boxes label (gt_matched st) ->
  tp st = tpre ++ replicate (length dets) 0%Z ->
  fp st = fpre ++ replicate (length dets) 0%Z ->
  length tpre = k -> length fpre = k ->
  match for_each (match_body gt_boxes label thr) (enumerate_from k dets) st with
  | Ok st' =>
      exists flags,
        greedy_run gt_boxes label thr dets (gt_matched st) flags (gt_matched st')
        /\ tp st' = tpre ++ tp_of flags /\ fp st' = fpre ++ fp_of flags
        /\ table_ok gt_boxes label (gt_matched st')
  | Raise e =>
      e = IndexError /\
      (thr <= -1 \/ Exists (fun p => (length gt_boxes <= fst p)%nat) dets)
  end.
Proof.
  induction dets as [|[im d] dets IH]; intros k st tpre fpre Hok Htp Hfp Hk1 Hk2.
  - simpl in *. exists []. split; [constructor|].
    unfold tp_of, fp_of. simpl. by rewrite Htp, Hfp.
  - rewrite enumerate_from_cons.
    cbn [for_each]. destruct (gt_boxes !! im) as [gd|] eqn:Hgd.
    2:{ rewrite (match_body_no_image _ _ _ _ _ _ _ Hgd). simpl. split; [done|].
        right. left. simpl. by apply lookup_ge_None. }
    destruct (table_ok_lookup _ _ _ _ _ Hok Hgd) as (gts & row & Hgts & Hrow & Hlen).
    destruct (match_body_spec gt_boxes label thr st k im d gd gts row
                Hgd Hgts Hrow Hlen)
      as (sel & Hsel & [(Htpos & ->)|[(Hneg & ->)|(-> & Hthr & ->)]]); simpl.
    + set (st1 := {| tp := _ |}).
      specialize (IH (S k) st1 (tpre ++ [1%Z]) (fpre ++ [0%Z])).
      ospecialize* IH.
      { simpl. by eapply table_ok_mark. }
      { simpl. rewrite <- Hk1. by apply array_shape_set. }
      { simpl. by apply array_shape_keep. }
      { rewrite length_app. simpl. lia. }
      { rewrite length_app. simpl. lia. }
      destruct (for_each _ _ st1) as [st'|e].
      * destruct IH as (flags & Hrun & Htp' & Hfp' & Hok').
        exists (true :: flags). split.
        { eapply (greedy_cons _ _ _ im d dets _ gd gts row sel true);
            [done..| |exact Hrun]. split; done. }
        unfold tp_of, fp_of in *. simpl.
        rewrite Htp', Hfp', <- !app_assoc. done.
      * destruct IH as (-> & Hwhy).
        split; [done|]. destruct Hwhy as [?|?]; [by left|right; by right].
    + set (st1 := {| tp := _ |}).
      specialize (IH (S k) st1 (tpre ++ [0%Z]) (fpre ++ [1%Z])).
      ospecialize* IH.
      { done. }
      { simpl. by apply array_shape_keep. }
      { simpl. rewrite <- Hk2. by apply array_shape_set. }
      { rewrite length_app. simpl. lia. }
      { rewrite length_app. simpl. lia. }
      destruct (for_each _ _ st1) as [st'|e].
      * destruct IH as (flags & Hrun & Htp' & Hfp' & Hok').
        exists (false :: flags). split.
        { eapply (greedy_cons _ _ _ im d dets _ gd gts row sel false);
            [done..| |exact Hrun]. split; [done|]. intros; done. }
        unfold tp_of, fp_of in *. simpl.
        rewrite Htp', Hfp', <- !app_assoc. done.
      * destruct IH as (-> & Hwhy).
        split; [done|]. destruct Hwhy as [?|?]; [by left|right; by right].
    + split; [done|]. by left.
Qed.

(** ** The match table and the count of ground-truth boxes *)

Lemma comprehension_outcome {A B} (f : A -> result B) xs :
  match comprehension f xs with
  | Ok ys => Forall2 (fun x y => f x = Ok y) xs ys
  | Raise e => Exists (fun x => f x = Raise e) xs
  end.
Proof.
  induction xs as [|x xs IH]; simpl; [constructor|].
  destruct (f x) as [y|e] eqn:Ex; simpl; [|by left].
  destruct (comprehension f xs) as [ys|e]; simpl.
  - by constructor.
  - by right.
Qed.

Lemma all_have_key_dec gt_boxes label :
  all_have_key gt_boxes label \/
  Exists (fun gd : gmap string (list Box) => gd !! label = None) gt_boxes.
Proof.
  unfold all_have_key. induction gt_boxes as [|gd l IH].
  - left. constructor.
  - destruct (gd !! label) as [gts|] eqn:E.
    + destruct IH as [IH|IH]; [left|right].
      * constructor; [by rewrite E|done].
      * by right.
    + right. by left.
Qed.

Lemma missing_key_not_all gt_boxes label :
  Exists (fun gd : gmap string (list Box) => gd !! label = None) gt_boxes ->
  ~ all_have_key gt_boxes label.
Proof.
  unfold all_have_key. rewrite Exists_exists, Forall_forall.
  intros (gd & Hin & Hnone) Hall. specialize (Hall gd Hin).
  rewrite Hnone in Hall. by destruct Hall.
Qed.

Lemma init_matched_Ok gt_boxes label :
  all_have_key gt_boxes label ->
  init_matched gt_boxes label = Ok (fresh_table gt_boxes label).
Proof.
  intros Hall. unfold init_matched, fresh_table.
  apply comprehension_Ok. eapply Forall_impl; [exact Hall|].
  intros gd [gts Hgts]. unfold dict_get, gts_of. by rewrite Hgts.
Qed.

Lemma init_matched_Raise gt_boxes label :
  ~ all_have_key gt_boxes label ->
  init_matched gt_boxes label = Raise (KeyError label).
Proof.
  intros Hnot. unfold init_matched.
  match goal with |- comprehension ?f _ = _ =>
    pose proof (comprehension_outcome f gt_boxes) as Hout;
    destruct (comprehension f gt_boxes) as [ys|e] end.
  - exfalso. apply Hnot. unfold all_have_key.
    apply Forall_forall. intros gd Hin.
    apply list_elem_of_lookup in Hin as [i Hi].
    destruct (Forall2_lookup_l _ _ _ _ _ Hout Hi) as (y & _ & Hy).
    unfold dict_get in Hy. destruct (gd !! label); [done|discriminate Hy].
  - apply Exists_exists in Hout as (gd & _ & Hgd).
    unfold dict_get in Hgd. destruct (gd !! label); [discriminate Hgd|].
    simpl in Hgd. congruence.
Qed.

Lemma count_gts_Ok gt_boxes label :
  all_have_key gt_boxes label ->
  count_gts gt_boxes label = Ok (total_gts gt_boxes label).
Proof.
  intros Hall. unfold count_gts, total_gts.
  erewrite comprehension_Ok; [done|].
  eapply Forall_impl; [exact Hall|].
  intros gd [gts Hgts]. unfold dict_get, gts_of. by rewrite Hgts.
Qed.

Lemma fresh_table_ok gt_boxes label :
  all_have_key gt_boxes label ->
  table_ok gt_boxes label (fresh_table gt_boxes label).
Proof.
  intros Hall. unfold table_ok, fresh_table.
  apply Forall2_fmap_r, Forall_Forall2_diag.
  eapply Forall_impl; [exact Hall|].
  intros gd [gts Hgts]. exists gts. split; [done|].
  unfold gts_of. rewrite Hgts. simpl. by rewrite length_replicate.
Qed.

Lemma foldl_Zadd_shift (l : list Z) (a : Z) :
  foldl Z.add a l = (a + foldl Z.add 0 l)%Z.
Proof.
  revert a. induction l as [|x l IH]; intros a; simpl; [lia|].
  rewrite (IH (a + x)%Z), (IH (0 + x)%Z). lia.
Qed.

Lemma total_gts_cons gd gt_boxes label :
  total_gts (gd :: gt_boxes) label =
    (Z.of_nat (length (gts_of gd label)) + total_gts gt_boxes label)%Z.
Proof. unfold total_gts. simpl. by rewrite foldl_Zadd_shift. Qed.

Lemma total_gts_nonneg gt_boxes label : (0 <= total_gts gt_boxes label)%Z.
Proof.
  induction gt_boxes as [|gd l IH]; [done|]. rewrite total_gts_cons. lia.
Qed.

Lemma total_gts_pos gt_boxes label :
  (0 < total_gts gt_boxes label)%Z <->
  exists im gd g, gt_boxes !! im = Some gd /\ g ∈ gts_of gd label.
Proof.
  induction gt_boxes as [|gd l IH].
  - split; [done|]. intros (im & gd & g & Him & _). by rewrite lookup_nil in Him.
  - rewrite total_gts_cons. pose proof (total_gts_nonneg l label). split.
    + intros Hpos. destruct (gts_of gd label) as [|g gs] eqn:E.
      * simpl in Hpos. destruct (proj1 IH) as (im & gd' & g & ? & ?); [lia|].
        by exists (S im), gd', g.
      * exists 0%nat, gd, g. split; [done|]. rewrite E. by left.
    + intros ([|im] & gd' & g & Him & Hg); simpl in Him.
      * injection Him as <-. destruct (gts_of gd label); [by inversion Hg|].
        simpl. lia.
      * assert (0 < total_gts l label)%Z by (apply IH; eauto). lia.
Qed.

(** ** The matcher of one class *)

Lemma match_class_outcome det_boxes gt_boxes thr label :
  let cls_dets := py_sorted neg_score (collect_dets det_boxes label) in
  match match_class det_boxes gt_boxes thr label with
  | Ok (cls_dets', num_gts, st) =>
      all_have_key gt_boxes label /\ cls_dets' = cls_dets /\
      num_gts = total_gts gt_boxes label /\
      exists flags,
        greedy_run gt_boxes label thr cls_dets (fresh_table gt_boxes label)
                   flags (gt_matched st)
        /\ tp st = tp_of flags /\ fp st = fp_of flags
  | Raise e =>
      (e = KeyError label /\ ~ all_have_key gt_boxes label) \/
      (e = IndexError /\ all_have_key gt_boxes label /\
       (thr <= -1 \/
        Exists (fun p => (length gt_boxes <= fst p)%nat) cls_dets))
  end.
Proof.
  intros cls_dets. unfold match_class. fold cls_dets.
  destruct (all_have_key_dec gt_boxes label) as [Hall|Hmiss].
  - rewrite (init_matched_Ok _ _ Hall), (count_gts_Ok _ _ Hall). simpl.
    set (st0 := {| tp := _ |}).
    pose proof (match_loop_outcome gt_boxes label thr cls_dets 0 st0 [] []
                  (fresh_table_ok _ _ Hall) eq_refl eq_refl eq_refl eq_refl)
      as Hloop.
    unfold enumerate.
    destruct (for_each _ _ st0) as [st|e]; simpl.
    + destruct Hloop as (flags & Hrun & Htp & Hfp & _). eauto 10.
    + destruct Hloop as (-> & Hwhy). right. done.
  - apply missing_key_not_all in Hmiss.
    rewrite (init_matched_Raise _ _ Hmiss). simpl. by left.
Qed.

(** ** The detections of a class *)

Lemma elem_of_enumerate_from {A} k (l : list A) i x :
  (i, x) ∈ enumerate_from k l <-> exists j, i = (k + j)%nat /\ l !! j = Some x.
Proof.
  unfold enumerate_from. rewrite elem_of_lookup_imap. split.
  - intros (j & y & [= -> ->] & Hy). eauto.
  - intros (j & -> & Hj). eauto.
Qed.

Lemma elem_of_collect_dets det_boxes label im d :
  (im, d) ∈ collect_dets det_boxes label <->
  exists dd ds, det_boxes !! im = Some dd /\ dd !! label = Some ds /\ d ∈ ds.
Proof.
  unfold collect_dets, enumerate. rewrite list_elem_of_bind. split.
  - intros ([i dd] & Hin & Hen).
    apply elem_of_enumerate_from in Hen as (j & -> & Hj). simpl in *.
    destruct (dd !! label) as [ds|] eqn:E; [|by inversion Hin].
    apply list_elem_of_fmap in Hin as (d' & [= -> ->] & Hd). eauto.
  - intros (dd & ds & Hdd & Hds & Hd). exists (im, dd). split.
    + simpl. rewrite Hds. apply list_elem_of_fmap. eauto.
    + apply elem_of_enumerate_from. eauto.
Qed.

Lemma collect_dets_in_range det_boxes
    (gt_boxes : list (gmap string (list Box))) label :
  (length det_boxes <= length gt_boxes)%nat ->
  ~ Exists (fun p : nat * Det => (length gt_boxes <= fst p)%nat)
      (py_sorted neg_score (collect_dets det_boxes label)).
Proof.
  intros Hlen. rewrite Exists_exists. intros ([im d] & Hin & Hge).
  rewrite py_sorted_Permutation in Hin.
  apply elem_of_collect_dets in Hin as (dd & ds & Hdd & _).
  apply lookup_lt_Some in Hdd. simpl in Hge. lia.
Qed.

(** ** One class *)

Lemma integrate_ap_valid method recalls precisions :
  valid_method method ->
  exists ap, integrate_ap method recalls precisions = Ok ap.
Proof.
  unfold integrate_ap. intros [-> | ->].
  - rewrite decide_True by done. eauto.
  - rewrite decide_False by done. rewrite decide_True by done. eauto.
Qed.

Lemma integrate_ap_invalid method recalls precisions :
  ~ valid_method method ->
  integrate_ap method recalls precisions =
    Raise (ValueError "Method can only be area or interp").
Proof.
  unfold integrate_ap, valid_method. intros Hnot.
  rewrite !decide_False; [done|tauto..].
Qed.

Lemma valid_method_dec method : valid_method method \/ ~ valid_method method.
Proof.
  unfold valid_method.
  destruct (decide (method = "area")), (decide (method = "interp")); tauto.
Qed.

Lemma class_ap_outcome det_boxes gt_boxes thr method label :
  match class_ap det_boxes gt_boxes thr method label with
  | Ok (ap, num_gts) =>
      all_have_key gt_boxes label /\ valid_method method /\
      num_gts = total_gts gt_boxes label
  | Raise e =>
      (e = KeyError label /\ ~ all_have_key gt_boxes label) \/
      (e = IndexError /\ all_have_key gt_boxes label /\
       (thr <= -1 \/
        Exists (fun p => (length gt_boxes <= fst p)%nat)
               (py_sorted neg_score (collect_dets det_boxes label)))) \/
      (e = ValueError "Method can only be area or interp" /\
       all_have_key gt_boxes label /\ ~ valid_method method)
  end.
Proof.
  unfold class_ap.
  pose proof (match_class_outcome det_boxes gt_boxes thr label) as Hm.
  simpl in Hm.
  destruct (match_class det_boxes gt_boxes thr label) as [[[cd n] st]|e]; simpl.
  - destruct Hm as (Hall & _ & -> & _).
    destruct (valid_method_dec method) as [Hv|Hv].
    + edestruct (integrate_ap_valid method) as [ap ->]; [done|]. simpl. done.
    + rewrite integrate_ap_invalid by done. simpl. right; right. done.
  - destruct Hm as [?|?]; [by left|right; by left].
Qed.

Lemma class_ap_total det_boxes gt_boxes thr method label :
  all_have_key gt_boxes label -> valid_method method -> -1 < thr ->
  (length det_boxes <= length gt_boxes)%nat ->
  exists ap, class_ap det_boxes gt_boxes thr method label
             = Ok (ap, total_gts gt_boxes label).
Proof.
  intros Hall Hv Hthr Hlen.
  pose proof (class_ap_outcome det_boxes gt_boxes thr method label) as Ho.
  destruct (class_ap det_boxes gt_boxes thr method label) as [[ap n]|e].
  - destruct Ho as (_ & _ & ->). eauto.
  - exfalso. destruct Ho as [[_ ?]|[(_ & _ & [?|Hex])|(_ & _ & ?)]]; try done.
    + lra.
    + by eapply collect_dets_in_range.
Qed.

(** ** The loop over the classes *)

Section class_loop.
Context (det_boxes : list (gmap string (list Det)))
        (gt_boxes : list (gmap string (list Box)))
        (thr : Q) (method : string).

#[local] Abbreviation body := (class_body det_boxes gt_boxes thr method).
#[local] Abbreviation cap := (class_ap det_boxes gt_boxes thr method).
#[local] Abbreviation cres := (class_result det_boxes gt_boxes thr method).

#[local] Abbreviation record_all :=
  (record_all det_boxes gt_boxes thr method).

Lemma class_loop_outcome labels : forall acc,
  match for_each body labels acc with
  | Ok acc' =>
      Forall (fun l => cap l = Ok (cres l)) labels /\
      acc' = record_all acc labels
  | Raise e =>
      exists l1 l l2, labels = l1 ++ l :: l2 /\
        Forall (fun l => cap l = Ok (cres l)) l1 /\ cap l = Raise e
  end.
Proof.
  induction labels as [|l labels IH]; intros acc; simpl; [done|].
  assert (Hb : body acc l = match cap l with
                            | Ok r => Ok (record_ap acc l r)
                            | Raise e => Raise e
                            end) by done.
  rewrite Hb. clear Hb.
  destruct (cap l) as [r|e] eqn:El; simpl.
  - assert (Hl : cap l = Ok (cres l)).
    { unfold class_result. by rewrite El. }
    assert (Hr : r = cres l) by congruence. subst r.
    specialize (IH (record_ap acc l (cres l))).
    destruct (for_each body labels _) as [acc'|e].
    + destruct IH as [Hall ->]. split; [by constructor|done].
    + destruct IH as (l1 & l' & l2 & -> & Hall & He).
      exists (l :: l1), l', l2. split; [done|]. split; [by constructor|done].
  - exists [], l, labels. split; [done|]. split; [constructor|done].
Qed.

Lemma class_loop_Ok labels acc :
  Forall (fun l => exists r, cap l = Ok r) labels ->
  for_each body labels acc = Ok (record_all acc labels).
Proof.
  intros Hall. pose proof (class_loop_outcome labels acc) as Ho.
  destruct (for_each body labels acc) as [acc'|e].
  - destruct Ho as [_ ->]. done.
  - destruct Ho as (l1 & l & l2 & -> & _ & He).
    rewrite Forall_app, Forall_cons in Hall.
    destruct Hall as (_ & [r Hr] & _). congruence.
Qed.

Lemma record_ap_eq aps (all_aps : gmap string ap_value) l ap n :
  record_ap (aps, all_aps) l (ap, n) =
    if (0 <? n)%Z then (aps ++ [ap], <[l := APNum ap]> all_aps)
    else (aps, <[l := APNaN]> all_aps).
Proof. done. Qed.

Lemma record_all_aps (f : string -> Q * Z) labels : forall aps all_aps,
  fst (foldl (fun acc l => record_ap acc l (f l)) (aps, all_aps) labels) =
    aps ++ ((fun l => fst (f l)) <$> filter (fun l => (0 < snd (f l))%Z) labels).
Proof.
  induction labels as [|l labels IH]; intros aps all_aps; simpl.
  - by rewrite app_nil_r.
  - rewrite filter_cons. destruct (f l) as [ap n] eqn:E. simpl.
    destruct (Z.ltb_spec 0 n) as [Hn|Hn].
    + case_decide; [|lia]. rewrite IH. simpl.
      rewrite E. simpl. by rewrite <- app_assoc.
    + case_decide; [lia|]. by rewrite IH.
Qed.

Lemma record_all_lookup (f : string -> Q * Z) labels : forall aps all_aps k,
  snd (foldl (fun acc l => record_ap acc l (f l)) (aps, all_aps) labels) !! k =
    if decide (k ∈ labels) then Some (ap_entry (f k)) else all_aps !! k.
Proof.
  induction labels as [|l labels IH]; intros aps all_aps k; cbn [foldl].
  - rewrite decide_False; [done|]. by intros ?%elem_of_nil.
  - destruct (f l) as [ap n] eqn:E. rewrite record_ap_eq.
    destruct (decide (k ∈ labels)) as [Hin|Hin].
    + rewrite (decide_True (P := k ∈ l :: labels)) by (by right).
      destruct (0 <? n)%Z; rewrite IH; by rewrite decide_True.
    + destruct (decide (k = l)) as [->|Hne].
      * rewrite (decide_True (P := l ∈ l :: labels)) by (by left).
        unfold ap_entry. rewrite E. simpl.
        destruct (0 <? n)%Z; rewrite IH, decide_False by done;
          by rewrite lookup_insert_eq.
      * rewrite (decide_False (P := k ∈ l :: labels))
          by (by intros [?|?]%elem_of_cons).
        destruct (0 <? n)%Z; rewrite IH, decide_False by done;
          by rewrite lookup_insert_ne.
Qed.
End class_loop.

(** ** The mean *)

Lemma foldl_Qplus_shift (l : list Q) (a : Q) :
  foldl Qplus a l == a + foldl Qplus 0 l.
Proof.
  revert a. induction l as [|x l IH]; intros a; simpl; [ring|].
  rewrite (IH (a + x)), (IH (0 + x)). ring.
Qed.

Lemma py_sum_total_of (l : list Q) : py_sum l == total_of l.
Proof.
  unfold py_sum. induction l as [|x l IH]; [reflexivity|].
  cbn [foldl total_of]. rewrite foldl_Qplus_shift, IH. ring.
Qed.

Lemma mean_of_arithmetic_mean (l : list Q) : mean_of l == arithmetic_mean l.
Proof. unfold mean_of, arithmetic_mean. by rewrite py_sum_total_of. Qed.

Lemma py_truediv_length (a : Q) (aps : list Q) :
  py_truediv a (inject_Z (Z.of_nat (length aps))) =
    match aps with
    | [] => Raise ZeroDivisionError
    | _ => Ok (a / inject_Z (Z.of_nat (length aps)))
    end.
Proof.
  destruct aps as [|x aps]; [done|].
  apply py_truediv_pos. unfold Qlt. simpl. lia.
Qed.

Lemma compute_map_unfold det_boxes gt_boxes thr method :
  compute_map det_boxes gt_boxes thr method =
    match for_each (class_body det_boxes gt_boxes thr method)
                   (gt_labels gt_boxes) ([], ∅) with
    | Ok (aps, all_aps) =>
        match aps with
        | [] => Raise ZeroDivisionError
        | _ => Ok (mean_of aps, all_aps)
        end
    | Raise e => Raise e
    end.
Proof.
  unfold compute_map.
  destruct (for_each _ _ _) as [[aps all_aps]|e]; simpl; [|done].
  rewrite py_truediv_length. by destruct aps.
Qed.

(** ** The class universe *)

Lemma elem_of_gt_labels (gt_boxes : list (gmap string (list Box))) l :
  l ∈ gt_labels gt_boxes <-> exists gd, gd ∈ gt_boxes /\ is_Some (gd !! l).
Proof.
  unfold gt_labels.
  rewrite merge_sort_Permutation, elem_of_elements, elem_of_union_list.
  split.
  - intros (X & HX & Hl). apply list_elem_of_fmap in HX as (gd & -> & Hgd).
    exists gd. split; [done|]. by apply elem_of_dom.
  - intros (gd & Hgd & Hl). exists (dom gd). split.
    + apply list_elem_of_fmap. eauto.
    + by apply elem_of_dom.
Qed.

Lemma gt_labels_NoDup (gt_boxes : list (gmap string (list Box))) :
  NoDup (gt_labels gt_boxes).
Proof.
  unfold gt_labels. rewrite merge_sort_Permutation. apply NoDup_elements.
Qed.

Lemma gt_labels_sorted (gt_boxes : list (gmap string (list Box))) :
  StronglySorted String.le (gt_labels gt_boxes).
Proof. apply StronglySorted_merge_sort; apply _. Qed.

Lemma has_box_in_universe (gt_boxes : list (gmap string (list Box))) l :
  (0 < total_gts gt_boxes l)%Z -> l ∈ gt_labels gt_boxes.
Proof.
  intros (im & gd & g & Hgd & Hg)%total_gts_pos.
  apply elem_of_gt_labels. exists gd. split; [by eapply list_elem_of_lookup_2|].
  unfold gts_of in Hg. destruct (gd !! l); [done|]. by inversion Hg.
Qed.

(** ** What a completed call returns *)

Lemma filter_ext_in {A} (P1 P2 : A -> Prop)
    `{!forall x, Decision (P1 x), !forall x, Decision (P2 x)} (l : list A) :
  (forall x, x ∈ l -> P1 x <-> P2 x) -> filter P1 l = filter P2 l.
Proof.
  induction l as [|a l IH]; intros Hiff; [done|].
  rewrite !filter_cons.
  rewrite IH by (intros x Hx; apply Hiff; by right).
  destruct (decide (P1 a)) as [H1|H1], (decide (P2 a)) as [H2|H2]; try done;
    exfalso; apply (Hiff a) in H1 || apply (Hiff a) in H2;
    try done; by left.
Qed.

Lemma filter_none {A} (l : list A) : filter (fun _ => False) l = [].
Proof.
  induction l as [|a l IH]; [done|]. rewrite filter_cons.
  by destruct (decide False).
Qed.

Lemma compute_map_Ok_inv det_boxes gt_boxes thr method mean_ap all_aps :
  compute_map det_boxes gt_boxes thr method = Ok (mean_ap, all_aps) ->
  let cres := class_result det_boxes gt_boxes thr method in
  let aps := (fun l => fst (cres l)) <$> positive_labels gt_boxes in
  Forall (fun l => class_ap det_boxes gt_boxes thr method l
                   = Ok (fst (cres l), total_gts gt_boxes l) /\
                   all_have_key gt_boxes l /\ valid_method method)
         (gt_labels gt_boxes)
  /\ aps <> [] /\ mean_ap = mean_of aps
  /\ forall k, all_aps !! k =
       if decide (k ∈ gt_labels gt_boxes)
       then Some (if (0 <? total_gts gt_boxes k)%Z
                  then APNum (fst (cres k)) else APNaN)
       else None.
Proof.
  intros Hcm cres aps. rewrite compute_map_unfold in Hcm.
  pose proof (class_loop_outcome det_boxes gt_boxes thr method
                (gt_labels gt_boxes) ([], ∅)) as Hloop.
  destruct (for_each _ _ _) as [[aps' all']|e]; [|done].
  destruct Hloop as [Hall Heq].
  assert (Hall' : Forall (fun l =>
             class_ap det_boxes gt_boxes thr method l
               = Ok (fst (cres l), total_gts gt_boxes l) /\
             all_have_key gt_boxes l /\ valid_method method /\
             snd (cres l) = total_gts gt_boxes l) (gt_labels gt_boxes)).
  { eapply Forall_impl; [exact Hall|]. intros l Hl. simpl in Hl.
    pose proof (class_ap_outcome det_boxes gt_boxes thr method l) as Ho.
    rewrite Hl in Ho. fold cres in Ho, Hl. destruct (cres l) as [ap n].
    destruct Ho as (? & ? & ->). done. }
  assert (Haps : aps' = aps).
  { apply (f_equal fst) in Heq. simpl in Heq. rewrite Heq.
    unfold record_all. rewrite record_all_aps. simpl.
    unfold aps, positive_labels. f_equal. apply filter_ext_in.
    rewrite Forall_forall in Hall'.
    intros l Hl. destruct (Hall' l Hl) as (_ & _ & _ & Hn).
    unfold cres in Hn. simpl. by rewrite Hn. }
  assert (Hlk : forall k, all' !! k =
       if decide (k ∈ gt_labels gt_boxes)
       then Some (if (0 <? total_gts gt_boxes k)%Z
                  then APNum (fst (cres k)) else APNaN)
       else None).
  { intros k. apply (f_equal snd) in Heq. simpl in Heq. rewrite Heq.
    unfold record_all. rewrite record_all_lookup.
    destruct (decide (k ∈ gt_labels gt_boxes)) as [Hk|Hk]; [|done].
    rewrite Forall_forall in Hall'. destruct (Hall' k Hk) as (_ & _ & _ & Hn).
    unfold ap_entry. fold cres. by rewrite Hn. }
  subst aps'. split.
  { eapply Forall_impl; [exact Hall'|]. intros l (? & ? & ? & _). done. }
  destruct aps as [|a aps0] eqn:Ea; [done|].
  injection Hcm as <- <-. done.
Qed.

(** * The box overlap calculator *)

(** C9: [get_iou] never fails.  For every pair of boxes it returns a value
    (the division it performs never has a zero divisor), and as soon as one
    of the two boxes is degenerate ([x2 < x1] or [y2 < y1]) the value it
    returns is exactly zero. *)
Theorem get_iou_never_fails (det gt : Box) :
  (exists v, get_iou det gt = Ok v) /\
  (degenerate det \/ degenerate gt -> get_iou det gt = Ok 0).
Proof.
  split.
  - destruct (get_iou_range det gt) as (v & Hv & _). eauto.
  - apply get_iou_degenerate.
Qed.

Lemma get_iou_never_fails_witness :
  degenerate (3, 0, 1, 2) /\ get_iou (3, 0, 1, 2) (0, 0, 4, 4) = Ok 0.
Proof.
  assert (H : degenerate (3, 0, 1, 2)) by (left; reflexivity).
  split; [exact H|].
  apply (proj2 (get_iou_never_fails (3, 0, 1, 2) (0, 0, 4, 4))).
  left. exact H.
Defined.

(** C8 fails as stated: the IoU of a degenerate box with itself is 0, which
    is not within any tolerance below 1 of 1.0. *)
Lemma self_iou_degenerate_counterexample :
  get_iou (1, 1, 0, 0) (1, 1, 0, 0) = Ok 0 /\
  ~ self_iou_within (1 # 2) (1, 1, 0, 0).
Proof.
  split; [reflexivity|].
  intros (v & Hv & Hlo & _). vm_compute in Hv. injection Hv as <-.
  revert Hlo. apply Qlt_not_le. reflexivity.
Qed.

(** A well-formed box of small area is not close to 1 either. *)
Example self_iou_small_box :
  exists v, get_iou (0, 0, 1 # 1000, 1 # 1000) (0, 0, 1 # 1000, 1 # 1000) = Ok v
            /\ v == 1 # 2.
Proof. eexists. split; [vm_compute; reflexivity|reflexivity]. Qed.

(** C8, amended: for a box [b] that is not degenerate, [get_iou b b] is
    [area / (area + 1E-6)].  It lies between 0 and 1, it is 0 for a box
    without area, and it is within [tol] of 1 for every tolerance [tol] with
    [1E-6 <= tol * area], for instance [tol = 1E-6] when the area is at
    least 1. *)
Theorem self_iou_near_one (b : Box) :
  ~ degenerate b ->
  exists v, get_iou b b = Ok v /\ v == box_area b / (box_area b + eps6)
            /\ 0 <= v /\ v <= 1
            /\ (box_area b == 0 -> v == 0)
            /\ forall tol, eps6 <= tol * box_area b -> self_iou_within tol b.
Proof.
  destruct b as [[[x1 y1] x2] y2]. unfold degenerate, box_area.
  intros Hnd.
  assert (Hx : x1 <= x2) by (apply Qnot_lt_le; tauto).
  assert (Hy : y1 <= y2) by (apply Qnot_lt_le; tauto).
  set (a := (x2 - x1) * (y2 - y1)) in *.
  assert (Heps : 0 < eps6) by reflexivity.
  assert (Ha : 0 <= a) by (unfold a; nra).
  assert (Heq : a / (a + a - a + eps6) == a / (a + eps6)).
  { apply Qdiv_comp; [reflexivity|ring]. }
  assert (Hv : get_iou (x1, y1, x2, y2) (x1, y1, x2, y2)
               = Ok (a / (a + a - a + eps6))).
  { unfold get_iou, py_max, py_min.
    replace (Qltb x1 x1) with false by (symmetry; apply Qltb_ge; lra).
    replace (Qltb x2 x2) with false by (symmetry; apply Qltb_ge; lra).
    replace (Qltb y1 y1) with false by (symmetry; apply Qltb_ge; lra).
    replace (Qltb y2 y2) with false by (symmetry; apply Qltb_ge; lra).
    replace (Qltb x2 x1) with false by (symmetry; by apply Qltb_ge).
    replace (Qltb y2 y1) with false by (symmetry; by apply Qltb_ge).
    simpl. fold a. apply py_truediv_pos. lra. }
  assert (Hle : a / (a + eps6) <= 1) by (apply Qle_shift_div_r; lra).
  exists (a / (a + a - a + eps6)).
  split; [exact Hv|]. split; [exact Heq|]. rewrite Heq.
  split; [apply Qle_shift_div_l; lra|]. split; [exact Hle|]. split.
  - intros H0. rewrite H0. unfold Qdiv. ring.
  - intros tol Htol. unfold self_iou_within. exists (a / (a + a - a + eps6)).
    split; [exact Hv|]. rewrite Heq.
    assert (Htol0 : 0 < tol).
    { destruct (Qlt_le_dec 0 tol) as [?|Hneg]; [done|].
      assert (tol * a <= 0) by nra. lra. }
    split; [|lra]. apply Qle_shift_div_l; [lra|]. nra.
Qed.

Lemma self_iou_near_one_witness :
  ~ degenerate (0, 0, 10, 10) /\
  eps6 <= eps6 * box_area (0, 0, 10, 10) /\
  self_iou_within eps6 (0, 0, 10, 10).
Proof.
  assert (Hnd : ~ degenerate (0, 0, 10, 10)).
  { intros [H|H]; revert H; apply Qle_not_lt; discriminate. }
  assert (Htol : eps6 <= eps6 * box_area (0, 0, 10, 10)) by discriminate.
  split; [exact Hnd|]. split; [exact Htol|].
  destruct (self_iou_near_one (0, 0, 10, 10) Hnd)
    as (v & _ & _ & _ & _ & _ & Hwithin).
  exact (Hwithin eps6 Htol).
Defined.

(** * The aggregator *)

(** C2: when no class of the universe has a ground-truth box (in particular
    when the universe is empty), [compute_map] does not return a mean: unless
    the evaluation of some class raises first, the exception is the
    [ZeroDivisionError] of the division [sum(aps) / len(aps)] itself, which
    no test of [len(aps)] precedes. *)
Theorem no_ground_truth_division_by_zero det_boxes gt_boxes thr method :
  (forall l, l ∈ gt_labels gt_boxes -> total_gts gt_boxes l = 0%Z) ->
  match compute_map det_boxes gt_boxes thr method with
  | Ok _ => False
  | Raise e =>
      e = ZeroDivisionError \/
      exists l, l ∈ gt_labels gt_boxes /\
                class_ap det_boxes gt_boxes thr method l = Raise e
  end.
Proof.
  intros Hzero. rewrite compute_map_unfold.
  pose proof (class_loop_outcome det_boxes gt_boxes thr method
                (gt_labels gt_boxes) ([], ∅)) as Hloop.
  destruct (for_each _ _ _) as [[aps all_aps]|e].
  - destruct Hloop as [Hall Heq].
    apply (f_equal fst) in Heq. simpl in Heq. unfold record_all in Heq.
    rewrite record_all_aps in Heq. simpl in Heq.
    rewrite (filter_ext_in _ (fun _ => False)) in Heq.
    + rewrite filter_none in Heq. subst aps. by left.
    + intros l Hl. split; [|done]. intros Hpos.
      rewrite Forall_forall in Hall. specialize (Hall l Hl).
      pose proof (class_ap_outcome det_boxes gt_boxes thr method l) as Ho.
      rewrite Hall in Ho.
      destruct (class_result det_boxes gt_boxes thr method l) as [ap n].
      destruct Ho as (_ & _ & ->). simpl in Hpos.
      rewrite (Hzero l Hl) in Hpos. lia.
  - destruct Hloop as (l1 & l & l2 & Heq & _ & He). right. exists l.
    split; [|done]. rewrite Heq. apply elem_of_app. right. by left.
Qed.

(** An empty class universe, and a class without any ground-truth box. *)
Example compute_map_empty_universe det_boxes thr method :
  compute_map det_boxes [] thr method = Raise ZeroDivisionError.
Proof. reflexivity. Qed.

Lemma no_ground_truth_division_by_zero_witness :
  let det_boxes : list (gmap string (list Det)) :=
    [ {[ "a" := [ {| det_box := (0, 0, 1, 1); det_score := 9 # 10 |} ] ]} ] in
  let gt_boxes : list (gmap string (list Box)) := [ {[ "a" := [] ]} ] in
  (forall l, l ∈ gt_labels gt_boxes -> total_gts gt_boxes l = 0%Z) /\
  compute_map det_boxes gt_boxes (1 # 2) "area" = Raise ZeroDivisionError.
Proof.
  intros det_boxes gt_boxes.
  assert (H : forall l, l ∈ gt_labels gt_boxes -> total_gts gt_boxes l = 0%Z).
  { intros l Hl. change (gt_labels gt_boxes) with ["a"] in Hl.
    apply list_elem_of_singleton in Hl as ->. reflexivity. }
  split; [exact H|].
  pose proof (no_ground_truth_division_by_zero det_boxes gt_boxes (1 # 2)
                "area" H) as Hout.
  destruct (compute_map det_boxes gt_boxes (1 # 2) "area") as [r|e] eqn:E;
    [done|].
  vm_compute in E. congruence.
Defined.

(** C4 fails as stated: with an empty class universe an unknown method is
    never looked at, and the call ends in the division by zero instead. *)
Lemma unknown_method_counterexample :
  ~ valid_method "bogus" /\
  compute_map [] [] (1 # 2) "bogus" = Raise ZeroDivisionError /\
  compute_map [∅] [∅] (1 # 2) "bogus" = Raise ZeroDivisionError.
Proof.
  split; [|split; reflexivity]. intros [H|H]; discriminate H.
Qed.

(** C4, amended: with a method other than ['area'] and ['interp'],
    [compute_map] never returns a result.  When the class universe is not
    empty, the method is looked at once the detections of the first class
    (in sorted order) have been matched: if that matching completes, the
    call raises [ValueError('Method can only be area or interp')] before any
    AP is recorded, and if the matching raises, that exception ends the
    call. *)
Theorem unknown_method_outcome det_boxes gt_boxes thr method :
  ~ valid_method method ->
  (exists e, compute_map det_boxes gt_boxes thr method = Raise e) /\
  (forall label rest, gt_labels gt_boxes = label :: rest ->
     compute_map det_boxes gt_boxes thr method =
       match match_class det_boxes gt_boxes thr label with
       | Ok _ => Raise (ValueError "Method can only be area or interp")
       | Raise e => Raise e
       end).
Proof.
  intros Hbad.
  assert (Hfirst : forall label rest, gt_labels gt_boxes = label :: rest ->
     compute_map det_boxes gt_boxes thr method =
       match match_class det_boxes gt_boxes thr label with
       | Ok _ => Raise (ValueError "Method can only be area or interp")
       | Raise e => Raise e
       end).
  { intros label rest Hlabels. rewrite compute_map_unfold, Hlabels.
    cbn [for_each].
    assert (Hb : class_body det_boxes gt_boxes thr method ([], ∅) label =
               match match_class det_boxes gt_boxes thr label with
               | Ok _ => Raise (ValueError "Method can only be area or interp")
               | Raise e => Raise e
               end).
    { unfold class_body, class_ap.
      destruct (match_class det_boxes gt_boxes thr label) as [[[cd n] st]|e];
        simpl; [|done].
      by rewrite integrate_ap_invalid. }
    rewrite Hb. by destruct (match_class det_boxes gt_boxes thr label). }
  split; [|exact Hfirst].
  destruct (gt_labels gt_boxes) as [|label rest] eqn:Hlabels.
  - exists ZeroDivisionError. by rewrite compute_map_unfold, Hlabels.
  - rewrite (Hfirst label rest eq_refl).
    destruct (match_class det_boxes gt_boxes thr label); eauto.
Qed.

Lemma unknown_method_outcome_witness :
  let det_boxes : list (gmap string (list Det)) :=
    [ {[ "a" := [ {| det_box := (0, 0, 1, 1); det_score := 9 # 10 |} ] ]} ] in
  let gt_boxes : list (gmap string (list Box)) :=
    [ {[ "a" := [ (0, 0, 1, 1) ] ]} ] in
  ~ valid_method "bogus" /\
  compute_map det_boxes gt_boxes (1 # 2) "bogus" =
    Raise (ValueError "Method can only be area or interp").
Proof.
  intros det_boxes gt_boxes.
  assert (H : ~ valid_method "bogus") by (intros [H|H]; discriminate H).
  split; [exact H|].
  rewrite (proj2 (unknown_method_outcome det_boxes gt_boxes (1 # 2) "bogus" H)
             "a" [] eq_refl).
  reflexivity.
Defined.

(** * Classes without detections, and classes without ground truth *)

Lemma class_ap_no_dets det_boxes gt_boxes thr method label :
  collect_dets det_boxes label = [] -> all_have_key gt_boxes label ->
  class_ap det_boxes gt_boxes thr method label =
    (ap ← integrate_ap method [] []; Ok (ap, total_gts gt_boxes label)).
Proof.
  intros Hnil Hall. unfold class_ap, match_class.
  rewrite Hnil, (init_matched_Ok _ _ Hall), (count_gts_Ok _ _ Hall). done.
Qed.

Lemma integrate_ap_empty method :
  valid_method method ->
  exists ap, integrate_ap method [] [] = Ok ap /\ ap == 0.
Proof.
  intros [-> | ->]; eexists; (split; [reflexivity|]); reflexivity.
Qed.

(** C6: a class with at least one ground-truth box and no detection has an
    AP equal to 0, with the ['area'] method as with the ['interp'] method:
    the evaluation of the class yields 0, and this is the entry of the class
    in the mapping that [compute_map] returns. *)
Theorem no_detections_ap_zero det_boxes gt_boxes thr method label :
  valid_method method ->
  (exists im gd g, gt_boxes !! im = Some gd /\ g ∈ gts_of gd label) ->
  collect_dets det_boxes label = [] ->
  (all_have_key gt_boxes label ->
   exists ap, class_ap det_boxes gt_boxes thr method label
              = Ok (ap, total_gts gt_boxes label) /\ ap == 0) /\
  (forall mean_ap all_aps,
     compute_map det_boxes gt_boxes thr method = Ok (mean_ap, all_aps) ->
     exists ap, all_aps !! label = Some (APNum ap) /\ ap == 0).
Proof.
  intros Hv Hbox Hnil.
  assert (Hpos : (0 < total_gts gt_boxes label)%Z) by by apply total_gts_pos.
  assert (Hcls : all_have_key gt_boxes label ->
     exists ap, class_ap det_boxes gt_boxes thr method label
                = Ok (ap, total_gts gt_boxes label) /\ ap == 0).
  { intros Hall. rewrite class_ap_no_dets by done.
    destruct (integrate_ap_empty method Hv) as (ap & -> & Hap). eauto. }
  split; [exact Hcls|].
  intros mean_ap all_aps Hcm.
  destruct (compute_map_Ok_inv _ _ _ _ _ _ Hcm) as (Hall & _ & _ & Hlk).
  pose proof (has_box_in_universe _ _ Hpos) as Hin.
  rewrite Forall_forall in Hall. destruct (Hall label Hin) as (Hl & Hkey & _).
  destruct (Hcls Hkey) as (ap & Hap & Hzero).
  rewrite Hap in Hl. injection Hl as Hl.
  specialize (Hlk label). rewrite decide_True in Hlk by done.
  apply Z.ltb_lt in Hpos. rewrite Hpos, <- Hl in Hlk. eauto.
Qed.

Lemma no_detections_ap_zero_witness :
  let det_boxes : list (gmap string (list Det)) := [ ∅ ] in
  let gt_boxes : list (gmap string (list Box)) :=
    [ {[ "a" := [ (0, 0, 1, 1) ] ]} ] in
  exists ap, class_ap det_boxes gt_boxes (1 # 2) "interp" "a"
             = Ok (ap, total_gts gt_boxes "a") /\ ap == 0.
Proof.
  intros det_boxes gt_boxes.
  apply (no_detections_ap_zero det_boxes gt_boxes (1 # 2) "interp" "a").
  - by right.
  - exists 0%nat, {[ "a" := [ (0, 0, 1, 1) ] ]}, (0, 0, 1, 1).
    split; [reflexivity|]. vm_compute. by left.
  - reflexivity.
  - repeat constructor. by eexists.
Defined.

(** C7 fails as stated: a class that is found only among the detections has
    a detection and no ground-truth box at all, yet the mapping that
    [compute_map] returns has no entry for it, neither [np.nan] nor a
    number. *)
Lemma detections_only_class_counterexample :
  let d := {| det_box := (0, 0, 1, 1); det_score := 9 # 10 |} in
  let det_boxes : list (gmap string (list Det)) :=
    [ {[ "a" := [d]; "c" := [d] ]} ] in
  let gt_boxes : list (gmap string (list Box)) :=
    [ {[ "a" := [ (0, 0, 1, 1) ] ]} ] in
  collect_dets det_boxes "c" = [(0%nat, d)] /\
  total_gts gt_boxes "c" = 0%Z /\
  exists mean_ap all_aps,
    compute_map det_boxes gt_boxes (1 # 2) "area" = Ok (mean_ap, all_aps) /\
    all_aps !! "c" = None /\ all_aps !! "c" <> Some APNaN.
Proof.
  intros d det_boxes gt_boxes.
  split; [reflexivity|]. split; [reflexivity|].
  destruct (compute_map det_boxes gt_boxes (1 # 2) "area")
    as [[mean_ap all_aps]|e] eqn:E; [|vm_compute in E; discriminate E].
  exists mean_ap, all_aps. split; [reflexivity|].
  destruct (compute_map_Ok_inv _ _ _ _ _ _ E) as (_ & _ & _ & Hlk).
  assert (Hc : all_aps !! "c" = None).
  { rewrite Hlk. change (gt_labels gt_boxes) with ["a"].
    apply decide_False. intros H. apply list_elem_of_singleton in H.
    discriminate H. }
  split; [exact Hc|]. rewrite Hc. discriminate.
Qed.

(** C7, amended: take a class with at least one detection and no
    ground-truth box at all.  If the class is a key of some image's
    ground-truth dictionary, it is recorded as [np.nan], not as a number; if
    it is found only among the detections, the returned mapping has no entry
    for it.  In both cases it contributes nothing to the list of APs whose
    mean is [mean_ap]: that mean is the arithmetic mean over the classes with
    a positive ground-truth count only. *)
Theorem no_ground_truth_ap_undefined det_boxes gt_boxes thr method label :
  total_gts gt_boxes label = 0%Z ->
  collect_dets det_boxes label <> [] ->
  (all_have_key gt_boxes label -> valid_method method -> -1 < thr ->
   (length det_boxes <= length gt_boxes)%nat ->
   forall aps all_aps,
     class_body det_boxes gt_boxes thr method (aps, all_aps) label
     = Ok (aps, <[label := APNaN]> all_aps)) /\
  (forall mean_ap all_aps,
     compute_map det_boxes gt_boxes thr method = Ok (mean_ap, all_aps) ->
     (label ∈ gt_labels gt_boxes -> all_aps !! label = Some APNaN) /\
     (label ∉ gt_labels gt_boxes -> all_aps !! label = None) /\
     (label ∉ positive_labels gt_boxes) /\
     exists aps,
       Forall2 (fun l ap => all_aps !! l = Some (APNum ap))
               (positive_labels gt_boxes) aps /\
       mean_ap == arithmetic_mean aps).
Proof.
  intros Hzero _. split.
  - intros Hall Hv Hthr Hlen aps all_aps.
    destruct (class_ap_total det_boxes gt_boxes thr method label
                Hall Hv Hthr Hlen) as [ap Hap].
    unfold class_body. rewrite Hap, Hzero. done.
  - intros mean_ap all_aps Hcm.
    destruct (compute_map_Ok_inv _ _ _ _ _ _ Hcm) as (_ & _ & Hmean & Hlk).
    split; [|split; [|split]].
    + intros Hin. rewrite Hlk, decide_True by done. by rewrite Hzero.
    + intros Hout. rewrite Hlk. by apply decide_False.
    + unfold positive_labels. rewrite list_elem_of_filter. lia.
    + eexists. split; [|rewrite Hmean; apply mean_of_arithmetic_mean].
      apply Forall2_fmap_r, Forall_Forall2_diag, Forall_forall.
      intros l [Hpos Hl]%list_elem_of_filter.
      rewrite Hlk, decide_True by done.
      apply Z.ltb_lt in Hpos. by rewrite Hpos.
Qed.

Lemma no_ground_truth_ap_undefined_witness :
  let d := {| det_box := (0, 0, 1, 1); det_score := 9 # 10 |} in
  let det_boxes : list (gmap string (list Det)) :=
    [ {[ "a" := [d]; "b" := [d] ]} ] in
  let gt_boxes : list (gmap string (list Box)) :=
    [ {[ "a" := [ (0, 0, 1, 1) ]; "b" := [] ]} ] in
  exists mean_ap all_aps,
    compute_map det_boxes gt_boxes (1 # 2) "area" = Ok (mean_ap, all_aps) /\
    all_aps !! "b" = Some APNaN /\ "b" ∉ positive_labels gt_boxes.
Proof.
  intros d det_boxes gt_boxes.
  destruct (compute_map det_boxes gt_boxes (1 # 2) "area")
    as [[mean_ap all_aps]|e] eqn:E; [|vm_compute in E; discriminate E].
  exists mean_ap, all_aps. split; [reflexivity|].
  destruct (no_ground_truth_ap_undefined det_boxes gt_boxes (1 # 2) "area" "b")
    as [_ H]; [reflexivity|discriminate|].
  destruct (H mean_ap all_aps E) as (Hin & _ & Hpos & _).
  split; [|exact Hpos]. apply Hin.
  change (gt_labels gt_boxes) with ["a"; "b"]. by right; left.
Defined.

(** * Ground-truth dictionaries without a key *)

(** C10 fails as stated: a class that is a key of one ground-truth
    dictionary and not of another does not always end the call in a
    [KeyError].  An earlier class can raise first: [ValueError] for an
    unknown method, [IndexError] for a detection in an image beyond the end
    of [gt_boxes], or for a threshold of [-1] and a detection in an image
    without ground truth of its class. *)
Lemma missing_key_counterexample :
  let d := {| det_box := (0, 0, 1, 1); det_score := 9 # 10 |} in
  let gt_boxes : list (gmap string (list Box)) :=
    [ {[ "a" := []; "b" := [] ]}; {[ "a" := [] ]} ] in
  (exists gd, gd ∈ gt_boxes /\ is_Some (gd !! "b")) /\
  (exists gd, gd ∈ gt_boxes /\ gd !! "b" = None) /\
  compute_map [∅; ∅] gt_boxes (1 # 2) "bogus"
    = Raise (ValueError "Method can only be area or interp") /\
  compute_map [∅; ∅; {[ "a" := [d] ]}] gt_boxes (1 # 2) "area"
    = Raise IndexError /\
  compute_map [ {[ "a" := [d] ]}; ∅ ] gt_boxes (-1) "area" = Raise IndexError.
Proof.
  intros d gt_boxes. split; [|split; [|split; [|split]]].
  - eexists. split; [by left|]. by eexists.
  - eexists. split; [right; by left|]. reflexivity.
  - reflexivity.
  - reflexivity.
  - reflexivity.
Qed.

Lemma class_loop_KeyError det_boxes gt_boxes thr method labels acc :
  valid_method method -> -1 < thr ->
  (length det_boxes <= length gt_boxes)%nat ->
  Exists (fun l => ~ all_have_key gt_boxes l) labels ->
  exists l, l ∈ labels /\ ~ all_have_key gt_boxes l /\
    for_each (class_body det_boxes gt_boxes thr method) labels acc
    = Raise (KeyError l).
Proof.
  intros Hv Hthr Hlen Hex.
  pose proof (class_loop_outcome det_boxes gt_boxes thr method labels acc)
    as Hloop.
  destruct (for_each _ _ _) as [acc'|e].
  - exfalso. destruct Hloop as [Hall _].
    apply Exists_exists in Hex as (l & Hl & Hmiss).
    rewrite Forall_forall in Hall. specialize (Hall l Hl).
    pose proof (class_ap_outcome det_boxes gt_boxes thr method l) as Ho.
    rewrite Hall in Ho.
    destruct (class_result det_boxes gt_boxes thr method l).
    by destruct Ho as (? & _).
  - destruct Hloop as (l1 & l & l2 & -> & _ & He).
    pose proof (class_ap_outcome det_boxes gt_boxes thr method l) as Ho.
    rewrite He in Ho.
    destruct Ho as [[-> Hmiss]|[(_ & _ & [?|Hout])|(_ & _ & ?)]].
    + exists l. split; [|done]. apply elem_of_app. right. by left.
    + lra.
    + exfalso. by eapply collect_dets_in_range.
    + done.
Qed.

(** C10, amended: when a class label is a key of one image's ground-truth
    dictionary and not of another's, the evaluation of that class raises
    [KeyError] while its match table is built, whatever the detections, the
    threshold and the method are, and so [compute_map] never completes.  The
    exception that ends the call is the one of the first class, in sorted
    order, whose evaluation raises: it is a [KeyError] for such a label
    whenever the method is ['area'] or ['interp'], the threshold is above
    [-1] and [det_boxes] is not longer than [gt_boxes]. *)
Theorem missing_key_raises det_boxes gt_boxes thr method label :
  (exists gd, gd ∈ gt_boxes /\ is_Some (gd !! label)) ->
  (exists gd, gd ∈ gt_boxes /\ gd !! label = None) ->
  init_matched gt_boxes label = Raise (KeyError label) /\
  match_class det_boxes gt_boxes thr label = Raise (KeyError label) /\
  (exists e, compute_map det_boxes gt_boxes thr method = Raise e) /\
  (valid_method method -> -1 < thr ->
   (length det_boxes <= length gt_boxes)%nat ->
   exists l, l ∈ gt_labels gt_boxes /\ ~ all_have_key gt_boxes l /\
             compute_map det_boxes gt_boxes thr method = Raise (KeyError l)).
Proof.
  intros Hsome Hnone.
  assert (Hin : label ∈ gt_labels gt_boxes) by by apply elem_of_gt_labels.
  assert (Hmiss : ~ all_have_key gt_boxes label).
  { apply missing_key_not_all, Exists_exists. exact Hnone. }
  assert (Hinit : init_matched gt_boxes label = Raise (KeyError label))
    by by apply init_matched_Raise.
  split; [exact Hinit|]. split; [|split].
  - unfold match_class. by rewrite Hinit.
  - destruct (compute_map det_boxes gt_boxes thr method) as [[m a]|e] eqn:E;
      [|eauto].
    exfalso.
    destruct (compute_map_Ok_inv _ _ _ _ _ _ E) as (Hall & _).
    rewrite Forall_forall in Hall. by destruct (Hall label Hin) as (_ & ? & _).
  - intros Hv Hthr Hlen.
    destruct (class_loop_KeyError det_boxes gt_boxes thr method
                (gt_labels gt_boxes) ([], ∅) Hv Hthr Hlen)
      as (l & Hl & Hlmiss & Hrun).
    { apply Exists_exists. eauto. }
    exists l. split; [done|]. split; [done|].
    rewrite compute_map_unfold, Hrun. done.
Qed.

Lemma missing_key_raises_witness :
  let gt_boxes : list (gmap string (list Box)) :=
    [ {[ "a" := []; "b" := [ (0, 0, 1, 1) ] ]}; {[ "a" := [] ]} ] in
  match_class [∅; ∅] gt_boxes (1 # 2) "b" = Raise (KeyError "b") /\
  exists l, l ∈ gt_labels gt_boxes /\ ~ all_have_key gt_boxes l /\
            compute_map [∅; ∅] gt_boxes (1 # 2) "area" = Raise (KeyError l).
Proof.
  intros gt_boxes.
  destruct (missing_key_raises [∅; ∅] gt_boxes (1 # 2) "area" "b")
    as (_ & Hclass & _ & Hcall).
  - eexists. split; [by left|]. by eexists.
  - eexists. split; [right; by left|]. reflexivity.
  - split; [exact Hclass|]. apply Hcall.
    + by left.
    + reflexivity.
    + simpl. lia.
Defined.

(** * The per-class matcher *)

Lemma score_desc_sorted (l : list (nat * Det)) :
  StronglySorted (key_le neg_score) l -> StronglySorted score_desc l.
Proof.
  induction 1 as [|x l _ IH Hx]; constructor; [done|].
  eapply Forall_impl; [exact Hx|].
  unfold key_le, neg_score, score_desc. intros y Hy. lra.
Qed.

Lemma match_class_total det_boxes gt_boxes thr label :
  all_have_key gt_boxes label -> -1 < thr ->
  (length det_boxes <= length gt_boxes)%nat ->
  exists r, match_class det_boxes gt_boxes thr label = Ok r.
Proof.
  intros Hall Hthr Hlen.
  pose proof (match_class_outcome det_boxes gt_boxes thr label) as Ho.
  simpl in Ho.
  destruct (match_class det_boxes gt_boxes thr label) as [r|e]; [eauto|].
  exfalso. destruct Ho as [[_ ?]|(_ & _ & [?|Hout])]; [done|lra|].
  by eapply collect_dets_in_range.
Qed.

(** C1: the matcher of a class.  When the matching of a class completes,
    the detections were processed in descending order of score, and each of
    them was classified by the rule of [greedy_run]: among all the
    ground-truth boxes of its image and class, matched or not, the box of
    maximum IoU is selected; the detection is a true positive if and only
    if that IoU reaches the threshold and the selected box is not matched
    yet, and then the box becomes matched; otherwise it is a false positive
    and the table is left as it is.  The matching does complete when every
    image has the class as a key, the threshold is above [-1] and
    [det_boxes] is not longer than [gt_boxes]. *)
Theorem matcher_follows_greedy_rule det_boxes gt_boxes thr label :
  (forall cls_dets num_gts st,
     match_class det_boxes gt_boxes thr label = Ok (cls_dets, num_gts, st) ->
     cls_dets ≡ₚ collect_dets det_boxes label /\
     StronglySorted score_desc cls_dets /\
     exists flags,
       greedy_run gt_boxes label thr cls_dets (fresh_table gt_boxes label)
                  flags (gt_matched st)
       /\ tp st = tp_of flags /\ fp st = fp_of flags) /\
  (all_have_key gt_boxes label -> -1 < thr ->
   (length det_boxes <= length gt_boxes)%nat ->
   exists r, match_class det_boxes gt_boxes thr label = Ok r).
Proof.
  pose proof (match_class_outcome det_boxes gt_boxes thr label) as Ho.
  simpl in Ho. split.
  - intros cls_dets num_gts st Hm. rewrite Hm in Ho.
    destruct Ho as (_ & -> & _ & flags & Hrun & Htp & Hfp).
    split; [apply py_sorted_Permutation|].
    split; [apply score_desc_sorted, py_sorted_sorted|]. eauto.
  - apply match_class_total.
Qed.

Lemma matcher_follows_greedy_rule_witness :
  let d1 := {| det_box := (0, 0, 10, 10); det_score := 9 # 10 |} in
  let d2 := {| det_box := (0, 0, 10, 9); det_score := 8 # 10 |} in
  let det_boxes : list (gmap string (list Det)) := [ {[ "a" := [d2; d1] ]} ] in
  let gt_boxes : list (gmap string (list Box)) :=
    [ {[ "a" := [ (0, 0, 10, 10) ] ]} ] in
  exists cls_dets num_gts st flags,
    match_class det_boxes gt_boxes (1 # 2) "a" = Ok (cls_dets, num_gts, st) /\
    StronglySorted score_desc cls_dets /\
    greedy_run gt_boxes "a" (1 # 2) cls_dets (fresh_table gt_boxes "a")
               flags (gt_matched st) /\
    tp st = tp_of flags /\ fp st = fp_of flags.
Proof.
  intros d1 d2 det_boxes gt_boxes.
  destruct (matcher_follows_greedy_rule det_boxes gt_boxes (1 # 2) "a")
    as [Hrule Htotal].
  destruct Htotal as [[[cls_dets num_gts] st] Hm].
  - repeat constructor. by eexists.
  - reflexivity.
  - simpl. lia.
  - destruct (Hrule cls_dets num_gts st Hm)
      as (_ & Hsorted & flags & Hrun & Htp & Hfp).
    exists cls_dets, num_gts, st, flags. done.
Defined.

(** ** A contested ground-truth box *)

Lemma selects_single det g sel :
  selects det [g] sel -> exists v, sel = Some (0%nat, v) /\ get_iou det g = Ok v.
Proof.
  intros [Hnil|j g' m Hj Hm _ _]; [discriminate Hnil|].
  destruct j as [|j]; simpl in Hj; [|by rewrite lookup_nil in Hj].
  injection Hj as <-. eauto.
Qed.

Section contested.
Context (gt_boxes : list (gmap string (list Box))) (label : string)
        (thr : Q) (im : nat) (gd : gmap string (list Box)) (g : Box).
Context (Hgd : gt_boxes !! im = Some gd) (Hg : gd !! label = Some [g]).

#[local] Abbreviation here :=
  (fun x : nat * Det * bool => fst (fst x) = im).

(** Once the only box of the image is matched, every further detection of
    the image is a false positive. *)
Lemma greedy_run_taken dets tbl flags tbl' :
  greedy_run gt_boxes label thr dets tbl flags tbl' ->
  tbl !! im = Some [true] ->
  filter here (zip dets flags) =
    (fun p => (p, false)) <$> filter (fun p => fst p = im) dets.
Proof.
  induction 1 as [tbl|im' d rest tbl gd' gts row sel flag flags tbl'
                   Hgd' Hgts Hrow Hsel Hflag Hrun IH]; intros Htbl; [done|].
  simpl. rewrite !filter_cons. simpl.
  destruct (decide (im' = im)) as [->|Hne].
  - rewrite Hgd in Hgd'. injection Hgd' as <-.
    rewrite Hg in Hgts. injection Hgts as <-.
    rewrite Htbl in Hrow. injection Hrow as <-.
    apply selects_single in Hsel as (v & -> & Hv).
    destruct flag.
    + exfalso. destruct (proj1 Hflag eq_refl) as [_ Hfree]. discriminate Hfree.
    + rewrite fmap_cons, IH by done. done.
  - apply IH. destruct flag; [|done]. by rewrite list_lookup_insert_ne.
Qed.

(** While it is free, the first detection of the image that reaches the
    threshold takes it. *)
Lemma greedy_run_free dets tbl flags tbl' :
  greedy_run gt_boxes label thr dets tbl flags tbl' ->
  tbl !! im = Some [false] ->
  (forall d, (im, d) ∈ dets ->
             exists v, get_iou (det_box d) g = Ok v /\ thr <= v) ->
  filter here (zip dets flags) =
    match filter (fun p => fst p = im) dets with
    | [] => []
    | p :: rest => (p, true) :: ((fun p => (p, false)) <$> rest)
    end.
Proof.
  induction 1 as [tbl|im' d rest tbl gd' gts row sel flag flags tbl'
                   Hgd' Hgts Hrow Hsel Hflag Hrun IH];
    intros Htbl Hiou; [done|].
  simpl. rewrite !filter_cons. simpl.
  destruct (decide (im' = im)) as [->|Hne].
  - rewrite Hgd in Hgd'. injection Hgd' as <-.
    rewrite Hg in Hgts. injection Hgts as <-.
    rewrite Htbl in Hrow. injection Hrow as <-.
    apply selects_single in Hsel as (v & -> & Hv).
    destruct (Hiou d) as (v' & Hv' & Hthr); [by left|].
    rewrite Hv in Hv'. injection Hv' as <-.
    destruct flag.
    + f_equal. eapply greedy_run_taken; [exact Hrun|].
      simpl. apply list_lookup_insert_eq. by eapply lookup_lt_Some.
    + exfalso. assert (false = true); [|done]. by apply Hflag.
  - apply IH.
    + destruct flag; [|done]. by rewrite list_lookup_insert_ne.
    + intros d' Hd'. apply Hiou. by right.
Qed.
End contested.

Lemma filter_image_dets_other label im k (l : list (gmap string (list Det))) :
  (im < k)%nat ->
  filter (fun p : nat * Det => fst p = im)
         (enumerate_from k l ≫= image_dets label) = [].
Proof.
  revert k. induction l as [|dd l IH]; intros k Hk; [done|].
  rewrite enumerate_from_cons. cbn [mbind list_bind].
  rewrite filter_app, (IH (S k)) by lia. rewrite app_nil_r. simpl.
  destruct (dd !! label) as [ds|]; [|done].
  induction ds as [|d ds IHds]; [done|].
  rewrite fmap_cons, filter_cons. simpl.
  rewrite decide_False by lia. exact IHds.
Qed.

Lemma filter_image_dets label im dd ds : forall k (l : list (gmap string (list Det))),
  l !! im = Some dd -> dd !! label = Some ds ->
  filter (fun p : nat * Det => fst p = (k + im)%nat)
         (enumerate_from k l ≫= image_dets label) =
    (fun d => ((k + im)%nat, d)) <$> ds.
Proof.
  induction im as [|im IH]; intros k l Hl Hds.
  - destruct l as [|dd' l]; [done|]. simpl in Hl. injection Hl as ->.
    rewrite enumerate_from_cons. cbn [mbind list_bind].
    rewrite filter_app, filter_image_dets_other by lia.
    rewrite app_nil_r. simpl. rewrite Hds, Nat.add_0_r.
    clear Hds. induction ds as [|d ds IHds]; [done|].
    rewrite fmap_cons, filter_cons. simpl.
    rewrite decide_True by done. by rewrite IHds.
  - destruct l as [|dd' l]; [done|]. simpl in Hl.
    rewrite enumerate_from_cons. cbn [mbind list_bind].
    rewrite filter_app. replace (k + S im)%nat with (S k + im)%nat by lia.
    rewrite (IH (S k) l Hl Hds).
    replace (filter _ (image_dets label (k, dd'))) with (@nil (nat * Det));
      [done|].
    simpl. destruct (dd' !! label) as [ds'|]; [|done].
    induction ds' as [|d ds' IHds]; [done|].
    rewrite fmap_cons, filter_cons. simpl.
    rewrite decide_False by lia. exact IHds.
Qed.

Lemma filter_collect_dets det_boxes label im dd ds :
  det_boxes !! im = Some dd -> dd !! label = Some ds ->
  filter (fun p : nat * Det => fst p = im) (collect_dets det_boxes label) =
    (fun d => (im, d)) <$> ds.
Proof.
  intros Hdd Hds. unfold collect_dets, enumerate.
  exact (filter_image_dets label im dd ds 0 det_boxes Hdd Hds).
Qed.

(** C5: one ground-truth box of the class in an image, and exactly two
    detections [da], [db] of the class in that image (in this input order),
    both with an IoU with the box that reaches the threshold.  Among the
    processed detections of the image, the first is the one of higher score
    and it is a true positive, the second is the other one and it is a false
    positive; with equal scores, [da], which comes first in the input, is the
    true positive.  The matching completes under the conditions of C1. *)
Theorem contested_box_goes_to_best_score
    det_boxes gt_boxes thr label im gd g dd da db va vb :
  gt_boxes !! im = Some gd -> gd !! label = Some [g] ->
  det_boxes !! im = Some dd -> dd !! label = Some [da; db] ->
  get_iou (det_box da) g = Ok va -> thr <= va ->
  get_iou (det_box db) g = Ok vb -> thr <= vb ->
  (forall cls_dets num_gts st,
     match_class det_boxes gt_boxes thr label = Ok (cls_dets, num_gts, st) ->
     exists flags,
       tp st = tp_of flags /\ fp st = fp_of flags /\
       filter (fun x : nat * Det * bool => fst (fst x) = im)
              (zip cls_dets flags) =
         if Qle_bool (det_score db) (det_score da)
         then [ ((im, da), true); ((im, db), false) ]
         else [ ((im, db), true); ((im, da), false) ]) /\
  (all_have_key gt_boxes label -> -1 < thr ->
   (length det_boxes <= length gt_boxes)%nat ->
   exists r, match_class det_boxes gt_boxes thr label = Ok r).
Proof.
  intros Hgd Hg Hdd Hds Hva Hta Hvb Htb.
  split; [|apply match_class_total].
  intros cls_dets num_gts st Hm.
  pose proof (match_class_outcome det_boxes gt_boxes thr label) as Ho.
  simpl in Ho. rewrite Hm in Ho.
  destruct Ho as (_ & -> & _ & flags & Hrun & Htp & Hfp).
  exists flags. split; [done|]. split; [done|].
  set (cls_dets := py_sorted neg_score (collect_dets det_boxes label)) in *.
  assert (Hfilter : filter (fun p : nat * Det => fst p = im) cls_dets =
            if Qle_bool (det_score db) (det_score da)
            then [ (im, da); (im, db) ] else [ (im, db); (im, da) ]).
  { unfold cls_dets. rewrite py_sorted_filter.
    rewrite (filter_collect_dets _ _ _ _ _ Hdd Hds). simpl.
    unfold neg_score at 1 2. simpl.
    destruct (Qle_bool (det_score db) (det_score da)) eqn:E.
    - replace (Qle_bool (- det_score da) (- det_score db)) with true; [done|].
      symmetry. apply Qle_bool_iff. apply Qle_bool_iff in E. lra.
    - replace (Qle_bool (- det_score da) (- det_score db)) with false; [done|].
      symmetry. apply not_true_iff_false. rewrite Qle_bool_iff.
      apply not_true_iff_false in E. rewrite Qle_bool_iff in E. lra. }
  rewrite (greedy_run_free gt_boxes label thr im gd g Hgd Hg _ _ _ _ Hrun).
  - rewrite Hfilter. by destruct (Qle_bool (det_score db) (det_score da)).
  - unfold fresh_table. rewrite list_lookup_fmap, Hgd. simpl.
    unfold gts_of. by rewrite Hg.
  - intros d Hd. unfold cls_dets in Hd. rewrite py_sorted_Permutation in Hd.
    apply elem_of_collect_dets in Hd as (dd' & ds' & Hdd' & Hds' & Hin).
    rewrite Hdd in Hdd'. injection Hdd' as <-.
    rewrite Hds in Hds'. injection Hds' as <-.
    apply elem_of_cons in Hin as [->|Hin]; [eauto|].
    apply list_elem_of_singleton in Hin as ->. eauto.
Qed.

Lemma contested_box_goes_to_best_score_witness :
  let da := {| det_box := (0, 0, 10, 10); det_score := 1 # 2 |} in
  let db := {| det_box := (0, 0, 10, 9); det_score := 1 # 2 |} in
  let det_boxes : list (gmap string (list Det)) := [ {[ "a" := [da; db] ]} ] in
  let gt_boxes : list (gmap string (list Box)) :=
    [ {[ "a" := [ (0, 0, 10, 10) ] ]} ] in
  exists cls_dets num_gts st flags,
    match_class det_boxes gt_boxes (1 # 2) "a" = Ok (cls_dets, num_gts, st) /\
    tp st = tp_of flags /\ fp st = fp_of flags /\
    filter (fun x : nat * Det * bool => fst (fst x) = 0%nat)
           (zip cls_dets flags) =
      [ ((0%nat, da), true); ((0%nat, db), false) ].
Proof.
  intros da db det_boxes gt_boxes.
  destruct (match_class det_boxes gt_boxes (1 # 2) "a")
    as [[[cls_dets num_gts] st]|e] eqn:E; [|vm_compute in E; discriminate E].
  destruct (get_iou (det_box da) (0, 0, 10, 10)) as [va|] eqn:Hva;
    [|vm_compute in Hva; discriminate Hva].
  destruct (get_iou (det_box db) (0, 0, 10, 10)) as [vb|] eqn:Hvb;
    [|vm_compute in Hvb; discriminate Hvb].
  assert (Hta : 1 # 2 <= va).
  { vm_compute in Hva. injection Hva as <-. discriminate. }
  assert (Htb : 1 # 2 <= vb).
  { vm_compute in Hvb. injection Hvb as <-. discriminate. }
  destruct (proj1 (contested_box_goes_to_best_score det_boxes gt_boxes
              (1 # 2) "a" 0 {[ "a" := [ (0, 0, 10, 10) ] ]} (0, 0, 10, 10)
              {[ "a" := [da; db] ]} da db va vb
              eq_refl eq_refl eq_refl eq_refl Hva Hta Hvb Htb)
            cls_dets num_gts st E) as (flags & Htp & Hfp & Hfl).
  exists cls_dets, num_gts, st, flags. done.
Defined.

(** * Adding a class without ground truth *)

Lemma for_each_ext {A S} (f g : S -> A -> result S) xs s :
  (forall s x, x ∈ xs -> f s x = g s x) -> for_each f xs s = for_each g xs s.
Proof.
  revert s. induction xs as [|x xs IH]; intros s Hfg; simpl; [done|].
  rewrite Hfg by (by left). destruct (g s x); simpl; [|done].
  apply IH. intros s' y Hy. apply Hfg. by right.
Qed.

Lemma comprehension_fmap {A B C} (f : B -> result C) (g : A -> B) xs :
  comprehension f (g <$> xs) = comprehension (fun x => f (g x)) xs.
Proof.
  induction xs as [|x xs IH]; [done|].
  rewrite fmap_cons. cbn [comprehension]. by rewrite IH.
Qed.

Lemma comprehension_ext {A B} (f g : A -> result B) xs :
  (forall x, f x = g x) -> comprehension f xs = comprehension g xs.
Proof.
  intros Hfg. induction xs as [|x xs IH]; simpl; [done|]. by rewrite Hfg, IH.
Qed.

Section add_class.
Context (det_boxes : list (gmap string (list Det)))
        (gt_boxes : list (gmap string (list Box)))
        (thr : Q) (method : string) (z : string).

#[local] Abbreviation gt_boxes' := (add_empty_class z gt_boxes).

Lemma dict_get_add (gd : gmap string (list Box)) l :
  l <> z -> dict_get (<[z := []]> gd) l = dict_get gd l.
Proof. intros Hne. unfold dict_get. by rewrite lookup_insert_ne. Qed.

Lemma init_matched_add l :
  l <> z -> init_matched gt_boxes' l = init_matched gt_boxes l.
Proof.
  intros Hne. unfold init_matched, add_empty_class.
  rewrite comprehension_fmap. apply comprehension_ext.
  intros gd. by rewrite dict_get_add.
Qed.

Lemma count_gts_add l :
  l <> z -> count_gts gt_boxes' l = count_gts gt_boxes l.
Proof.
  intros Hne. unfold count_gts, add_empty_class.
  rewrite comprehension_fmap.
  erewrite comprehension_ext; [done|].
  intros gd. simpl. by rewrite dict_get_add.
Qed.

Lemma match_body_add l st p :
  l <> z -> match_body gt_boxes' l thr st p = match_body gt_boxes l thr st p.
Proof.
  intros Hne. destruct p as [det_idx [im d]].
  unfold match_body, list_get, add_empty_class.
  rewrite list_lookup_fmap.
  destruct (gt_boxes !! im) as [gd|]; simpl; [|done].
  by rewrite dict_get_add.
Qed.

Lemma class_ap_add l :
  l <> z ->
  class_ap det_boxes gt_boxes' thr method l
  = class_ap det_boxes gt_boxes thr method l.
Proof.
  intros Hne. unfold class_ap, match_class.
  rewrite init_matched_add, count_gts_add by done.
  destruct (init_matched gt_boxes l) as [tbl|]; simpl; [|done].
  destruct (count_gts gt_boxes l) as [n|]; simpl; [|done].
  erewrite for_each_ext; [done|].
  intros st p _. by apply match_body_add.
Qed.

Lemma all_have_key_add : all_have_key gt_boxes' z.
Proof.
  unfold all_have_key, add_empty_class. apply Forall_fmap, Forall_forall.
  intros gd _. simpl. rewrite lookup_insert_eq. by eexists.
Qed.

Lemma total_gts_add : total_gts gt_boxes' z = 0%Z.
Proof.
  unfold add_empty_class.
  induction gt_boxes as [|gd l IH]; [done|].
  rewrite fmap_cons, total_gts_cons, IH.
  unfold gts_of. by rewrite lookup_insert_eq.
Qed.

Lemma length_add : length gt_boxes' = length gt_boxes.
Proof. apply length_fmap. Qed.

Lemma elem_of_gt_labels_add l :
  gt_boxes <> [] ->
  l ∈ gt_labels gt_boxes' <-> l = z \/ l ∈ gt_labels gt_boxes.
Proof.
  intros Hne. rewrite !elem_of_gt_labels. unfold add_empty_class. split.
  - intros (gd' & Hin & Hl).
    apply list_elem_of_fmap in Hin as (gd & -> & Hgd).
    destruct (decide (l = z)) as [->|Hlz]; [by left|right].
    rewrite lookup_insert_ne in Hl by done. eauto.
  - intros [->|(gd & Hgd & Hl)].
    + destruct gt_boxes as [|gd l']; [done|].
      exists (<[z := []]> gd). split; [by left|].
      rewrite lookup_insert_eq. by eexists.
    + exists (<[z := []]> gd). split.
      * apply list_elem_of_fmap. eauto.
      * destruct (decide (l = z)) as [->|Hlz].
        -- rewrite lookup_insert_eq. by eexists.
        -- by rewrite lookup_insert_ne.
Qed.
End add_class.

Lemma StronglySorted_filter {A} (R : relation A) (P : A -> Prop)
    `{!forall x, Decision (P x)} (l : list A) :
  StronglySorted R l -> StronglySorted R (filter P l).
Proof.
  induction 1 as [|x l _ IH Hx]; [constructor|].
  rewrite filter_cons. destruct (decide (P x)); [|done].
  constructor; [done|]. apply Forall_forall.
  intros y [_ Hy]%list_elem_of_filter. rewrite Forall_forall in Hx. auto.
Qed.

Section add_class_labels.
Context (gt_boxes : list (gmap string (list Box))) (z : string).
Context (Hne : gt_boxes <> []) (Hz : z ∉ gt_labels gt_boxes).

#[local] Abbreviation gt_boxes'' := (add_empty_class z gt_boxes).

Lemma gt_labels_add_filter :
  filter (fun l => l <> z) (gt_labels gt_boxes'') = gt_labels gt_boxes.
Proof.
  apply (StronglySorted_unique String.le).
  - apply StronglySorted_filter, gt_labels_sorted.
  - apply gt_labels_sorted.
  - apply NoDup_Permutation.
    + apply NoDup_filter, gt_labels_NoDup.
    + apply gt_labels_NoDup.
    + intros l. rewrite list_elem_of_filter, elem_of_gt_labels_add by done.
      split; [intros [? [?|?]]; done|]. intros Hl. split; [|by right].
      intros ->. done.
Qed.

Lemma total_gts_add_ne l :
  l <> z -> total_gts gt_boxes'' l = total_gts gt_boxes l.
Proof.
  intros Hl. unfold add_empty_class. clear Hne Hz.
  induction gt_boxes as [|gd gts IH]; [done|].
  rewrite fmap_cons, !total_gts_cons, IH.
  unfold gts_of. by rewrite lookup_insert_ne.
Qed.

Lemma positive_labels_add :
  positive_labels gt_boxes'' = positive_labels gt_boxes.
Proof.
  unfold positive_labels. rewrite <- gt_labels_add_filter.
  rewrite list_filter_filter. apply filter_ext_in. intros l _.
  destruct (decide (l = z)) as [->|Hl].
  - rewrite total_gts_add. split; [lia|]. intros [_ ?]. done.
  - rewrite total_gts_add_ne by done. tauto.
Qed.

Lemma positive_labels_ne l : l ∈ positive_labels gt_boxes -> l <> z.
Proof.
  unfold positive_labels. intros [_ Hl]%list_elem_of_filter ->. done.
Qed.
End add_class_labels.

Lemma compute_map_mean det_boxes gt_boxes thr method mean_ap all_aps :
  compute_map det_boxes gt_boxes thr method = Ok (mean_ap, all_aps) ->
  exists aps,
    Forall2 (fun l ap => all_aps !! l = Some (APNum ap))
            (positive_labels gt_boxes) aps /\
    aps <> [] /\ mean_ap == arithmetic_mean aps.
Proof.
  intros Hcm.
  destruct (compute_map_Ok_inv _ _ _ _ _ _ Hcm) as (_ & Hne & Hmean & Hlk).
  eexists. split; [|split; [exact Hne|]];
    [|rewrite Hmean; apply mean_of_arithmetic_mean].
  apply Forall2_fmap_r, Forall_Forall2_diag, Forall_forall.
  intros l [Hpos Hl]%list_elem_of_filter.
  rewrite Hlk, decide_True by done.
  apply Z.ltb_lt in Hpos. by rewrite Hpos.
Qed.

Lemma compute_map_Ok_nonempty det_boxes gt_boxes thr method r :
  compute_map det_boxes gt_boxes thr method = Ok r -> gt_boxes <> [].
Proof. intros Hcm ->. discriminate Hcm. Qed.

Lemma class_ap_new_class det_boxes gt_boxes thr method z :
  valid_method method ->
  (forall im d, (im, d) ∈ collect_dets det_boxes z ->
                (im < length gt_boxes)%nat /\ -1 < thr) ->
  exists ap, class_ap det_boxes (add_empty_class z gt_boxes) thr method z
             = Ok (ap, 0%Z).
Proof.
  intros Hv Hdets.
  destruct (collect_dets det_boxes z) as [|[im0 d0] rest] eqn:Ecol.
  - rewrite class_ap_no_dets by (done || apply all_have_key_add).
    destruct (integrate_ap_valid method [] [] Hv) as [ap ->].
    rewrite total_gts_add. eauto.
  - pose proof (class_ap_outcome det_boxes (add_empty_class z gt_boxes)
                  thr method z) as Ho.
    destruct (class_ap _ _ _ _ z) as [[ap n]|e].
    + destruct Ho as (_ & _ & ->). rewrite total_gts_add. eauto.
    + exfalso. destruct Ho as [[_ Hk]|[(_ & _ & [Hthr|Hout])|(_ & _ & ?)]].
      * apply Hk, all_have_key_add.
      * destruct (Hdets im0 d0) as [_ ?]; [by left|]. lra.
      * apply Exists_exists in Hout as ([im d] & Hin & Hge).
        rewrite py_sorted_Permutation, Ecol in Hin.
        destruct (Hdets im d Hin) as [Hlt _].
        rewrite length_add in Hge. simpl in Hge. lia.
      * done.
Qed.

(** C3: the [mean_ap] that [compute_map] returns is the unweighted
    arithmetic mean of the per-class APs of exactly the classes whose total
    ground-truth count is positive: the entries of these classes in the
    returned mapping, each counted once, add up to [mean_ap] times their
    number.  Adding to every image's ground truth a
    new class [z] with an empty list of boxes leaves [mean_ap] unchanged: a
    call on the extended input that returns, returns the same mean, and the
    same mapping with [z] recorded as [np.nan]; and it does return when the
    detections of [z], if any, lie in images that [gt_boxes] has and the
    threshold is above [-1]. *)
Theorem mean_ap_is_unweighted_mean det_boxes gt_boxes thr method mean_ap all_aps :
  compute_map det_boxes gt_boxes thr method = Ok (mean_ap, all_aps) ->
  (exists aps,
     Forall2 (fun l ap => all_aps !! l = Some (APNum ap))
             (positive_labels gt_boxes) aps /\
     aps <> [] /\ mean_ap == arithmetic_mean aps /\
     mean_ap * inject_Z (Z.of_nat (length aps)) == total_of aps) /\
  (forall z, z ∉ gt_labels gt_boxes ->
     (forall mean_ap' all_aps',
        compute_map det_boxes (add_empty_class z gt_boxes) thr method
          = Ok (mean_ap', all_aps') ->
        mean_ap' = mean_ap /\ all_aps' = <[z := APNaN]> all_aps) /\
     ((forall im d, (im, d) ∈ collect_dets det_boxes z ->
                    (im < length gt_boxes)%nat /\ -1 < thr) ->
      compute_map det_boxes (add_empty_class z gt_boxes) thr method
        = Ok (mean_ap, <[z := APNaN]> all_aps))).
Proof.
  intros Hcm. split.
  { destruct (compute_map_mean _ _ _ _ _ _ Hcm) as (aps & Haps & Hne & Hmean).
    exists aps. split; [done|]. split; [done|]. split; [done|].
    rewrite Hmean. unfold arithmetic_mean. field.
    destruct aps as [|ap aps]; [done|].
    cbn [length]. rewrite Nat2Z.inj_succ.
    change 0 with (inject_Z 0). rewrite inject_Z_injective. lia. }
  intros z Hz.
  pose proof (compute_map_Ok_nonempty _ _ _ _ _ Hcm) as Hne.
  destruct (compute_map_Ok_inv _ _ _ _ _ _ Hcm) as (Hall & Haps & Hmean & Hlk).
  set (gt' := add_empty_class z gt_boxes).
  assert (Hres : forall l, l <> z ->
            class_result det_boxes gt' thr method l
            = class_result det_boxes gt_boxes thr method l).
  { intros l Hl. unfold class_result, gt'. by rewrite class_ap_add. }
  assert (Hsame : forall mean_ap' all_aps',
            compute_map det_boxes gt' thr method = Ok (mean_ap', all_aps') ->
            mean_ap' = mean_ap /\ all_aps' = <[z := APNaN]> all_aps).
  { intros mean_ap' all_aps' Hcm'.
    destruct (compute_map_Ok_inv _ _ _ _ _ _ Hcm') as (_ & _ & Hmean' & Hlk').
    split.
    - rewrite Hmean', Hmean. unfold gt'.
      rewrite positive_labels_add by done. f_equal.
      apply Forall_fmap_ext, Forall_forall. intros l Hl. simpl.
      by rewrite Hres by by eapply positive_labels_ne.
    - apply map_eq. intros k. rewrite Hlk', lookup_insert.
      destruct (decide (z = k)) as [<-|Hk].
      + rewrite decide_True
          by (apply elem_of_gt_labels_add; [done|by left]).
        unfold gt'. by rewrite total_gts_add.
      + rewrite Hlk. unfold gt'.
        rewrite total_gts_add_ne, Hres by done.
        destruct (decide (k ∈ gt_labels gt_boxes)) as [Hin|Hin].
        * rewrite decide_True; [done|].
          apply elem_of_gt_labels_add; [done|by right].
        * rewrite decide_False; [done|].
          rewrite elem_of_gt_labels_add by done. intros [?|?]; done. }
  split; [exact Hsame|].
  intros Hdets.
  assert (Hv : valid_method method).
  { destruct (positive_labels gt_boxes) as [|l0 ?] eqn:E; [done|].
    assert (Hl0 : l0 ∈ gt_labels gt_boxes).
    { assert (Hin : l0 ∈ positive_labels gt_boxes) by (rewrite E; by left).
      unfold positive_labels in Hin.
      by apply list_elem_of_filter in Hin as [_ ?]. }
    rewrite Forall_forall in Hall. by destruct (Hall l0 Hl0) as (_ & _ & ?). }
  destruct (class_ap_new_class det_boxes gt_boxes thr method z Hv Hdets)
    as [apz Hapz]. fold gt' in Hapz.
  assert (Hloop : for_each (class_body det_boxes gt' thr method)
                    (gt_labels gt') ([], ∅)
                  = Ok (record_all det_boxes gt' thr method ([], ∅)
                          (gt_labels gt'))).
  { apply class_loop_Ok, Forall_forall. intros l Hl.
    destruct (decide (l = z)) as [->|Hlz]; [eauto|].
    unfold gt'. rewrite class_ap_add by done.
    apply elem_of_gt_labels_add in Hl as [?|Hl]; [done| |done].
    rewrite Forall_forall in Hall. destruct (Hall l Hl) as (-> & _). eauto. }
  destruct (compute_map det_boxes gt' thr method) as [[m' a']|e] eqn:Hcm'.
  - destruct (Hsame m' a' eq_refl) as [-> ->]. done.
  - exfalso. rewrite compute_map_unfold, Hloop in Hcm'.
    destruct (record_all det_boxes gt' thr method ([], ∅) (gt_labels gt'))
      as [aps' all'] eqn:Erec.
    destruct aps' as [|a aps']; [|discriminate Hcm'].
    apply (f_equal fst) in Erec. unfold record_all in Erec.
    rewrite record_all_aps in Erec. simpl in Erec.
    apply fmap_nil_inv in Erec.
    destruct (positive_labels gt_boxes) as [|l0 ?] eqn:E; [done|].
    assert (Hin : l0 ∈ positive_labels gt_boxes) by (rewrite E; by left).
    pose proof (positive_labels_ne _ _ Hz _ Hin) as Hl0z.
    unfold positive_labels in Hin.
    apply list_elem_of_filter in Hin as [Hpos Hl0].
    assert (Hmem : l0 ∈ filter
              (fun l => (0 < snd (class_result det_boxes gt' thr method l))%Z)
              (gt_labels gt')).
    { apply list_elem_of_filter. split.
      - rewrite Hres by done. unfold class_result.
        rewrite Forall_forall in Hall. destruct (Hall l0 Hl0) as (-> & _).
        done.
      - apply elem_of_gt_labels_add; [done|by right]. }
    rewrite Erec in Hmem. by apply elem_of_nil in Hmem.
Qed.

Lemma mean_ap_is_unweighted_mean_witness :
  let d1 := {| det_box := (0, 0, 10, 10); det_score := 9 # 10 |} in
  let d2 := {| det_box := (50, 50, 60, 60); det_score := 8 # 10 |} in
  let det_boxes : list (gmap string (list Det)) :=
    [ {[ "a" := [d1]; "b" := [d2]; "z" := [d1] ]} ] in
  let gt_boxes : list (gmap string (list Box)) :=
    [ {[ "a" := [ (0, 0, 10, 10) ]; "b" := [ (0, 0, 10, 10) ] ]} ] in
  exists mean_ap all_aps apa apb,
    compute_map det_boxes gt_boxes (1 # 2) "area" = Ok (mean_ap, all_aps) /\
    all_aps !! "a" = Some (APNum apa) /\ apa == 1 /\
    all_aps !! "b" = Some (APNum apb) /\ apb == 0 /\
    mean_ap == 1 # 2 /\
    compute_map det_boxes (add_empty_class "z" gt_boxes) (1 # 2) "area"
      = Ok (mean_ap, <["z" := APNaN]> all_aps).
Proof.
  intros d1 d2 det_boxes gt_boxes.
  destruct (compute_map det_boxes gt_boxes (1 # 2) "area")
    as [[mean_ap all_aps]|e] eqn:E; [|vm_compute in E; discriminate E].
  destruct (mean_ap_is_unweighted_mean det_boxes gt_boxes (1 # 2) "area"
              mean_ap all_aps E) as [(aps & Haps & _ & Hmean & _) Hz].
  change (positive_labels gt_boxes) with ["a"; "b"] in Haps.
  destruct aps as [|apa [|apb [|apc aps]]];
    try (exfalso; apply Forall2_length in Haps; discriminate Haps).
  apply Forall2_cons_1 in Haps as [Ha Haps].
  apply Forall2_cons_1 in Haps as [Hb _].
  assert (Hvals : apa == 1 /\ apb == 0).
  { pose proof E as E'. vm_compute in E'. injection E' as _ <-.
    vm_compute in Ha, Hb. injection Ha as <-. injection Hb as <-.
    split; reflexivity. }
  destruct Hvals as [Hapa Hapb].
  exists mean_ap, all_aps, apa, apb.
  split; [reflexivity|]. split; [exact Ha|]. split; [exact Hapa|].
  split; [exact Hb|]. split; [exact Hapb|]. split.
  - rewrite Hmean. unfold arithmetic_mean. cbn [total_of length].
    rewrite Hapa, Hapb. reflexivity.
  - apply Hz.
    + change (gt_labels gt_boxes) with ["a"; "b"].
      intros H. apply elem_of_cons in H as [H|H]; [discriminate H|].
      apply list_elem_of_singleton in H. discriminate H.
    + intros im d' H.
      change (collect_dets det_boxes "z") with [(0%nat, d1)] in H.
      apply list_elem_of_singleton in H. injection H as -> _.
      split; [simpl; lia|reflexivity].
Defined.

(** * Further properties of [get_iou] *)

Lemma py_max_comm a b : py_max a b == py_max b a.
Proof.
  unfold py_max. destruct (Qltb a b) eqn:E1, (Qltb b a) eqn:E2;
    rewrite ?Qltb_lt, ?Qltb_ge in *; lra.
Qed.

Lemma py_min_comm a b : py_min a b == py_min b a.
Proof.
  unfold py_min. destruct (Qltb a b) eqn:E1, (Qltb b a) eqn:E2;
    rewrite ?Qltb_lt, ?Qltb_ge in *; lra.
Qed.

Lemma Qltb_proper a a' b b' : a == a' -> b == b' -> Qltb a b = Qltb a' b'.
Proof.
  intros Ha Hb. destruct (Qltb a b) eqn:E1, (Qltb a' b') eqn:E2;
    rewrite ?Qltb_lt, ?Qltb_ge in *; try done; lra.
Qed.

(** X1: the overlap is symmetric.  Exchanging the two boxes gives the same
    IoU. *)
Theorem get_iou_symmetric (a b : Box) (v : Q) :
  get_iou a b = Ok v -> exists v', get_iou b a = Ok v' /\ v' == v.
Proof.
  destruct a as [[[ax1 ay1] ax2] ay2], b as [[[bx1 by1] bx2] by2].
  unfold get_iou.
  pose proof (py_max_comm ax1 bx1) as Hxl. pose proof (py_max_comm ay1 by1) as Hyt.
  pose proof (py_min_comm ax2 bx2) as Hxr. pose proof (py_min_comm ay2 by2) as Hyb.
  rewrite (Qltb_proper _ _ _ _ Hxr Hxl), (Qltb_proper _ _ _ _ Hyb Hyt).
  destruct (Qltb (py_min bx2 ax2) (py_max bx1 ax1)
            || Qltb (py_min by2 ay2) (py_max by1 ay1)).
  - intros [= <-]. exists 0. split; [done|reflexivity].
  - set (i := (py_min ax2 bx2 - py_max ax1 bx1) * (py_min ay2 by2 - py_max ay1 by1)).
    set (i' := (py_min bx2 ax2 - py_max bx1 ax1) * (py_min by2 ay2 - py_max by1 ay1)).
    set (u := (ax2 - ax1) * (ay2 - ay1) + (bx2 - bx1) * (by2 - by1) - i + eps6).
    set (u' := (bx2 - bx1) * (by2 - by1) + (ax2 - ax1) * (ay2 - ay1) - i' + eps6).
    assert (Hi : i' == i) by (unfold i, i'; rewrite Hxl, Hxr, Hyt, Hyb; reflexivity).
    assert (Hu : u' == u) by (unfold u, u'; rewrite Hi; ring).
    unfold py_truediv. rewrite (Qeqb_comp u' u Hu 0 0 (Qeq_refl 0)).
    destruct (Qeq_bool u 0); [done|].
    intros [= <-]. exists (i' / u'). split; [done|]. by rewrite Hi, Hu.
Qed.

Lemma get_iou_symmetric_witness :
  exists v', get_iou (1, 1, 5, 5) (0, 0, 4, 4) = Ok v' /\ v' == 9 / (23 + eps6).
Proof.
  apply (get_iou_symmetric (0, 0, 4, 4) (1, 1, 5, 5)). reflexivity.
Defined.

(** X2: whatever the two boxes are, the value that [get_iou] returns is at
    least 0 and at most 1: the intersection is never negative where the
    division is reached, and it never exceeds the union. *)
Theorem get_iou_in_unit_interval (det gt : Box) (v : Q) :
  get_iou det gt = Ok v -> 0 <= v /\ v <= 1.
Proof.
  intros Hv. destruct (get_iou_range det gt) as (v' & Hv' & Hlo & Hhi).
  rewrite Hv in Hv'. injection Hv' as <-. done.
Qed.

Lemma get_iou_in_unit_interval_witness :
  exists v, get_iou (0, 0, 4, 4) (0, 0, 4, 4) = Ok v /\ 0 <= v /\ v <= 1.
Proof.
  eexists. split; [reflexivity|].
  apply (get_iou_in_unit_interval (0, 0, 4, 4) (0, 0, 4, 4)). reflexivity.
Defined.

(** X3: the IoU is positive exactly when the two boxes overlap in a region
    of positive area.  Boxes that are disjoint, that only touch along an
    edge or at a corner, or one of which has no area inside the other, get
    an IoU equal to 0. *)
Theorem get_iou_positive_iff_overlap (det gt : Box) (v : Q) :
  get_iou det gt = Ok v ->
  let '(dx1, dy1, dx2, dy2) := det in
  let '(gx1, gy1, gx2, gy2) := gt in
  0 < v <->
  (dx1 < dx2 /\ dx1 < gx2 /\ gx1 < dx2 /\ gx1 < gx2) /\
  (dy1 < dy2 /\ dy1 < gy2 /\ gy1 < dy2 /\ gy1 < gy2).
Proof.
  destruct det as [[[dx1 dy1] dx2] dy2], gt as [[[gx1 gy1] gx2] gy2].
  unfold get_iou.
  destruct (py_max_ub dx1 gx1) as [Hx1 Hx2], (py_max_ub dy1 gy1) as [Hy1 Hy2].
  destruct (py_min_lb dx2 gx2) as [Hx3 Hx4], (py_min_lb dy2 gy2) as [Hy3 Hy4].
  assert (Hxl : py_max dx1 gx1 = dx1 \/ py_max dx1 gx1 = gx1)
    by (unfold py_max; destruct (Qltb dx1 gx1); auto).
  assert (Hyt : py_max dy1 gy1 = dy1 \/ py_max dy1 gy1 = gy1)
    by (unfold py_max; destruct (Qltb dy1 gy1); auto).
  assert (Hxr : py_min dx2 gx2 = dx2 \/ py_min dx2 gx2 = gx2)
    by (unfold py_min; destruct (Qltb gx2 dx2); auto).
  assert (Hyb : py_min dy2 gy2 = dy2 \/ py_min dy2 gy2 = gy2)
    by (unfold py_min; destruct (Qltb gy2 dy2); auto).
  set (xl := py_max dx1 gx1) in *. set (yt := py_max dy1 gy1) in *.
  set (xr := py_min dx2 gx2) in *. set (yb := py_min dy2 gy2) in *.
  assert (Hiff : (xl < xr /\ yt < yb) <->
    (dx1 < dx2 /\ dx1 < gx2 /\ gx1 < dx2 /\ gx1 < gx2) /\
    (dy1 < dy2 /\ dy1 < gy2 /\ gy1 < dy2 /\ gy1 < gy2)).
  { split.
    - intros [? ?]. repeat split; lra.
    - intros [(? & ? & ? & ?) (? & ? & ? & ?)].
      destruct Hxl as [-> | ->], Hxr as [-> | ->],
               Hyt as [-> | ->], Hyb as [-> | ->]; done. }
  rewrite <- Hiff. clear Hiff Hxl Hxr Hyt Hyb.
  destruct (Qltb xr xl) eqn:Ex; simpl.
  { intros [= <-]. apply Qltb_lt in Ex. split; [intros; lra|]. intros [? ?]. lra. }
  destruct (Qltb yb yt) eqn:Ey; simpl.
  { intros [= <-]. apply Qltb_lt in Ey. split; [intros; lra|]. intros [? ?]. lra. }
  apply Qltb_ge in Ex, Ey.
  set (inter := (xr - xl) * (yb - yt)).
  set (u := (dx2 - dx1) * (dy2 - dy1) + (gx2 - gx1) * (gy2 - gy1) - inter + eps6).
  assert (0 <= inter) by (unfold inter; nra).
  assert (inter <= (dx2 - dx1) * (dy2 - dy1))
    by (unfold inter; apply Qmul_le_mono_nonneg; lra).
  assert (inter <= (gx2 - gx1) * (gy2 - gy1))
    by (unfold inter; apply Qmul_le_mono_nonneg; lra).
  assert (Heps : 0 < eps6) by reflexivity.
  assert (Hu : 0 < u) by (unfold u; lra).
  rewrite py_truediv_pos by done. intros [= <-].
  split.
  - intros Hpos.
    assert (Hi : 0 < inter).
    { destruct (Qlt_le_dec 0 inter) as [?|Hle]; [done|].
      assert (inter == 0) as Hz by lra. rewrite Hz in Hpos.
      unfold Qdiv in Hpos. rewrite Qmult_0_l in Hpos. lra. }
    unfold inter in Hi. split; nra.
  - intros [? ?]. apply Qlt_shift_div_l; [done|].
    rewrite Qmult_0_l. unfold inter. nra.
Qed.

Lemma get_iou_positive_iff_overlap_witness :
  exists v, get_iou (0, 0, 4, 4) (4, 0, 8, 4) = Ok v /\ ~ 0 < v.
Proof.
  eexists. split; [reflexivity|].
  intros Hpos.
  apply (get_iou_positive_iff_overlap (0, 0, 4, 4) (4, 0, 8, 4) _ eq_refl)
    in Hpos.
  destruct Hpos as [(_ & _ & Hx & _) _]. revert Hx. apply Qle_not_lt. discriminate.
Defined.

(** * Further properties of the matcher *)

Lemma greedy_run_length gt_boxes label thr dets tbl flags tbl' :
  greedy_run gt_boxes label thr dets tbl flags tbl' ->
  length flags = length dets.
Proof. induction 1; simpl; congruence. Qed.

Lemma tp_fp_exclusive (flags : list bool) i t f :
  tp_of flags !! i = Some t -> fp_of flags !! i = Some f ->
  (t = 1%Z /\ f = 0%Z) \/ (t = 0%Z /\ f = 1%Z).
Proof.
  unfold tp_of, fp_of. rewrite !list_lookup_fmap.
  destruct (flags !! i) as [[|]|]; simpl; intros [= <-] [= <-]; auto.
Qed.

(** X4: every detection of the class gets exactly one outcome.  When the
    matching completes, [tp] and [fp] have one entry per detection of the
    class, and at each position one of them is 1 and the other is 0. *)
Theorem each_detection_tp_xor_fp det_boxes gt_boxes thr label cls_dets num_gts st :
  match_class det_boxes gt_boxes thr label = Ok (cls_dets, num_gts, st) ->
  length (tp st) = length (collect_dets det_boxes label) /\
  length (fp st) = length (collect_dets det_boxes label) /\
  forall i t f, tp st !! i = Some t -> fp st !! i = Some f ->
    (t = 1%Z /\ f = 0%Z) \/ (t = 0%Z /\ f = 1%Z).
Proof.
  intros Hm. pose proof (match_class_outcome det_boxes gt_boxes thr label) as Ho.
  simpl in Ho. rewrite Hm in Ho.
  destruct Ho as (_ & -> & _ & flags & Hrun & -> & ->).
  apply greedy_run_length in Hrun.
  rewrite py_sorted_Permutation in Hrun.
  unfold tp_of, fp_of. rewrite !length_fmap.
  split; [done|]. split; [done|]. apply tp_fp_exclusive.
Qed.

Lemma each_detection_tp_xor_fp_witness :
  let d1 := {| det_box := (0, 0, 10, 10); det_score := 9 # 10 |} in
  let d2 := {| det_box := (0, 0, 10, 9); det_score := 8 # 10 |} in
  let det_boxes : list (gmap string (list Det)) := [ {[ "a" := [d2; d1] ]} ] in
  let gt_boxes : list (gmap string (list Box)) :=
    [ {[ "a" := [ (0, 0, 10, 10) ] ]} ] in
  exists cls_dets num_gts st,
    match_class det_boxes gt_boxes (1 # 2) "a" = Ok (cls_dets, num_gts, st) /\
    length (tp st) = 2%nat /\ length (fp st) = 2%nat.
Proof.
  intros d1 d2 det_boxes gt_boxes.
  destruct (match_class det_boxes gt_boxes (1 # 2) "a")
    as [[[cls_dets num_gts] st]|e] eqn:E; [|vm_compute in E; discriminate E].
  exists cls_dets, num_gts, st. split; [reflexivity|].
  destruct (each_detection_tp_xor_fp _ _ _ _ _ _ _ E) as (H1 & H2 & _).
  done.
Defined.

(** ** Matched boxes and true positives *)

Lemma count_true_cons b (row : list bool) :
  count_true (b :: row) = ((if b then 1 else 0) + count_true row)%nat.
Proof.
  unfold count_true. rewrite filter_cons.
  destruct b; [by rewrite decide_True|by rewrite decide_False].
Qed.

Lemma count_true_mark (row : list bool) j :
  row !! j = Some false -> count_true (<[j := true]> row) = S (count_true row).
Proof.
  revert j. induction row as [|b row IH]; intros j Hj.
  - by rewrite lookup_nil in Hj.
  - destruct j as [|j].
    + injection Hj as ->. change (<[0%nat := true]> (false :: row))
        with (true :: row). by rewrite !count_true_cons.
    + change (<[S j := true]> (b :: row)) with (b :: <[j := true]> row).
      rewrite !count_true_cons, IH by done. lia.
Qed.

Lemma count_true_le (row : list bool) : (count_true row <= length row)%nat.
Proof. unfold count_true. apply length_filter. Qed.

Lemma count_true_replicate n : count_true (replicate n false) = 0%nat.
Proof.
  induction n as [|n IH]; [done|].
  change (replicate (S n) false) with (false :: replicate n false).
  by rewrite count_true_cons, IH.
Qed.

Lemma sum_list_fmap_insert {A} (f : A -> nat) (l : list A) i x x' :
  l !! i = Some x ->
  (sum_list (f <$> <[i := x']> l) + f x = sum_list (f <$> l) + f x')%nat.
Proof.
  revert i. induction l as [|y l IH]; intros i Hi.
  - by rewrite lookup_nil in Hi.
  - destruct i as [|i].
    + injection Hi as ->. simpl. lia.
    + specialize (IH i Hi).
      change (<[S i := x']> (y :: l)) with (y :: <[i := x']> l).
      rewrite !fmap_cons. cbn [sum_list_with]. lia.
Qed.

Lemma matched_count_insert (tbl : list (list bool)) im row row' :
  tbl !! im = Some row ->
  (matched_count (<[im := row']> tbl) + count_true row =
   matched_count tbl + count_true row')%nat.
Proof. apply sum_list_fmap_insert. Qed.

Lemma matched_count_fresh gt_boxes label :
  matched_count (fresh_table gt_boxes label) = 0%nat.
Proof.
  unfold matched_count, fresh_table in *.
  induction gt_boxes as [|gd l IH]; [done|].
  rewrite !fmap_cons. cbn [sum_list_with].
  by rewrite count_true_replicate, IH.
Qed.

Lemma table_ok_size gt_boxes label tbl :
  table_ok gt_boxes label tbl ->
  (Z.of_nat (matched_count tbl) <= total_gts gt_boxes label)%Z.
Proof.
  unfold table_ok, matched_count.
  induction 1 as [|gd row l tbl (gts & Hgts & Hlen) _ IH]; [done|].
  rewrite total_gts_cons, fmap_cons.
  change (sum_list (count_true row :: (count_true <$> tbl)))
    with (count_true row + sum_list (count_true <$> tbl))%nat.
  unfold gts_of. rewrite Hgts. cbn [default].
  pose proof (count_true_le row). unfold id in *. lia.
Qed.

Lemma sum_Z_tp_of flags : sum_Z (tp_of flags) = Z.of_nat (count_true flags).
Proof.
  induction flags as [|b flags IH]; [done|].
  rewrite count_true_cons. unfold sum_Z, tp_of in *.
  rewrite fmap_cons. cbn [foldl]. rewrite foldl_Zadd_shift, IH.
  destruct b; simpl; lia.
Qed.

Lemma greedy_run_count gt_boxes label thr dets tbl flags tbl' :
  greedy_run gt_boxes label thr dets tbl flags tbl' ->
  table_ok gt_boxes label tbl ->
  table_ok gt_boxes label tbl' /\
  matched_count tbl' = (matched_count tbl + count_true flags)%nat.
Proof.
  induction 1 as [tbl|im d rest tbl gd gts row sel flag flags tbl'
                   Hgd Hgts Hrow Hsel Hflag Hrun IH]; intros Hok.
  - split; [done|]. unfold count_true. simpl. lia.
  - destruct (table_ok_lookup _ _ _ _ _ Hok Hgd) as (gts' & row' & Hg' & Hr' & Hlen).
    rewrite Hgts in Hg'. injection Hg' as <-.
    rewrite Hrow in Hr'. injection Hr' as <-.
    destruct flag.
    + destruct sel as [[j m]|]; [|by destruct (proj1 Hflag eq_refl)].
      destruct (proj1 Hflag eq_refl) as [_ Hfree].
      destruct IH as [Hok' Hcount].
      { by eapply table_ok_mark. }
      split; [done|]. rewrite Hcount.
      pose proof (matched_count_insert tbl im row (<[j := true]> row) Hrow) as Hins.
      rewrite (count_true_mark _ _ Hfree) in Hins.
      rewrite count_true_cons. simpl in *. lia.
    + destruct (IH Hok) as [Hok' Hcount]. split; [done|].
      rewrite Hcount, count_true_cons. done.
Qed.

(** X5: a ground-truth box is consumed by at most one detection.  When the
    matching of a class completes, the match table still has one flag per
    ground-truth box of each image, the number of true positives is the
    number of boxes marked as matched, and it is at most [num_gts]. *)
Theorem true_positives_match_distinct_boxes
    det_boxes gt_boxes thr label cls_dets num_gts st :
  match_class det_boxes gt_boxes thr label = Ok (cls_dets, num_gts, st) ->
  table_ok gt_boxes label (gt_matched st) /\
  sum_Z (tp st) = Z.of_nat (matched_count (gt_matched st)) /\
  (sum_Z (tp st) <= num_gts)%Z.
Proof.
  intros Hm. pose proof (match_class_outcome det_boxes gt_boxes thr label) as Ho.
  simpl in Ho. rewrite Hm in Ho.
  destruct Ho as (Hall & -> & -> & flags & Hrun & -> & _).
  destruct (greedy_run_count _ _ _ _ _ _ _ Hrun (fresh_table_ok _ _ Hall))
    as [Hok Hcount].
  rewrite matched_count_fresh in Hcount. simpl in Hcount.
  split; [done|]. rewrite sum_Z_tp_of, Hcount. split; [done|].
  rewrite <- Hcount. by apply table_ok_size.
Qed.

Lemma true_positives_match_distinct_boxes_witness :
  let d1 := {| det_box := (0, 0, 10, 10); det_score := 9 # 10 |} in
  let d2 := {| det_box := (0, 0, 10, 9); det_score := 8 # 10 |} in
  let det_boxes : list (gmap string (list Det)) := [ {[ "a" := [d2; d1] ]} ] in
  let gt_boxes : list (gmap string (list Box)) :=
    [ {[ "a" := [ (0, 0, 10, 10) ] ]} ] in
  exists cls_dets num_gts st,
    match_class det_boxes gt_boxes (1 # 2) "a" = Ok (cls_dets, num_gts, st) /\
    (sum_Z (tp st) <= num_gts)%Z.
Proof.
  intros d1 d2 det_boxes gt_boxes.
  destruct (match_class det_boxes gt_boxes (1 # 2) "a")
    as [[[cls_dets num_gts] st]|e] eqn:E; [|vm_compute in E; discriminate E].
  exists cls_dets, num_gts, st. split; [reflexivity|].
  by destruct (true_positives_match_distinct_boxes _ _ _ _ _ _ _ E) as (_ & _ & ?).
Defined.

(** ** True positives are justified *)

Lemma greedy_run_tp_sound gt_boxes label thr dets tbl flags tbl' :
  greedy_run gt_boxes label thr dets tbl flags tbl' ->
  forall i im d, dets !! i = Some (im, d) -> flags !! i = Some true ->
  exists gd gts j m,
    gt_boxes !! im = Some gd /\ gd !! label = Some gts /\
    selects (det_box d) gts (Some (j, m)) /\ thr <= m.
Proof.
  induction 1 as [tbl|im' d' rest tbl gd gts row sel flag flags tbl'
                   Hgd Hgts Hrow Hsel Hflag Hrun IH]; intros i im d Hd Hf.
  - by rewrite lookup_nil in Hd.
  - destruct i as [|i]; simpl in Hd, Hf.
    + injection Hd as -> ->. injection Hf as ->.
      destruct sel as [[j m]|]; [|by destruct (proj1 Hflag eq_refl)].
      destruct (proj1 Hflag eq_refl) as [Hthr _]. eauto 10.
    + eauto.
Qed.

(** X6: a true positive is always justified by a ground-truth box.  When
    the matching completes and the detection at position [i] of the sorted
    list is flagged [tp = 1], its own image has a ground-truth box of the
    class whose IoU with the detection reaches the threshold, and no other
    box of that image and class has a larger IoU.  In particular a detection
    in an image without ground truth of the class is never a true
    positive. *)
Theorem true_positive_has_box
    det_boxes gt_boxes thr label cls_dets num_gts st i im d :
  match_class det_boxes gt_boxes thr label = Ok (cls_dets, num_gts, st) ->
  cls_dets !! i = Some (im, d) -> tp st !! i = Some 1%Z ->
  exists gd gts j g m,
    gt_boxes !! im = Some gd /\ gd !! label = Some gts /\
    gts !! j = Some g /\ get_iou (det_box d) g = Ok m /\ thr <= m /\
    forall k g' v, gts !! k = Some g' -> get_iou (det_box d) g' = Ok v ->
                   v <= m.
Proof.
  intros Hm Hd Htp.
  pose proof (match_class_outcome det_boxes gt_boxes thr label) as Ho.
  simpl in Ho. rewrite Hm in Ho.
  destruct Ho as (_ & -> & _ & flags & Hrun & Htpf & _).
  rewrite Htpf in Htp. unfold tp_of in Htp. rewrite list_lookup_fmap in Htp.
  destruct (flags !! i) as [[|]|] eqn:Hf; try discriminate Htp.
  destruct (greedy_run_tp_sound _ _ _ _ _ _ _ Hrun i im d Hd Hf)
    as (gd & gts & j & m & Hgd & Hgts & Hsel & Hthr).
  inversion Hsel as [|j' g m' Hj Hg Hmax Hfirst]; subst.
  exists gd, gts, j, g, m. eauto 10.
Qed.

Lemma true_positive_has_box_witness :
  let d1 := {| det_box := (0, 0, 10, 10); det_score := 9 # 10 |} in
  let det_boxes : list (gmap string (list Det)) := [ {[ "a" := [d1] ]} ] in
  let gt_boxes : list (gmap string (list Box)) :=
    [ {[ "a" := [ (0, 0, 10, 10) ] ]} ] in
  exists gd gts j g m,
    gt_boxes !! 0%nat = Some gd /\ gd !! "a" = Some gts /\
    gts !! j = Some g /\ get_iou (det_box d1) g = Ok m /\ 1 # 2 <= m /\
    forall k g' v, gts !! k = Some g' -> get_iou (det_box d1) g' = Ok v ->
                   v <= m.
Proof.
  intros d1 det_boxes gt_boxes.
  destruct (match_class det_boxes gt_boxes (1 # 2) "a")
    as [[[cls_dets num_gts] st]|e] eqn:E; [|vm_compute in E; discriminate E].
  apply (true_positive_has_box det_boxes gt_boxes (1 # 2) "a"
           cls_dets num_gts st 0 0 d1 E).
  - vm_compute in E. injection E as <- _ _. reflexivity.
  - vm_compute in E. injection E as _ _ <-. reflexivity.
Defined.

(** X7: a threshold above 1 can never be met.  [get_iou] never exceeds 1,
    so with [iou_threshold > 1] every detection of every class is a false
    positive, even one that coincides with a ground-truth box, and no
    ground-truth box is ever marked as matched. *)
Theorem threshold_above_one_is_never_met
    det_boxes gt_boxes thr label cls_dets num_gts st :
  1 < thr ->
  match_class det_boxes gt_boxes thr label = Ok (cls_dets, num_gts, st) ->
  Forall (fun t => t = 0%Z) (tp st) /\ Forall (fun f => f = 1%Z) (fp st) /\
  matched_count (gt_matched st) = 0%nat.
Proof.
  intros Hthr Hm.
  pose proof (match_class_outcome det_boxes gt_boxes thr label) as Ho.
  simpl in Ho. rewrite Hm in Ho.
  destruct Ho as (Hall & -> & _ & flags & Hrun & -> & ->).
  assert (Hflags : Forall (fun b => b = false) flags).
  { apply Forall_lookup. intros i [|] Hf; [exfalso|done].
    pose proof (greedy_run_length _ _ _ _ _ _ _ Hrun) as Hlen.
    destruct (lookup_lt_is_Some_2
                (py_sorted neg_score (collect_dets det_boxes label)) i)
      as [[im d] Hd].
    { rewrite <- Hlen. by eapply lookup_lt_Some. }
    destruct (greedy_run_tp_sound _ _ _ _ _ _ _ Hrun i im d Hd Hf)
      as (gd & gts & j & m & _ & _ & Hsel & Hle).
    inversion Hsel as [|j' g m' Hj Hg _ _]; subst.
    destruct (get_iou_range (det_box d) g) as (v & Hv & _ & Hlt).
    rewrite Hg in Hv. injection Hv as <-. lra. }
  split; [|split].
  - unfold tp_of. apply Forall_fmap. eapply Forall_impl; [exact Hflags|].
    by intros b ->.
  - unfold fp_of. apply Forall_fmap. eapply Forall_impl; [exact Hflags|].
    by intros b ->.
  - destruct (greedy_run_count _ _ _ _ _ _ _ Hrun (fresh_table_ok _ _ Hall))
      as [_ Hcount].
    rewrite Hcount, matched_count_fresh. simpl.
    clear -Hflags. induction Hflags as [|b l -> _ IH]; [done|].
    by rewrite count_true_cons.
Qed.

Lemma threshold_above_one_is_never_met_witness :
  let d1 := {| det_box := (0, 0, 10, 10); det_score := 9 # 10 |} in
  let det_boxes : list (gmap string (list Det)) := [ {[ "a" := [d1] ]} ] in
  let gt_boxes : list (gmap string (list Box)) :=
    [ {[ "a" := [ (0, 0, 10, 10) ] ]} ] in
  exists cls_dets num_gts st,
    match_class det_boxes gt_boxes (11 # 10) "a" = Ok (cls_dets, num_gts, st) /\
    Forall (fun t => t = 0%Z) (tp st) /\ Forall (fun f => f = 1%Z) (fp st).
Proof.
  intros d1 det_boxes gt_boxes.
  destruct (match_class det_boxes gt_boxes (11 # 10) "a")
    as [[[cls_dets num_gts] st]|e] eqn:E; [|vm_compute in E; discriminate E].
  exists cls_dets, num_gts, st. split; [reflexivity|].
  destruct (threshold_above_one_is_never_met det_boxes gt_boxes (11 # 10) "a"
              cls_dets num_gts st) as (Htp & Hfp & _);
    [reflexivity|exact E|].
  split; [exact Htp|exact Hfp].
Defined.

(** * The precision-recall curve *)

Lemma true_positives_count_bound
    det_boxes gt_boxes thr label cls_dets num_gts st :
  match_class det_boxes gt_boxes thr label = Ok (cls_dets, num_gts, st) ->
  exists flags,
    tp st = tp_of flags /\ fp st = fp_of flags /\
    length flags = length cls_dets /\ (sum_Z (tp st) <= num_gts)%Z.
Proof.
  intros Hm. pose proof (match_class_outcome det_boxes gt_boxes thr label) as Ho.
  simpl in Ho. rewrite Hm in Ho.
  destruct Ho as (Hall & -> & -> & flags & Hrun & Htp & Hfp).
  exists flags. split; [done|]. split; [done|].
  split; [by eapply greedy_run_length|].
  destruct (greedy_run_count _ _ _ _ _ _ _ Hrun (fresh_table_ok _ _ Hall))
    as [Hok Hcount].
  rewrite matched_count_fresh in Hcount. simpl in Hcount.
  rewrite Htp, sum_Z_tp_of, <- Hcount. by apply table_ok_size.
Qed.

Lemma cumsum_from_length a l : length (cumsum_from a l) = length l.
Proof. revert a. induction l as [|x l IH]; intros a; simpl; [done|]. by rewrite IH. Qed.

Lemma cumsum_from_bounds l : forall a,
  Forall (fun x => (0 <= x)%Z) l ->
  Forall (fun t => (a <= t <= a + sum_Z l)%Z) (cumsum_from a l).
Proof.
  unfold sum_Z. induction l as [|x l IH]; intros a Hl; simpl; [constructor|].
  apply Forall_cons in Hl as [Hx Hl]. rewrite foldl_Zadd_shift.
  assert (0 <= foldl Z.add 0 l)%Z.
  { clear -Hl. induction Hl as [|y l Hy _ IH]; simpl; [done|].
    rewrite foldl_Zadd_shift. lia. }
  constructor; [lia|].
  eapply Forall_impl; [apply (IH (a + x)%Z Hl)|]. simpl. intros t. lia.
Qed.

Lemma cumsum_from_sorted l : forall a,
  Forall (fun x => (0 <= x)%Z) l -> StronglySorted Z.le (cumsum_from a l).
Proof.
  induction l as [|x l IH]; intros a Hl; simpl; [constructor|].
  pose proof (cumsum_from_bounds l (a + x)%Z) as Hb.
  apply Forall_cons in Hl as [Hx Hl]. constructor; [by apply IH|].
  eapply Forall_impl; [apply Hb, Hl|]. simpl. intros t. lia.
Qed.

Lemma tp_of_nonneg flags : Forall (fun x => (0 <= x)%Z) (tp_of flags).
Proof. unfold tp_of. apply Forall_fmap, Forall_true. by intros []. Qed.

Lemma fp_of_nonneg flags : Forall (fun x => (0 <= x)%Z) (fp_of flags).
Proof. unfold fp_of. apply Forall_fmap, Forall_true. by intros []. Qed.

Lemma eps32_pos : 0 < eps32.
Proof. reflexivity. Qed.

Lemma ratio_in_unit (t n : Z) :
  (0 <= t <= n)%Z -> in_unit (inject_Z t / np_maximum (inject_Z n) eps32).
Proof.
  intros [Ht Hn]. pose proof eps32_pos as Heps.
  destruct (py_max_ub (inject_Z n) eps32) as [Hd1 Hd2].
  change (py_max (inject_Z n) eps32) with (np_maximum (inject_Z n) eps32) in *.
  set (D := np_maximum (inject_Z n) eps32) in *.
  assert (0 <= inject_Z t) by (change 0 with (inject_Z 0); by rewrite <- Zle_Qle).
  assert (inject_Z t <= inject_Z n) by by rewrite <- Zle_Qle.
  split.
  - apply Qle_shift_div_l; lra.
  - apply Qle_shift_div_r; lra.
Qed.

Lemma ratio_mono (t1 t2 : Z) (D : Q) :
  0 < D -> (t1 <= t2)%Z -> inject_Z t1 / D <= inject_Z t2 / D.
Proof.
  intros HD Ht. apply Qle_shift_div_l; [done|].
  unfold Qdiv. rewrite <- Qmult_assoc, (Qmult_comm (/ D)), Qmult_inv_r by lra.
  rewrite Qmult_1_r. by rewrite <- Zle_Qle.
Qed.

Lemma recalls_of_in_unit T n :
  Forall (fun t => (0 <= t <= n)%Z) T -> Forall in_unit (recalls_of T n).
Proof.
  intros HT. unfold recalls_of. apply Forall_fmap.
  eapply Forall_impl; [exact HT|]. intros t Ht. by apply ratio_in_unit.
Qed.

Lemma recalls_of_sorted T n :
  StronglySorted Z.le T -> StronglySorted Qle (recalls_of T n).
Proof.
  unfold recalls_of. induction 1 as [|t T _ IH Ht]; [constructor|].
  rewrite fmap_cons. constructor; [done|].
  apply Forall_fmap. eapply Forall_impl; [exact Ht|]. intros t' Hle.
  apply ratio_mono; [|done].
  destruct (py_max_ub (inject_Z n) eps32) as [_ Hd].
  change (py_max (inject_Z n) eps32) with (np_maximum (inject_Z n) eps32) in Hd.
  pose proof eps32_pos. lra.
Qed.

Lemma precisions_of_in_unit T F :
  Forall (fun t => (0 <= t)%Z) T -> Forall (fun f => (0 <= f)%Z) F ->
  Forall in_unit (precisions_of T F).
Proof.
  unfold precisions_of. intros HT. revert F.
  induction HT as [|t T Ht _ IH]; intros F HF; [constructor|].
  destruct HF as [|f F Hf HF]; [constructor|]. simpl. constructor.
  - apply ratio_in_unit. lia.
  - by apply IH.
Qed.

Lemma pr_curve_facts det_boxes gt_boxes thr label cls_dets num_gts st :
  match_class det_boxes gt_boxes thr label = Ok (cls_dets, num_gts, st) ->
  let tp_cum := cumsum (tp st) in
  let fp_cum := cumsum (fp st) in
  let recalls := recalls_of tp_cum num_gts in
  let precisions := precisions_of tp_cum fp_cum in
  length recalls = length cls_dets /\
  length precisions = length cls_dets /\
  Forall in_unit recalls /\ Forall in_unit precisions /\
  StronglySorted Qle recalls.
Proof.
  intros Hm.
  destruct (true_positives_count_bound _ _ _ _ _ _ _ Hm) as (flags & Htp & Hfp & Hlen & Hsum).
  simpl. rewrite Htp, Hfp. unfold cumsum.
  pose proof (cumsum_from_bounds _ 0%Z (tp_of_nonneg flags)) as HbT.
  pose proof (cumsum_from_bounds _ 0%Z (fp_of_nonneg flags)) as HbF.
  split; [|split; [|split; [|split]]].
  - unfold recalls_of. rewrite length_fmap, cumsum_from_length.
    unfold tp_of. by rewrite length_fmap.
  - unfold precisions_of. rewrite length_zip_with, !cumsum_from_length.
    unfold tp_of, fp_of. rewrite !length_fmap. lia.
  - apply recalls_of_in_unit. eapply Forall_impl; [exact HbT|].
    simpl. intros t. rewrite Htp in Hsum. lia.
  - apply precisions_of_in_unit.
    + eapply Forall_impl; [exact HbT|]. simpl. intros t. lia.
    + eapply Forall_impl; [exact HbF|]. simpl. intros t. lia.
  - apply recalls_of_sorted, cumsum_from_sorted, tp_of_nonneg.
Qed.

(** X8: the precision-recall curve of a class.  When the matching
    completes, [recalls] and [precisions] have one point per detection of
    the class, every recall and every precision lies between 0 and 1, and
    the recalls never decrease along the curve. *)
Theorem pr_curve_well_formed det_boxes gt_boxes thr label cls_dets num_gts st :
  match_class det_boxes gt_boxes thr label = Ok (cls_dets, num_gts, st) ->
  let tp_cum := cumsum (tp st) in
  let fp_cum := cumsum (fp st) in
  let recalls := recalls_of tp_cum num_gts in
  let precisions := precisions_of tp_cum fp_cum in
  length recalls = length cls_dets /\
  length precisions = length cls_dets /\
  Forall in_unit recalls /\ Forall in_unit precisions /\
  StronglySorted Qle recalls.
Proof. apply pr_curve_facts. Qed.

Lemma pr_curve_well_formed_witness :
  let d1 := {| det_box := (0, 0, 10, 10); det_score := 9 # 10 |} in
  let d2 := {| det_box := (0, 0, 10, 9); det_score := 8 # 10 |} in
  let det_boxes : list (gmap string (list Det)) := [ {[ "a" := [d2; d1] ]} ] in
  let gt_boxes : list (gmap string (list Box)) :=
    [ {[ "a" := [ (0, 0, 10, 10) ] ]} ] in
  exists cls_dets num_gts st,
    match_class det_boxes gt_boxes (1 # 2) "a" = Ok (cls_dets, num_gts, st) /\
    Forall in_unit (recalls_of (cumsum (tp st)) num_gts) /\
    Forall in_unit (precisions_of (cumsum (tp st)) (cumsum (fp st))).
Proof.
  intros d1 d2 det_boxes gt_boxes.
  destruct (match_class det_boxes gt_boxes (1 # 2) "a")
    as [[[cls_dets num_gts] st]|e] eqn:E; [|vm_compute in E; discriminate E].
  exists cls_dets, num_gts, st. split; [reflexivity|].
  destruct (pr_curve_well_formed _ _ _ _ _ _ _ E) as (_ & _ & Hr & Hp & _).
  done.
Defined.

(** * The AP integrators *)

Lemma np_maximum_cases a b : np_maximum a b = a \/ np_maximum a b = b.
Proof. unfold np_maximum. destruct (Qltb a b); auto. Qed.

Lemma np_maximum_ge a b : a <= np_maximum a b /\ b <= np_maximum a b.
Proof. apply py_max_ub. Qed.

Lemma envelope_length l : length (envelope l) = length l.
Proof.
  induction l as [|p l IH]; [done|]. simpl.
  destruct (envelope l) as [|q rest]; simpl in *; congruence.
Qed.

Lemma envelope_Forall (P : Q -> Prop) l :
  Forall P l -> Forall P (envelope l).
Proof.
  induction 1 as [|p l Hp _ IH]; [constructor|]. simpl.
  destruct (envelope l) as [|q rest]; [by constructor|].
  constructor; [|done].
  destruct (np_maximum_cases p q) as [-> | ->]; [done|].
  by apply Forall_cons in IH as [? _].
Qed.

Lemma envelope_dominates l : Forall2 Qle l (envelope l).
Proof.
  induction l as [|p l IH]; [constructor|]. simpl.
  destruct (envelope l) as [|q rest] eqn:E.
  - apply Forall2_length in IH. destruct l; [|discriminate IH].
    constructor; [lra|constructor].
  - constructor; [apply np_maximum_ge|done].
Qed.

Lemma envelope_non_increasing l : non_increasing (envelope l).
Proof.
  unfold non_increasing. induction l as [|p l IH]; [constructor|]. simpl.
  destruct (envelope l) as [|q rest] eqn:E; [repeat constructor|].
  constructor; [done|].
  destruct (np_maximum_ge p q) as [_ Hq].
  apply StronglySorted_inv in IH as [_ Hrest].
  constructor; [done|].
  eapply Forall_impl; [exact Hrest|]. simpl. intros x Hx. lra.
Qed.

Lemma envelope_least l : forall k,
  Forall2 Qle l k -> non_increasing k -> Forall2 Qle (envelope l) k.
Proof.
  unfold non_increasing.
  induction l as [|p l IH]; intros k Hk Hmono; [by inversion Hk|].
  inversion Hk as [|p' k0 l' k' Hp Hk']; subst. simpl.
  apply StronglySorted_inv in Hmono as [Hmono' Hk0].
  specialize (IH k' Hk' Hmono').
  destruct (envelope l) as [|q rest] eqn:E.
  - apply Forall2_length in IH. destruct k'; [|discriminate IH].
    by repeat constructor.
  - constructor; [|done].
    inversion IH as [|q' k1 rest' k'' Hq _]; subst.
    apply Forall_cons in Hk0 as [Hk1 _].
    destruct (np_maximum_cases p q) as [-> | ->]; lra.
Qed.

(** X9: the precision envelope of the ['area'] method.  The backward scan
    turns any sequence of precisions into the least sequence of the same
    length that never increases and is nowhere below the input: it dominates
    the input, it never increases, and every other such sequence dominates
    it. *)
Theorem envelope_is_least_non_increasing_bound (l : list Q) :
  length (envelope l) = length l /\
  Forall2 Qle l (envelope l) /\
  non_increasing (envelope l) /\
  forall k, Forall2 Qle l k -> non_increasing k -> Forall2 Qle (envelope l) k.
Proof.
  split; [apply envelope_length|]. split; [apply envelope_dominates|].
  split; [apply envelope_non_increasing|]. apply envelope_least.
Qed.

(** ** Sums *)

Lemma np_sum_cons x l : np_sum (x :: l) == x + np_sum l.
Proof. unfold np_sum. simpl. rewrite foldl_Qplus_shift. ring. Qed.

Lemma np_sum_bounds {A} (f g : A -> Q) (P : A -> Prop)
    `{!forall x, Decision (P x)} (l : list A) :
  (forall x, x ∈ l -> 0 <= f x /\ f x <= g x) ->
  0 <= np_sum (f <$> filter P l) /\
  np_sum (f <$> filter P l) <= np_sum (g <$> l).
Proof.
  induction l as [|x l IH]; intros Hfg.
  - unfold np_sum. simpl. lra.
  - destruct IH as [IH1 IH2]; [intros y Hy; apply Hfg; by right|].
    destruct (Hfg x) as [Hf Hg]; [by left|].
    rewrite filter_cons, (fmap_cons g), (np_sum_cons (g x)).
    destruct (decide (P x)).
    + rewrite fmap_cons, np_sum_cons. lra.
    + lra.
Qed.

Lemma np_sum_telescope (R : list Q) m : forall a,
  np_sum ((fun i => nth (S i) R 0 - nth i R 0) <$> seq a m)
  == nth (a + m) R 0 - nth a R 0.
Proof.
  induction m as [|m IH]; intros a.
  - rewrite Nat.add_0_r. unfold np_sum. simpl. ring.
  - simpl seq. rewrite fmap_cons, np_sum_cons, (IH (S a)).
    replace (a + S m)%nat with (S a + m)%nat by lia. ring.
Qed.

Lemma sorted_nth_step (R : list Q) :
  StronglySorted Qle R ->
  forall i, (S i < length R)%nat -> nth i R 0 <= nth (S i) R 0.
Proof.
  induction 1 as [|x R _ IH Hx]; intros i Hi; [simpl in Hi; lia|].
  destruct i as [|i].
  - destruct R as [|y R]; [simpl in Hi; lia|]. simpl.
    by apply Forall_cons in Hx as [? _].
  - simpl in Hi. apply (IH i). lia.
Qed.

Lemma Forall_nth_in_unit (P : list Q) i :
  Forall in_unit P -> in_unit (nth i P 0).
Proof.
  intros HP. destruct (nth_in_or_default i P 0) as [Hin | ->].
  - rewrite Forall_forall in HP. apply HP. by apply list_elem_of_In.
  - split; lra.
Qed.

Lemma envelope_is_least_non_increasing_bound_witness :
  Forall2 Qle (envelope [0; 1; 1 # 2; 0]) [1; 1; 1; 1 # 2].
Proof.
  apply (envelope_is_least_non_increasing_bound [0; 1; 1 # 2; 0]).
  - repeat constructor; discriminate.
  - unfold non_increasing. repeat constructor; discriminate.
Defined.

(** ** The range of an AP *)

Lemma ap_area_in_unit recalls precisions :
  Forall in_unit recalls -> StronglySorted Qle recalls ->
  Forall in_unit precisions -> in_unit (ap_area recalls precisions).
Proof.
  intros Hr Hsorted Hp. unfold ap_area, recall_changes.
  set (R := [0] ++ recalls ++ [1]).
  set (P := envelope ([0] ++ precisions ++ [0])).
  assert (HR : Forall in_unit R).
  { unfold R. apply Forall_app. split; [repeat constructor; lra|].
    apply Forall_app. split; [done|]. repeat constructor; lra. }
  assert (HRs : StronglySorted Qle R).
  { unfold R. simpl. constructor.
    - apply StronglySorted_app_2; [|done|repeat constructor].
      intros x1 x2 Hx1 ->%list_elem_of_singleton.
      rewrite Forall_forall in Hr. by destruct (Hr x1 Hx1).
    - apply Forall_app. split; [|repeat constructor; lra].
      eapply Forall_impl; [exact Hr|]. by intros x [? _]. }
  assert (HP : Forall in_unit P).
  { unfold P. apply envelope_Forall, Forall_app.
    split; [repeat constructor; lra|].
    apply Forall_app. split; [done|]. repeat constructor; lra. }
  set (m := pred (length R)).
  destruct (np_sum_bounds
              (fun i => (nth (S i) R 0 - nth i R 0) * nth (S i) P 0)
              (fun i => nth (S i) R 0 - nth i R 0)
              (fun i => Qeq_bool (nth (S i) R 0) (nth i R 0) = false)
              (seq 0 m)) as [Hlo Hhi].
  { intros i Hi. apply elem_of_seq in Hi as [_ Hi].
    assert (Hstep : nth i R 0 <= nth (S i) R 0)
      by (apply sorted_nth_step; [done|unfold m in Hi; lia]).
    destruct (Forall_nth_in_unit P (S i) HP) as [? ?]. split; nra. }
  split; [exact Hlo|].
  rewrite np_sum_telescope in Hhi.
  destruct (Forall_nth_in_unit R (0 + m) HR) as [_ ?].
  destruct (Forall_nth_in_unit R 0 HR) as [? _]. lra.
Qed.

Lemma foldl_np_maximum_in_unit a : forall x,
  in_unit x -> Forall in_unit a -> in_unit (foldl np_maximum x a).
Proof.
  induction a as [|y a IH]; intros x Hx Ha; [done|]. simpl.
  apply Forall_cons in Ha as [Hy Ha]. apply IH; [|done].
  by destruct (np_maximum_cases x y) as [-> | ->].
Qed.

Lemma max_or_zero_in_unit a : Forall in_unit a -> in_unit (max_or_zero a).
Proof.
  destruct a as [|x a]; intros Ha; [split; simpl; lra|].
  apply Forall_cons in Ha as [Hx Ha]. by apply foldl_np_maximum_in_unit.
Qed.

Lemma mask_ge_in_unit recalls precisions pt :
  Forall in_unit precisions -> Forall in_unit (mask_ge recalls precisions pt).
Proof.
  intros Hp. unfold mask_ge. apply Forall_fmap, Forall_forall.
  intros [r p] [_ Hin]%list_elem_of_filter. simpl.
  rewrite Forall_forall in Hp. apply Hp. by eapply elem_of_zip_r.
Qed.

Lemma foldl_add_bounds (g : Q -> Q) pts : forall a,
  (forall pt, in_unit (g pt)) ->
  a <= foldl (fun ap pt => ap + g pt) a pts /\
  foldl (fun ap pt => ap + g pt) a pts <= a + inject_Z (Z.of_nat (length pts)).
Proof.
  induction pts as [|pt pts IH]; intros a Hg.
  - simpl. split; [lra|]. change (inject_Z (Z.of_nat 0)) with 0. lra.
  - cbn [foldl]. destruct (IH (a + g pt) Hg) as [IH1 IH2].
    destruct (Hg pt) as [? ?].
    assert (inject_Z (Z.of_nat (length (pt :: pts)))
            == inject_Z (Z.of_nat (length pts)) + 1).
    { cbn [length]. rewrite Nat2Z.inj_succ, <- Z.add_1_r, inject_Z_plus.
      reflexivity. }
    split; lra.
Qed.

Lemma ap_interp_in_unit recalls precisions :
  Forall in_unit precisions -> in_unit (ap_interp recalls precisions).
Proof.
  intros Hp. unfold ap_interp.
  destruct (foldl_add_bounds
              (fun pt => max_or_zero (mask_ge recalls precisions pt))
              interp_pts 0) as [Hlo Hhi].
  { intros pt. by apply max_or_zero_in_unit, mask_ge_in_unit. }
  change (inject_Z (Z.of_nat (length interp_pts))) with 11 in Hhi.
  split.
  - apply Qle_shift_div_l; [reflexivity|]. lra.
  - apply Qle_shift_div_r; [reflexivity|]. lra.
Qed.

Lemma class_ap_in_unit det_boxes gt_boxes thr method label ap num_gts :
  class_ap det_boxes gt_boxes thr method label = Ok (ap, num_gts) ->
  in_unit ap.
Proof.
  unfold class_ap.
  destruct (match_class det_boxes gt_boxes thr label)
    as [[[cls_dets n] st]|e] eqn:Hm; simpl; [|done].
  destruct (pr_curve_facts _ _ _ _ _ _ _ Hm) as (_ & _ & Hr & Hp & Hs).
  unfold integrate_ap.
  destruct (decide (method = "area")).
  { simpl. intros [= <- _]. by apply ap_area_in_unit. }
  destruct (decide (method = "interp")); simpl; [|done].
  intros [= <- _]. by apply ap_interp_in_unit.
Qed.

Lemma mean_of_in_unit aps :
  Forall in_unit aps -> aps <> [] -> in_unit (mean_of aps).
Proof.
  intros Haps Hne. unfold mean_of.
  assert (Hsum : 0 <= py_sum aps /\
                 py_sum aps <= inject_Z (Z.of_nat (length aps))).
  { clear Hne. change py_sum with np_sum.
    induction Haps as [|x l [Hx1 Hx2] _ [IH1 IH2]].
    - unfold np_sum. simpl. change (inject_Z (Z.of_nat 0)) with 0. lra.
    - rewrite np_sum_cons. cbn [length].
      rewrite Nat2Z.inj_succ, <- Z.add_1_r, inject_Z_plus.
      change (inject_Z 1) with 1. lra. }
  assert (Hlen : 0 < inject_Z (Z.of_nat (length aps))).
  { destruct aps; [done|]. unfold Qlt. simpl. lia. }
  destruct Hsum. split.
  - apply Qle_shift_div_l; lra.
  - apply Qle_shift_div_r; lra.
Qed.

(** X10: every AP is a number between 0 and 1.  Whatever the detections,
    the ground truth, the threshold and the method are, when [compute_map]
    returns, [mean_ap] lies in [[0, 1]] and so does every numeric entry of
    the per-class mapping. *)
Theorem aps_lie_in_unit_interval
    det_boxes gt_boxes thr method mean_ap all_aps :
  compute_map det_boxes gt_boxes thr method = Ok (mean_ap, all_aps) ->
  in_unit mean_ap /\
  forall label ap, all_aps !! label = Some (APNum ap) -> in_unit ap.
Proof.
  intros Hcm.
  destruct (compute_map_Ok_inv _ _ _ _ _ _ Hcm) as (Hall & Hne & -> & Hlk).
  rewrite Forall_forall in Hall. split.
  - apply mean_of_in_unit; [|done]. apply Forall_fmap, Forall_forall.
    intros l [_ Hl]%list_elem_of_filter. simpl.
    destruct (Hall l Hl) as (Hap & _). by eapply class_ap_in_unit.
  - intros label ap Hlab. rewrite Hlk in Hlab.
    destruct (decide (label ∈ gt_labels gt_boxes)) as [Hl|]; [|done].
    destruct (0 <? total_gts gt_boxes label)%Z; [|done].
    injection Hlab as <-.
    destruct (Hall label Hl) as (Hap & _). by eapply class_ap_in_unit.
Qed.

Lemma aps_lie_in_unit_interval_witness :
  let d1 := {| det_box := (0, 0, 10, 10); det_score := 9 # 10 |} in
  let d2 := {| det_box := (0, 0, 10, 9); det_score := 8 # 10 |} in
  let det_boxes : list (gmap string (list Det)) := [ {[ "a" := [d2; d1] ]} ] in
  let gt_boxes : list (gmap string (list Box)) :=
    [ {[ "a" := [ (0, 0, 10, 10) ] ]} ] in
  exists mean_ap all_aps,
    compute_map det_boxes gt_boxes (1 # 2) "interp" = Ok (mean_ap, all_aps) /\
    in_unit mean_ap.
Proof.
  intros d1 d2 det_boxes gt_boxes.
  destruct (compute_map det_boxes gt_boxes (1 # 2) "interp")
    as [[mean_ap all_aps]|e] eqn:E; [|vm_compute in E; discriminate E].
  exists mean_ap, all_aps. split; [reflexivity|].
  by destruct (aps_lie_in_unit_interval _ _ _ _ _ _ E).
Defined.

(** * Further properties of the aggregator *)

(** X11: the keys of the returned mapping.  When [compute_map] returns, the
    per-class mapping has an entry exactly for the labels that are a key of
    some image's ground-truth dictionary, and the entry is [np.nan] exactly
    for those of them that have no ground-truth box in any image. *)
Theorem all_aps_keys_are_the_universe
    det_boxes gt_boxes thr method mean_ap all_aps :
  compute_map det_boxes gt_boxes thr method = Ok (mean_ap, all_aps) ->
  forall label,
    (is_Some (all_aps !! label) <->
     exists gd, gd ∈ gt_boxes /\ is_Some (gd !! label)) /\
    (all_aps !! label = Some APNaN <->
     (exists gd, gd ∈ gt_boxes /\ is_Some (gd !! label)) /\
     total_gts gt_boxes label = 0%Z).
Proof.
  intros Hcm label.
  destruct (compute_map_Ok_inv _ _ _ _ _ _ Hcm) as (_ & _ & _ & Hlk).
  rewrite <- elem_of_gt_labels, Hlk.
  pose proof (total_gts_nonneg gt_boxes label) as Hnn.
  destruct (decide (label ∈ gt_labels gt_boxes)) as [Hin|Hin].
  - split; [split; [done|by eexists]|].
    destruct (Z.ltb_spec 0 (total_gts gt_boxes label)) as [Hpos|Hzero].
    + split; [done|]. intros [_ ?]. lia.
    + split; [|done]. intros _. split; [done|lia].
  - split; [split; [by intros [? ?]|done]|].
    split; [done|]. by intros [? _].
Qed.

Lemma all_aps_keys_are_the_universe_witness :
  let d := {| det_box := (0, 0, 1, 1); det_score := 9 # 10 |} in
  let det_boxes : list (gmap string (list Det)) :=
    [ {[ "a" := [d]; "c" := [d] ]} ] in
  let gt_boxes : list (gmap string (list Box)) :=
    [ {[ "a" := [ (0, 0, 1, 1) ]; "b" := [] ]} ] in
  exists mean_ap all_aps,
    compute_map det_boxes gt_boxes (1 # 2) "area" = Ok (mean_ap, all_aps) /\
    ~ is_Some (all_aps !! "c").
Proof.
  intros d det_boxes gt_boxes.
  destruct (compute_map det_boxes gt_boxes (1 # 2) "area")
    as [[mean_ap all_aps]|e] eqn:E; [|vm_compute in E; discriminate E].
  exists mean_ap, all_aps. split; [reflexivity|].
  intros Hsome.
  apply (all_aps_keys_are_the_universe _ _ _ _ _ _ E "c") in Hsome.
  destruct Hsome as (gd & Hgd & Hc).
  apply list_elem_of_singleton in Hgd as ->.
  vm_compute in Hc. by destruct Hc.
Defined.

(** ** Detections of labels outside the universe *)

Lemma collect_dets_fmap (f : gmap string (list Det) -> gmap string (list Det))
    label (l : list (gmap string (list Det))) :
  (forall dd, f dd !! label = dd !! label) ->
  forall k, enumerate_from k (f <$> l) ≫= image_dets label
            = enumerate_from k l ≫= image_dets label.
Proof.
  intros Hf. induction l as [|dd l IH]; intros k; [done|].
  rewrite fmap_cons, !enumerate_from_cons. cbn [mbind list_bind].
  rewrite (IH (S k)). f_equal. simpl. by rewrite Hf.
Qed.

Lemma class_body_same_dets det_boxes det_boxes' gt_boxes thr method acc label :
  collect_dets det_boxes label = collect_dets det_boxes' label ->
  class_body det_boxes gt_boxes thr method acc label
  = class_body det_boxes' gt_boxes thr method acc label.
Proof.
  intros Hsame. unfold class_body, class_ap, match_class. by rewrite Hsame.
Qed.

(** X12: detections whose label is not a key of any ground-truth dictionary
    play no role.  Removing such a label from every image's detections
    changes nothing in what [compute_map] returns or raises: these
    detections are neither counted as false positives nor reported. *)
Theorem detections_outside_universe_are_ignored
    det_boxes gt_boxes thr method z :
  z ∉ gt_labels gt_boxes ->
  compute_map (delete z <$> det_boxes) gt_boxes thr method
  = compute_map det_boxes gt_boxes thr method.
Proof.
  intros Hz. rewrite !compute_map_unfold.
  erewrite for_each_ext; [done|].
  intros acc label Hl. apply class_body_same_dets.
  unfold collect_dets, enumerate. apply collect_dets_fmap.
  intros dd. apply lookup_delete_ne. by intros ->.
Qed.

Lemma detections_outside_universe_are_ignored_witness :
  let d := {| det_box := (0, 0, 1, 1); det_score := 9 # 10 |} in
  let det_boxes : list (gmap string (list Det)) :=
    [ {[ "a" := [d]; "c" := [d; d] ]} ] in
  let gt_boxes : list (gmap string (list Box)) :=
    [ {[ "a" := [ (0, 0, 1, 1) ] ]} ] in
  compute_map (delete "c" <$> det_boxes) gt_boxes (1 # 2) "area"
  = compute_map det_boxes gt_boxes (1 # 2) "area".
Proof.
  intros d det_boxes gt_boxes.
  apply (detections_outside_universe_are_ignored det_boxes gt_boxes).
  change (gt_labels gt_boxes) with ["a"].
  intros H. apply list_elem_of_singleton in H. discriminate H.
Defined.

(** * The dictionaries built by [evaluate_map] *)

Lemma foldr_insert_nil_lookup {V} (names : list string) name :
  (foldr (fun n d => <[n := []]> d) (∅ : gmap string (list V)) names) !! name
  = if decide (name ∈ names) then Some [] else None.
Proof.
  induction names as [|n names IH]; cbn [foldr].
  - rewrite lookup_empty, decide_False; [done|]. by intros ?%elem_of_nil.
  - destruct (decide (n = name)) as [->|Hne].
    + rewrite lookup_insert_eq.
      rewrite (decide_True (P := name ∈ name :: names)); [done|by left].
    + rewrite lookup_insert_ne, IH by done.
      destruct (decide (name ∈ names)) as [Hin|Hin].
      * rewrite (decide_True (P := name ∈ n :: names)); [done|by right].
      * rewrite (decide_False (P := name ∈ n :: names)); [done|].
        intros [?|?]%elem_of_cons; congruence.
Qed.

Lemma elem_of_class_names (i2l : gmap Z string) name :
  name ∈ snd <$> map_to_list i2l <-> is_class_name i2l name.
Proof.
  unfold is_class_name. rewrite list_elem_of_fmap. split.
  - intros ([label n] & -> & Hin). apply elem_of_map_to_list in Hin. eauto.
  - intros (label & Hl). exists (label, name). split; [done|].
    by apply elem_of_map_to_list.
Qed.

Lemma empty_lists_lookup {V} (i2l : gmap Z string) name :
  ((empty_lists i2l : gmap string (list V)) !! name = Some []
   /\ is_class_name i2l name) \/
  ((empty_lists i2l : gmap string (list V)) !! name = None
   /\ ~ is_class_name i2l name).
Proof.
  unfold empty_lists. rewrite foldr_insert_nil_lookup.
  destruct (decide (name ∈ snd <$> map_to_list i2l)) as [Hin|Hin];
    rewrite elem_of_class_names in Hin; auto.
Qed.

Lemma named_nil {V} i2l name (labels : list Z) :
  named i2l name (zip labels (@nil V)) = [].
Proof. by destruct labels. Qed.

Lemma named_cons {V} (i2l : gmap Z string) name label (x : V) rest :
  named i2l name ((label, x) :: rest) =
    if decide (i2l !! label = Some name) then x :: named i2l name rest
    else named i2l name rest.
Proof.
  unfold named. rewrite filter_cons. simpl.
  by destruct (decide (i2l !! label = Some name)).
Qed.

Lemma add_gts_spec i2l labels boxes : forall idx gt gt',
  add_gts i2l labels idx boxes gt = Done gt' ->
  forall name,
    gt' !! name =
      (fun l => l ++ named i2l name (zip (drop idx labels) boxes))
        <$> gt !! name.
Proof.
  induction boxes as [|box boxes IH]; intros idx gt gt' Hrun name.
  - injection Hrun as <-. rewrite named_nil.
    destruct (gt !! name); simpl; [by rewrite app_nil_r|done].
  - cbn [add_gts] in Hrun. unfold list_get in Hrun.
    destruct (labels !! idx) as [label|] eqn:Hlabel; [|discriminate Hrun].
    simpl in Hrun. unfold label_name_of in Hrun.
    destruct (i2l !! label) as [nm|] eqn:Hnm; [|discriminate Hrun].
    simpl in Hrun. unfold dict_append in Hrun.
    destruct (gt !! nm) as [l0|] eqn:Hl0; [|discriminate Hrun].
    simpl in Hrun. rewrite (IH _ _ _ Hrun name).
    rewrite (drop_S _ _ _ Hlabel). cbn [zip zip_with]. rewrite named_cons.
    destruct (decide (nm = name)) as [->|Hne].
    + rewrite lookup_insert_eq, Hl0, decide_True by done. simpl.
      by rewrite <- app_assoc.
    + rewrite lookup_insert_ne by done.
      rewrite decide_False; [done|]. congruence.
Qed.

Lemma add_preds_spec i2l labels scores boxes : forall idx pred pred',
  add_preds i2l labels scores idx boxes pred = Done pred' ->
  forall name,
    pred' !! name =
      (fun l => l ++ named i2l name
                  (zip (drop idx labels)
                       (zip_with Build_Det boxes (drop idx scores))))
        <$> pred !! name.
Proof.
  induction boxes as [|box boxes IH]; intros idx pred pred' Hrun name.
  - injection Hrun as <-. cbn [zip_with]. rewrite named_nil.
    destruct (pred !! name); simpl; [by rewrite app_nil_r|done].
  - cbn [add_preds] in Hrun. unfold list_get in Hrun.
    destruct (labels !! idx) as [label|] eqn:Hlabel; [|discriminate Hrun].
    simpl in Hrun.
    destruct (scores !! idx) as [score|] eqn:Hscore; [|discriminate Hrun].
    simpl in Hrun. unfold label_name_of in Hrun.
    destruct (i2l !! label) as [nm|] eqn:Hnm; [|discriminate Hrun].
    simpl in Hrun. unfold dict_append in Hrun.
    destruct (pred !! nm) as [l0|] eqn:Hl0; [|discriminate Hrun].
    simpl in Hrun. rewrite (IH _ _ _ Hrun name).
    rewrite (drop_S _ _ _ Hlabel), (drop_S _ _ _ Hscore).
    cbn [zip zip_with]. rewrite named_cons.
    destruct (decide (nm = name)) as [->|Hne].
    + rewrite lookup_insert_eq, Hl0, decide_True by done. simpl.
      by rewrite <- app_assoc.
    + rewrite lookup_insert_ne by done.
      rewrite decide_False; [done|]. congruence.
Qed.

Lemma image_dicts_lookup i2l s pred gt name :
  image_dicts i2l s = Done (pred, gt) ->
  (is_class_name i2l name /\
   pred !! name = Some (named i2l name
                          (zip (out_labels s)
                               (zip_with Build_Det (out_boxes s) (out_scores s))))
   /\ gt !! name = Some (named i2l name
                           (zip (target_labels s) (target_boxes s)))) \/
  (~ is_class_name i2l name /\ pred !! name = None /\ gt !! name = None).
Proof.
  unfold image_dicts. intros Hrun.
  destruct (add_preds i2l (out_labels s) (out_scores s) 0 (out_boxes s)
              (empty_lists i2l)) as [pred'|] eqn:Hp; [|discriminate Hrun].
  simpl in Hrun.
  destruct (add_gts i2l (target_labels s) 0 (target_boxes s) (empty_lists i2l))
    as [gt'|] eqn:Hg; [|discriminate Hrun].
  injection Hrun as <- <-.
  rewrite (add_preds_spec _ _ _ _ _ _ _ Hp name),
          (add_gts_spec _ _ _ _ _ _ Hg name).
  destruct (@empty_lists_lookup Det i2l name) as [[Hp0 Hc]|[Hp0 Hc]],
           (@empty_lists_lookup Box i2l name) as [[Hg0 Hc']|[Hg0 Hc']];
    try done; rewrite Hp0, Hg0; simpl; [left|right]; done.
Qed.

(** X13: the dictionaries that [evaluate_map] builds for one image.  When
    the two loops complete, both dictionaries have exactly the class names
    of [idx2label] as keys, and the list under a class name holds exactly
    the predicted detections, respectively the target boxes, whose label
    maps to that name, in the order of the model output: nothing is dropped,
    duplicated or put under another class. *)
Theorem image_dicts_group_by_class_name i2l s pred gt :
  image_dicts i2l s = Done (pred, gt) ->
  forall name,
    (is_Some (pred !! name) <-> is_class_name i2l name) /\
    (is_Some (gt !! name) <-> is_class_name i2l name) /\
    (is_class_name i2l name ->
     pred !! name = Some (named i2l name
                            (zip (out_labels s)
                                 (zip_with Build_Det (out_boxes s)
                                           (out_scores s)))) /\
     gt !! name = Some (named i2l name
                          (zip (target_labels s) (target_boxes s)))).
Proof.
  intros Hrun name.
  destruct (image_dicts_lookup i2l s pred gt name Hrun)
    as [(Hc & Hp & Hg)|(Hc & Hp & Hg)]; rewrite Hp, Hg.
  - split; [split; [done|by eexists]|].
    split; [split; [done|by eexists]|]. done.
  - split; [split; [by intros [? ?]|done]|].
    split; [split; [by intros [? ?]|done]|]. done.
Qed.

Lemma image_dicts_group_by_class_name_witness :
  let s := {| out_boxes := [ (0, 0, 2, 2); (1, 1, 3, 3); (0, 0, 1, 1) ];
              out_labels := [3%Z; 2%Z; 3%Z];
              out_scores := [9 # 10; 8 # 10; 7 # 10];
              target_boxes := [ (0, 0, 2, 2) ];
              target_labels := [3%Z] |} in
  exists pred gt,
    image_dicts idx2label s = Done (pred, gt) /\
    pred !! "Laptop" =
      Some [ {| det_box := (0, 0, 2, 2); det_score := 9 # 10 |};
             {| det_box := (0, 0, 1, 1); det_score := 7 # 10 |} ] /\
    gt !! "Laptop" = Some [ (0, 0, 2, 2) ].
Proof.
  intros s.
  destruct (image_dicts idx2label s) as [[pred gt]|e] eqn:E;
    [|vm_compute in E; discriminate E].
  exists pred, gt. split; [reflexivity|].
  destruct (image_dicts_group_by_class_name idx2label s pred gt E "Laptop")
    as (_ & _ & Hgroup).
  destruct Hgroup as [Hp Hg]; [by exists 3%Z|].
  split; [exact Hp|exact Hg].
Defined.

(** ** How building the dictionaries can fail *)

Lemma keys_kept_by_append {V} (i2l : gmap Z string)
    (d : gmap string (list V)) nm l :
  (forall name, is_class_name i2l name -> is_Some (d !! name)) ->
  forall name, is_class_name i2l name -> is_Some (<[nm := l]> d !! name).
Proof.
  intros Hd name Hname. destruct (decide (nm = name)) as [->|Hne].
  - rewrite lookup_insert_eq. by eexists.
  - rewrite lookup_insert_ne by done. by apply Hd.
Qed.

Lemma add_gts_outcome i2l labels boxes : forall idx gt,
  (forall name, is_class_name i2l name -> is_Some (gt !! name)) ->
  match add_gts i2l labels idx boxes gt with
  | Done _ => True
  | Failed e =>
      (e = Raised IndexError /\ (length labels < idx + length boxes)%nat) \/
      (exists label, e = LabelKeyError label /\ i2l !! label = None
                     /\ label ∈ labels)
  end.
Proof.
  induction boxes as [|box boxes IH]; intros idx gt Hkeys; [done|].
  cbn [add_gts]. unfold list_get.
  destruct (labels !! idx) as [label|] eqn:Hlabel; simpl.
  2:{ left. split; [done|]. apply lookup_ge_None in Hlabel. lia. }
  unfold label_name_of.
  destruct (i2l !! label) as [nm|] eqn:Hnm; simpl.
  2:{ right. exists label. split; [done|]. split; [done|].
      by eapply list_elem_of_lookup_2. }
  unfold dict_append.
  destruct (Hkeys nm) as [l0 Hl0]; [by exists label|]. rewrite Hl0. simpl.
  specialize (IH (S idx) (<[nm := l0 ++ [box]]> gt)
                (keys_kept_by_append i2l gt nm _ Hkeys)).
  destruct (add_gts i2l labels (S idx) boxes _) as [|e]; [done|].
  destruct IH as [[-> Hlen]|Hlab]; [left|by right].
  split; [done|]. simpl. lia.
Qed.

Lemma add_preds_outcome i2l labels scores boxes : forall idx pred,
  (forall name, is_class_name i2l name -> is_Some (pred !! name)) ->
  match add_preds i2l labels scores idx boxes pred with
  | Done _ => True
  | Failed e =>
      (e = Raised IndexError /\
       ((length labels < idx + length boxes)%nat \/
        (length scores < idx + length boxes)%nat)) \/
      (exists label, e = LabelKeyError label /\ i2l !! label = None
                     /\ label ∈ labels)
  end.
Proof.
  induction boxes as [|box boxes IH]; intros idx pred Hkeys; [done|].
  cbn [add_preds]. unfold list_get.
  destruct (labels !! idx) as [label|] eqn:Hlabel; simpl.
  2:{ left. split; [done|]. left. apply lookup_ge_None in Hlabel. lia. }
  destruct (scores !! idx) as [score|] eqn:Hscore; simpl.
  2:{ left. split; [done|]. right. apply lookup_ge_None in Hscore. lia. }
  unfold label_name_of.
  destruct (i2l !! label) as [nm|] eqn:Hnm; simpl.
  2:{ right. exists label. split; [done|]. split; [done|].
      by eapply list_elem_of_lookup_2. }
  unfold dict_append.
  destruct (Hkeys nm) as [l0 Hl0]; [by exists label|]. rewrite Hl0. simpl.
  specialize (IH (S idx)
                (<[nm := l0 ++ [ {| det_box := box; det_score := score |} ]]>
                   pred)
                (keys_kept_by_append i2l pred nm _ Hkeys)).
  destruct (add_preds i2l labels scores (S idx) boxes _) as [|e]; [done|].
  destruct IH as [[-> Hlen]|Hlab]; [left|by right].
  split; [done|]. simpl. lia.
Qed.

Lemma empty_lists_keys {V} (i2l : gmap Z string) name :
  is_class_name i2l name ->
  is_Some ((empty_lists i2l : gmap string (list V)) !! name).
Proof.
  intros Hname.
  destruct (@empty_lists_lookup V i2l name) as [[-> _]|[_ ?]]; [by eexists|done].
Qed.

Lemma image_dicts_outcome i2l s :
  match image_dicts i2l s with
  | Done _ => True
  | Failed e =>
      (e = Raised IndexError /\
       ((length (out_labels s) < length (out_boxes s))%nat \/
        (length (out_scores s) < length (out_boxes s))%nat \/
        (length (target_labels s) < length (target_boxes s))%nat)) \/
      (exists label, e = LabelKeyError label /\ i2l !! label = None /\
                     (label ∈ out_labels s \/ label ∈ target_labels s))
  end.
Proof.
  unfold image_dicts.
  pose proof (add_preds_outcome i2l (out_labels s) (out_scores s) (out_boxes s)
                0 (empty_lists i2l) (empty_lists_keys i2l)) as Hp.
  destruct (add_preds i2l _ _ 0 _ _) as [pred|e]; simpl.
  2:{ destruct Hp as [[-> [?|?]]|(label & -> & ? & ?)]; [left; auto..|right].
      exists label. auto. }
  pose proof (add_gts_outcome i2l (target_labels s) (target_boxes s)
                0 (empty_lists i2l) (empty_lists_keys i2l)) as Hg.
  destruct (add_gts i2l _ 0 _ _) as [gt|e]; simpl; [done|].
  destruct Hg as [[-> ?]|(label & -> & ? & ?)]; [left; auto|right].
  exists label. auto.
Qed.

(** X14: how building the dictionaries of an image can fail.  The loops
    complete whenever the label and score tensors are at least as long as
    the box tensors and every label is a key of [idx2label].  Otherwise the
    exception is the [IndexError] of a tensor that is too short, or the
    [KeyError] of [voc.idx2label[label]] for a label that the table does not
    have; appending under the class name itself never fails. *)
Theorem image_dicts_failures i2l s :
  ((length (out_boxes s) <= length (out_labels s))%nat ->
   (length (out_boxes s) <= length (out_scores s))%nat ->
   (length (target_boxes s) <= length (target_labels s))%nat ->
   Forall (fun label => is_Some (i2l !! label))
          (out_labels s ++ target_labels s) ->
   exists dicts, image_dicts i2l s = Done dicts) /\
  (forall e, image_dicts i2l s = Failed e ->
     (e = Raised IndexError /\
      ((length (out_labels s) < length (out_boxes s))%nat \/
       (length (out_scores s) < length (out_boxes s))%nat \/
       (length (target_labels s) < length (target_boxes s))%nat)) \/
     (exists label, e = LabelKeyError label /\ i2l !! label = None /\
                    (label ∈ out_labels s \/ label ∈ target_labels s))).
Proof.
  pose proof (image_dicts_outcome i2l s) as Ho. split.
  - intros H1 H2 H3 Hlabels.
    destruct (image_dicts i2l s) as [dicts|e]; [eauto|]. exfalso.
    destruct Ho as [[_ [?|[?|?]]]|(label & _ & Hnone & Hin)]; try lia.
    rewrite Forall_forall in Hlabels.
    destruct (Hlabels label) as [? Hsome]; [|congruence].
    apply elem_of_app. tauto.
  - intros e He. by rewrite He in Ho.
Qed.

Lemma image_dicts_failures_witness :
  let s := {| out_boxes := [ (0, 0, 2, 2) ]; out_labels := [8%Z];
              out_scores := [9 # 10];
              target_boxes := []; target_labels := [] |} in
  image_dicts idx2label s = Failed (LabelKeyError 8) /\
  exists label, LabelKeyError 8 = LabelKeyError label /\
                idx2label !! label = None /\
                (label ∈ out_labels s \/ label ∈ target_labels s).
Proof.
  intros s. split; [reflexivity|].
  destruct (proj2 (image_dicts_failures idx2label s)
              (LabelKeyError 8) eq_refl) as [[Hbad _]|Hlab];
    [discriminate Hbad|exact Hlab].
Defined.

(** * Well-formed input *)

Lemma compute_map_well_formed det_boxes gt_boxes thr method :
  valid_method method -> -1 < thr ->
  (length det_boxes <= length gt_boxes)%nat ->
  (forall l, l ∈ gt_labels gt_boxes -> all_have_key gt_boxes l) ->
  ((exists l, (0 < total_gts gt_boxes l)%Z) ->
   exists mean_ap all_aps,
     compute_map det_boxes gt_boxes thr method = Ok (mean_ap, all_aps)) /\
  ((forall l, total_gts gt_boxes l = 0%Z) ->
   compute_map det_boxes gt_boxes thr method = Raise ZeroDivisionError).
Proof.
  intros Hv Hthr Hlen Hkeys.
  assert (Hcls : forall l, l ∈ gt_labels gt_boxes ->
            exists ap, class_ap det_boxes gt_boxes thr method l
                       = Ok (ap, total_gts gt_boxes l)).
  { intros l Hl. apply class_ap_total; auto. }
  assert (Hloop : for_each (class_body det_boxes gt_boxes thr method)
                    (gt_labels gt_boxes) ([], ∅)
                  = Ok (record_all det_boxes gt_boxes thr method ([], ∅)
                          (gt_labels gt_boxes))).
  { apply class_loop_Ok, Forall_forall. intros l Hl.
    destruct (Hcls l Hl) as [ap Hap]. eauto. }
  assert (Haps : fst (record_all det_boxes gt_boxes thr method ([], ∅)
                        (gt_labels gt_boxes))
                 = (fun l => fst (class_result det_boxes gt_boxes thr method l))
                     <$> positive_labels gt_boxes).
  { unfold record_all. rewrite record_all_aps. simpl.
    unfold positive_labels. f_equal. apply filter_ext_in. intros l Hl.
    unfold class_result. destruct (Hcls l Hl) as [ap ->]. done. }
  rewrite compute_map_unfold, Hloop.
  destruct (record_all det_boxes gt_boxes thr method ([], ∅)
              (gt_labels gt_boxes)) as [aps all_aps].
  simpl in Haps. subst aps. split.
  - intros [l Hpos].
    assert (Hin : l ∈ positive_labels gt_boxes).
    { unfold positive_labels. apply list_elem_of_filter.
      split; [done|by apply has_box_in_universe]. }
    destruct (positive_labels gt_boxes) as [|l0 rest];
      [by apply elem_of_nil in Hin|].
    rewrite fmap_cons. eauto.
  - intros Hzero.
    assert (Hnil : positive_labels gt_boxes = []).
    { unfold positive_labels. rewrite (filter_ext_in _ (fun _ => False)).
      - apply filter_none.
      - intros l _. rewrite Hzero. split; [lia|done]. }
    by rewrite Hnil.
Qed.

(** X15: on well-formed input [compute_map] can only fail for lack of ground
    truth.  With a method that is ['area'] or ['interp'], a threshold above
    [-1], detections for no more images than the ground truth has, and
    every label of the universe a key of every image's ground-truth
    dictionary, the call returns as soon as one ground-truth box exists, and
    otherwise raises [ZeroDivisionError]; no [KeyError], [IndexError] or
    [ValueError] is possible. *)
Theorem compute_map_completes_on_well_formed_input
    det_boxes gt_boxes thr method :
  valid_method method -> -1 < thr ->
  (length det_boxes <= length gt_boxes)%nat ->
  (forall l, l ∈ gt_labels gt_boxes -> all_have_key gt_boxes l) ->
  ((exists l, (0 < total_gts gt_boxes l)%Z) ->
   exists mean_ap all_aps,
     compute_map det_boxes gt_boxes thr method = Ok (mean_ap, all_aps)) /\
  ((forall l, total_gts gt_boxes l = 0%Z) ->
   compute_map det_boxes gt_boxes thr method = Raise ZeroDivisionError).
Proof. apply compute_map_well_formed. Qed.

Lemma compute_map_completes_on_well_formed_input_witness :
  let d := {| det_box := (0, 0, 1, 1); det_score := 9 # 10 |} in
  let det_boxes : list (gmap string (list Det)) := [ {[ "a" := [d] ]} ] in
  let gt_boxes : list (gmap string (list Box)) :=
    [ {[ "a" := [ (0, 0, 1, 1) ]; "b" := [] ]} ] in
  exists mean_ap all_aps,
    compute_map det_boxes gt_boxes (1 # 2) "interp" = Ok (mean_ap, all_aps).
Proof.
  intros d det_boxes gt_boxes.
  apply (compute_map_completes_on_well_formed_input
           det_boxes gt_boxes (1 # 2) "interp").
  - by right.
  - reflexivity.
  - simpl. lia.
  - intros l Hl. change (gt_labels gt_boxes) with ["a"; "b"] in Hl.
    apply elem_of_cons in Hl as [->|Hl];
      [|apply list_elem_of_singleton in Hl as ->];
      repeat constructor; by eexists.
  - exists "a". reflexivity.
Defined.

(** * [evaluate_map] from end to end *)

Lemma collect_images_spec i2l dataset : forall gts0 preds0 gts preds,
  collect_images i2l dataset gts0 preds0 = Done (gts, preds) ->
  exists built,
    Forall2 (fun s pg => image_dicts i2l s = Done pg) dataset built /\
    gts = gts0 ++ (snd <$> built) /\ preds = preds0 ++ (fst <$> built).
Proof.
  induction dataset as [|s dataset IH]; intros gts0 preds0 gts preds Hrun.
  - injection Hrun as <- <-. exists []. by rewrite !app_nil_r.
  - cbn [collect_images] in Hrun.
    destruct (image_dicts i2l s) as [[pred gt]|e] eqn:Hs; [|discriminate Hrun].
    simpl in Hrun.
    destruct (IH _ _ _ _ Hrun) as (built & Hbuilt & -> & ->).
    exists ((pred, gt) :: built). split; [by constructor|].
    by rewrite !fmap_cons, <- !app_assoc.
Qed.

Lemma total_gts_zero (gt_boxes : list (gmap string (list Box))) l :
  Forall (fun gd => gts_of gd l = []) gt_boxes -> total_gts gt_boxes l = 0%Z.
Proof.
  induction 1 as [|gd gts Hgd _ IH]; [done|].
  by rewrite total_gts_cons, Hgd, IH.
Qed.

Lemma add_gts_first i2l labels box boxes gt0 gt :
  add_gts i2l labels 0 (box :: boxes) gt0 = Done gt ->
  exists label rest name, labels = label :: rest /\ i2l !! label = Some name.
Proof.
  cbn [add_gts]. unfold list_get.
  destruct labels as [|label rest]; [discriminate|]. simpl.
  unfold label_name_of. destruct (i2l !! label) as [name|] eqn:E; [|discriminate].
  eauto.
Qed.

Lemma print_aps_spec i2l (all_aps : gmap string ap_value) idxs :
  (forall idx, idx ∈ idxs -> is_Some (i2l !! Z.of_nat idx)) ->
  (forall name, is_class_name i2l name -> is_Some (all_aps !! name)) ->
  exists lines,
    print_aps i2l all_aps idxs = Done lines /\
    Forall2 (fun idx (line : string * ap_value) =>
               i2l !! Z.of_nat idx = Some (fst line) /\
               all_aps !! fst line = Some (snd line))
            idxs lines.
Proof.
  intros Hidx Hall. induction idxs as [|idx idxs IH].
  - exists []. split; [done|constructor].
  - destruct IH as (lines & Hrun & Hlines).
    { intros i Hi. apply Hidx. by right. }
    destruct (Hidx idx) as [name Hname]; [by left|].
    destruct (Hall name) as [ap Hap]; [by exists (Z.of_nat idx)|].
    exists ((name, ap) :: lines). split.
    + cbn [print_aps]. unfold label_name_of, dict_get.
      rewrite Hname. simpl. rewrite Hap. simpl. by rewrite Hrun.
    + by constructor.
Qed.

Section evaluate_map.
Context (i2l : gmap Z string) (dataset : list sample)
        (gts : list (gmap string (list Box)))
        (preds : list (gmap string (list Det))).
Context (Hcollect : collect_images i2l dataset [] [] = Done (gts, preds)).

Lemma built_dicts :
  exists built,
    Forall2 (fun s pg => image_dicts i2l s = Done pg) dataset built /\
    gts = snd <$> built /\ preds = fst <$> built.
Proof.
  destruct (collect_images_spec _ _ _ _ _ _ Hcollect) as (built & ? & ? & ?).
  eauto.
Qed.

Lemma built_lengths : length preds = length gts.
Proof.
  destruct built_dicts as (built & _ & -> & ->). by rewrite !length_fmap.
Qed.

Lemma built_gt_lookup gd name :
  gd ∈ gts ->
  exists s, s ∈ dataset /\
    ((is_class_name i2l name /\
      gd !! name = Some (named i2l name
                           (zip (target_labels s) (target_boxes s)))) \/
     (~ is_class_name i2l name /\ gd !! name = None)).
Proof.
  destruct built_dicts as (built & Hbuilt & -> & _).
  intros ([pred gt] & -> & Hin)%list_elem_of_fmap.
  apply list_elem_of_lookup in Hin as [i Hi].
  destruct (Forall2_lookup_r _ _ _ _ _ Hbuilt Hi) as (s & Hs & Hrun).
  exists s. split; [by eapply list_elem_of_lookup_2|].
  destruct (image_dicts_lookup i2l s pred gt name Hrun)
    as [(? & _ & ?)|(? & _ & ?)]; auto.
Qed.

Lemma built_universe l : l ∈ gt_labels gts -> is_class_name i2l l.
Proof.
  intros (gd & Hgd & Hl)%elem_of_gt_labels.
  destruct (built_gt_lookup gd l Hgd) as (s & _ & [[? _]|[_ Hnone]]); [done|].
  rewrite Hnone in Hl. by destruct Hl.
Qed.

Lemma built_all_have_key l : is_class_name i2l l -> all_have_key gts l.
Proof.
  intros Hl. apply Forall_forall. intros gd Hgd.
  destruct (built_gt_lookup gd l Hgd) as (s & _ & [[_ ->]|[? _]]);
    [by eexists|done].
Qed.

Lemma built_no_targets :
  Forall (fun s => target_boxes s = []) dataset ->
  forall l, total_gts gts l = 0%Z.
Proof.
  intros Hnone l. apply total_gts_zero, Forall_forall. intros gd Hgd.
  destruct (built_gt_lookup gd l Hgd) as (s & Hs & [[_ Hl]|[_ Hl]]);
    unfold gts_of; rewrite Hl; [|done].
  rewrite Forall_forall in Hnone. rewrite (Hnone s Hs). simpl.
  apply named_nil.
Qed.

Lemma built_some_target :
  Exists (fun s => target_boxes s <> []) dataset ->
  exists l, (0 < total_gts gts l)%Z.
Proof.
  destruct built_dicts as (built & Hbuilt & -> & _).
  intros (s & Hs & Hne)%Exists_exists.
  apply list_elem_of_lookup in Hs as [i Hi].
  destruct (Forall2_lookup_l _ _ _ _ _ Hbuilt Hi) as ([pred gt] & Hpg & Hrun).
  destruct (target_boxes s) as [|box boxes] eqn:Hboxes; [done|].
  assert (Hfirst : exists label rest name,
             target_labels s = label :: rest /\ i2l !! label = Some name).
  { unfold image_dicts in Hrun.
    destruct (add_preds _ _ _ _ _ _); [|discriminate Hrun]. simpl in Hrun.
    rewrite Hboxes in Hrun.
    destruct (add_gts i2l (target_labels s) 0 (box :: boxes) (empty_lists i2l))
      as [gt'|] eqn:Hg; [|discriminate Hrun].
    by eapply add_gts_first. }
  destruct Hfirst as (label & rest & name & Hlabels & Hname).
  exists name. apply total_gts_pos. exists i, gt, box. split.
  - by rewrite list_lookup_fmap, Hpg.
  - destruct (image_dicts_lookup i2l s pred gt name Hrun)
      as [(_ & _ & Hl)|(Hnot & _)]; [|exfalso; apply Hnot; by exists label].
    unfold gts_of. rewrite Hl, Hboxes, Hlabels. simpl.
    cbn [zip zip_with]. rewrite named_cons, decide_True by done. by left.
Qed.

Lemma evaluate_map_unfold :
  evaluate_map i2l dataset =
    ('(mean_ap, all_aps) ←
       lift_result (compute_map preds gts (1 # 2) "interp");
     lines ← print_aps i2l all_aps (seq 0 (size i2l));
     Done (lines, mean_ap)).
Proof. unfold evaluate_map. by rewrite Hcollect. Qed.

Lemma built_well_formed :
  valid_method "interp" /\ -1 < 1 # 2 /\
  (length preds <= length gts)%nat /\
  (forall l, l ∈ gt_labels gts -> all_have_key gts l).
Proof.
  split; [by right|]. split; [reflexivity|]. split.
  - rewrite built_lengths. lia.
  - intros l Hl. by apply built_all_have_key, built_universe.
Qed.
End evaluate_map.

(** X16: [evaluate_map] from the outputs of the model to the printed
    summary.  Once the dictionaries of every image are built, the call of
    [compute_map] can raise neither [KeyError] nor [IndexError] nor
    [ValueError].  If the test set has no target box at all, the call ends in
    [ZeroDivisionError].  Otherwise, when the keys of [idx2label] are
    [0 .. len - 1], one line is printed for every class of the table, in the
    order of the keys, with the entry of that class in the mapping returned
    by [compute_map], followed by the mean, which lies between 0 and 1. *)
Theorem evaluate_map_outcome i2l dataset gts preds :
  collect_images i2l dataset [] [] = Done (gts, preds) ->
  (Forall (fun s => target_boxes s = []) dataset ->
   evaluate_map i2l dataset = Failed (Raised ZeroDivisionError)) /\
  (Exists (fun s => target_boxes s <> []) dataset ->
   (forall idx, (idx < size i2l)%nat -> is_Some (i2l !! Z.of_nat idx)) ->
   exists lines mean_ap all_aps,
     compute_map preds gts (1 # 2) "interp" = Ok (mean_ap, all_aps) /\
     evaluate_map i2l dataset = Done (lines, mean_ap) /\
     in_unit mean_ap /\
     Forall2 (fun idx (line : string * ap_value) =>
                i2l !! Z.of_nat idx = Some (fst line) /\
                all_aps !! fst line = Some (snd line))
             (seq 0 (size i2l)) lines).
Proof.
  intros Hcollect.
  destruct (built_well_formed i2l dataset gts preds Hcollect)
    as (Hv & Hthr & Hlen & Hkeys).
  destruct (compute_map_well_formed preds gts (1 # 2) "interp"
              Hv Hthr Hlen Hkeys) as [Hsome Hnone].
  rewrite (evaluate_map_unfold i2l dataset gts preds Hcollect). split.
  - intros Hempty.
    rewrite Hnone; [done|]. by eapply built_no_targets.
  - intros Htarget Hidx.
    destruct Hsome as (mean_ap & all_aps & Hcm);
      [by eapply built_some_target|].
    destruct (compute_map_Ok_inv _ _ _ _ _ _ Hcm) as (Hall & Hne & Hmean & Hlk).
    assert (Hgts : gts <> []).
    { destruct (built_some_target i2l dataset gts preds Hcollect Htarget)
        as [l Hl].
      intros ->. by cbv in Hl. }
    destruct (print_aps_spec i2l all_aps (seq 0 (size i2l)))
      as (lines & Hprint & Hlines).
    { intros idx Hin. apply Hidx. apply elem_of_seq in Hin. lia. }
    { intros name Hname. rewrite Hlk, decide_True; [by eexists|].
      apply elem_of_gt_labels. destruct gts as [|gd gts']; [done|].
      exists gd. split; [by left|].
      pose proof (built_all_have_key i2l dataset _ preds Hcollect name Hname)
        as Hkey.
      by apply Forall_cons in Hkey as [Hgd _]. }
    exists lines, mean_ap, all_aps. split; [done|].
    rewrite Hcm. simpl. rewrite Hprint. simpl. split; [done|].
    split; [|done]. rewrite Hmean.
    apply mean_of_in_unit; [|done]. apply Forall_fmap, Forall_forall.
    intros l [_ Hl]%list_elem_of_filter. simpl.
    rewrite Forall_forall in Hall. destruct (Hall l Hl) as (Hap & _).
    by eapply class_ap_in_unit.
Qed.

Lemma evaluate_map_outcome_witness :
  let s1 := {| out_boxes := [ (0, 0, 2, 2); (1, 1, 3, 3) ];
               out_labels := [3%Z; 2%Z];
               out_scores := [9 # 10; 8 # 10];
               target_boxes := [ (0, 0, 2, 2) ];
               target_labels := [3%Z] |} in
  let s2 := {| out_boxes := [];
               out_labels := [];
               out_scores := [];
               target_boxes := [];
               target_labels := [] |} in
  exists gts preds lines mean_ap all_aps,
    collect_images idx2label [s1; s2] [] [] = Done (gts, preds) /\
    compute_map preds gts (1 # 2) "interp" = Ok (mean_ap, all_aps) /\
    evaluate_map idx2label [s1; s2] = Done (lines, mean_ap) /\
    in_unit mean_ap /\
    Forall2 (fun idx (line : string * ap_value) =>
               idx2label !! Z.of_nat idx = Some (fst line) /\
               all_aps !! fst line = Some (snd line))
            (seq 0 (size idx2label)) lines.
Proof.
  intros s1 s2.
  destruct (collect_images idx2label [s1; s2] [] [])
    as [[gts preds]|e] eqn:E; [|vm_compute in E; discriminate E].
  destruct (evaluate_map_outcome idx2label [s1; s2] gts preds E) as [_ H].
  destruct H as (lines & mean_ap & all_aps & H1 & H2 & H3 & H4).
  - apply Exists_cons_hd. discriminate.
  - intros idx Hidx.
    assert (Hsize : size idx2label = 8%nat) by (vm_compute; reflexivity).
    rewrite Hsize in Hidx.
    do 8 (destruct idx as [|idx]; [eexists; vm_compute; reflexivity|]).
    lia.
  - exists gts, preds, lines, mean_ap, all_aps.
    split; [reflexivity|]. split; [exact H1|]. split; [exact H2|].
    split; [exact H3|exact H4].
Defined.

(** * Classes without a true positive *)

Lemma cumsum_from_zeros l : forall acc,
  Forall (fun t => t = 0%Z) l -> Forall (fun t => t = acc) (cumsum_from acc l).
Proof.
  induction l as [|x l IH]; intros acc Hl; [constructor|].
  apply Forall_cons in Hl as [-> Hl]. cbn [cumsum_from].
  rewrite Z.add_0_r. constructor; [done|by apply IH].
Qed.

Lemma zero_ratio d : inject_Z 0 / d == 0.
Proof. unfold Qdiv. change (inject_Z 0) with 0. apply Qmult_0_l. Qed.

Lemma recalls_of_zeros tp_cum num_gts :
  Forall (fun t => t = 0%Z) tp_cum ->
  Forall (fun q => q == 0) (recalls_of tp_cum num_gts).
Proof.
  intros Hz. unfold recalls_of. apply Forall_fmap.
  eapply Forall_impl; [exact Hz|]. intros t ->. apply zero_ratio.
Qed.

Lemma precisions_of_zeros tp_cum : forall fp_cum,
  Forall (fun t => t = 0%Z) tp_cum ->
  Forall (fun q => q == 0) (precisions_of tp_cum fp_cum).
Proof.
  unfold precisions_of.
  induction tp_cum as [|t tp_cum IH]; intros fp_cum Hz; [constructor|].
  apply Forall_cons in Hz as [-> Hz].
  destruct fp_cum as [|f fp_cum]; [constructor|].
  cbn [zip_with]. constructor; [apply zero_ratio|by apply IH].
Qed.

Lemma nth_zero (l : list Q) i :
  Forall (fun q => q == 0) l -> nth i l 0 == 0.
Proof.
  intros Hl. revert i.
  induction Hl as [|x l Hx _ IH]; intros [|i]; simpl; try reflexivity; auto.
Qed.

Lemma np_sum_zero (l : list Q) :
  Forall (fun q => q == 0) l -> np_sum l == 0.
Proof.
  induction 1 as [|x l Hx _ IH]; [reflexivity|].
  rewrite np_sum_cons, Hx, IH. reflexivity.
Qed.

Lemma ap_area_zero recalls precisions :
  Forall (fun q => q == 0) precisions -> ap_area recalls precisions == 0.
Proof.
  intros Hp. unfold ap_area. apply np_sum_zero, Forall_fmap, Forall_forall.
  intros i _. simpl.
  rewrite (nth_zero (envelope ([0] ++ precisions ++ [0])) (S i)).
  - apply Qmult_0_r.
  - apply envelope_Forall. constructor; [reflexivity|].
    apply Forall_app. split; [done|]. constructor; [reflexivity|constructor].
Qed.

Lemma foldl_np_maximum_Forall (P : Q -> Prop) a : forall x,
  P x -> Forall P a -> P (foldl np_maximum x a).
Proof.
  induction a as [|y a IH]; intros x Hx Ha; [done|].
  apply Forall_cons in Ha as [Hy Ha]. cbn [foldl]. apply IH; [|done].
  by destruct (np_maximum_cases x y) as [-> | ->].
Qed.

Lemma mask_ge_Forall (P : Q -> Prop) recalls precisions pt :
  Forall P precisions -> Forall P (mask_ge recalls precisions pt).
Proof.
  intros Hp. unfold mask_ge. apply Forall_fmap, Forall_forall.
  intros [r p] [_ Hin]%list_elem_of_filter. simpl.
  apply elem_of_zip_r in Hin. rewrite Forall_forall in Hp. by apply Hp.
Qed.

Lemma foldl_add_zero (g : Q -> Q) pts : forall a,
  (forall pt, g pt == 0) -> a == 0 ->
  foldl (fun ap pt => ap + g pt) a pts == 0.
Proof.
  induction pts as [|pt pts IH]; intros a Hg Ha; [done|].
  cbn [foldl]. apply IH; [done|]. rewrite Ha, Hg. reflexivity.
Qed.

Lemma ap_interp_zero recalls precisions :
  Forall (fun q => q == 0) precisions -> ap_interp recalls precisions == 0.
Proof.
  intros Hp. unfold ap_interp, Qdiv.
  rewrite foldl_add_zero; [apply Qmult_0_l| |reflexivity].
  intros pt. unfold max_or_zero.
  pose proof (mask_ge_Forall _ recalls precisions pt Hp) as Hm.
  destruct (mask_ge recalls precisions pt) as [|x a]; [reflexivity|].
  apply Forall_cons in Hm as [Hx Ha].
  by apply (foldl_np_maximum_Forall (fun q => q == 0)).
Qed.

Lemma class_ap_no_tp det_boxes gt_boxes thr method label
    cls_dets num_gts st ap n :
  match_class det_boxes gt_boxes thr label = Ok (cls_dets, num_gts, st) ->
  Forall (fun t => t = 0%Z) (tp st) ->
  class_ap det_boxes gt_boxes thr method label = Ok (ap, n) ->
  ap == 0.
Proof.
  intros Hm Hz. unfold class_ap. rewrite Hm. simpl.
  assert (Hp : Forall (fun q => q == 0)
                 (precisions_of (cumsum (tp st)) (cumsum (fp st)))).
  { apply precisions_of_zeros. by apply cumsum_from_zeros. }
  unfold integrate_ap.
  destruct (decide (method = "area")).
  { simpl. intros [= <- _]. by apply ap_area_zero. }
  destruct (decide (method = "interp")); simpl; [|done].
  intros [= <- _]. by apply ap_interp_zero.
Qed.

(** X17: a class none of whose detections is a true positive has AP 0.
    When the matching of the class flags no detection as a true positive,
    every precision of the curve is 0, and both the ['area'] and the
    ['interp'] integration give 0, whatever the recalls and the number of
    false positives are; the entry of the class in the returned mapping is
    then 0 (or [np.nan], for a class without ground truth). *)
Theorem no_true_positive_ap_zero
    det_boxes gt_boxes thr method label cls_dets num_gts st :
  match_class det_boxes gt_boxes thr label = Ok (cls_dets, num_gts, st) ->
  Forall (fun t => t = 0%Z) (tp st) ->
  Forall (fun q => q == 0) (precisions_of (cumsum (tp st)) (cumsum (fp st))) /\
  (forall ap n,
     class_ap det_boxes gt_boxes thr method label = Ok (ap, n) -> ap == 0) /\
  (forall mean_ap all_aps ap,
     compute_map det_boxes gt_boxes thr method = Ok (mean_ap, all_aps) ->
     all_aps !! label = Some (APNum ap) -> ap == 0).
Proof.
  intros Hm Hz. split; [|split].
  - apply precisions_of_zeros. by apply cumsum_from_zeros.
  - intros ap n. by eapply class_ap_no_tp.
  - intros mean_ap all_aps ap Hcm Hap.
    destruct (compute_map_Ok_inv _ _ _ _ _ _ Hcm) as (Hall & _ & _ & Hlk).
    rewrite Hlk in Hap. case_decide as Hl; [|done].
    rewrite Forall_forall in Hall. destruct (Hall label Hl) as (Hc & _).
    destruct (0 <? total_gts gt_boxes label)%Z; [|done].
    injection Hap as <-. by eapply class_ap_no_tp.
Qed.

Lemma no_true_positive_ap_zero_witness :
  let d1 := {| det_box := (20, 20, 30, 30); det_score := 9 # 10 |} in
  let d2 := {| det_box := (0, 0, 10, 2); det_score := 8 # 10 |} in
  let det_boxes : list (gmap string (list Det)) := [ {[ "a" := [d2; d1] ]} ] in
  let gt_boxes : list (gmap string (list Box)) :=
    [ {[ "a" := [ (0, 0, 10, 10) ] ]} ] in
  exists mean_ap all_aps ap,
    compute_map det_boxes gt_boxes (1 # 2) "area" = Ok (mean_ap, all_aps) /\
    all_aps !! "a" = Some (APNum ap) /\ ap == 0.
Proof.
  intros d1 d2 det_boxes gt_boxes.
  destruct (match_class det_boxes gt_boxes (1 # 2) "a")
    as [[[cls_dets num_gts] st]|e] eqn:E; [|vm_compute in E; discriminate E].
  assert (Hz : Forall (fun t => t = 0%Z) (tp st)).
  { pose proof E as E'. vm_compute in E'. injection E' as _ _ <-.
    repeat constructor. }
  destruct (no_true_positive_ap_zero det_boxes gt_boxes (1 # 2) "area" "a"
              cls_dets num_gts st E Hz) as (_ & _ & H).
  destruct (compute_map det_boxes gt_boxes (1 # 2) "area")
    as [[mean_ap all_aps]|e] eqn:Ec; [|vm_compute in Ec; discriminate Ec].
  destruct (all_aps !! "a") as [[ap|]|] eqn:Ea.
  - exists mean_ap, all_aps, ap. split; [reflexivity|]. split; [exact Ea|].
    exact (H mean_ap all_aps ap eq_refl Ea).
  - exfalso. pose proof Ec as Ec'. vm_compute in Ec'.
    injection Ec' as _ <-. vm_compute in Ea. discriminate Ea.
  - exfalso. pose proof Ec as Ec'. vm_compute in Ec'.
    injection Ec' as _ <-. vm_compute in Ea. discriminate Ea.
Defined.

(** * The area under the envelope *)

Lemma np_sum_filter_zero {A} (f : A -> Q) (P : A -> Prop)
    `{!forall x, Decision (P x)} (l : list A) :
  (forall x, x ∈ l -> ~ P x -> f x == 0) ->
  np_sum (f <$> filter P l) == np_sum (f <$> l).
Proof.
  induction l as [|x l IH]; intros Hz; [reflexivity|].
  rewrite filter_cons, (fmap_cons f x l), (np_sum_cons (f x)).
  destruct (decide (P x)) as [Hx|Hx].
  - rewrite fmap_cons, np_sum_cons, IH; [reflexivity|].
    intros y Hy. apply Hz. by right.
  - rewrite IH, (Hz x); [ring|by left|done|].
    intros y Hy. apply Hz. by right.
Qed.

Lemma ap_area_all_steps recalls precisions :
  let R := [0] ++ recalls ++ [1] in
  let P := envelope ([0] ++ precisions ++ [0]) in
  ap_area recalls precisions ==
  np_sum ((fun i => (nth (S i) R 0 - nth i R 0) * nth (S i) P 0)
            <$> seq 0 (S (length recalls))).
Proof.
  intros R P. unfold ap_area, recall_changes. fold R. fold P.
  assert (Hlen : pred (length R) = S (length recalls)).
  { unfold R. rewrite !length_app. simpl. lia. }
  rewrite Hlen. apply np_sum_filter_zero.
  intros i _ Hi.
  destruct (Qeq_bool (nth (S i) R 0) (nth i R 0)) eqn:E; [|done].
  apply Qeq_bool_eq in E. rewrite E. ring.
Qed.

(** X18: selecting the points where the recall changes does not change the
    area.  The ['area'] AP is the sum, over every pair of consecutive points
    of the padded recalls, of the step in recall times the envelope of the
    precisions at the right end: the pairs that [np.where] leaves out
    contribute 0. *)
Theorem area_is_sum_over_all_steps recalls precisions :
  let R := [0] ++ recalls ++ [1] in
  let P := envelope ([0] ++ precisions ++ [0]) in
  ap_area recalls precisions ==
  np_sum ((fun i => (nth (S i) R 0 - nth i R 0) * nth (S i) P 0)
            <$> seq 0 (S (length recalls))).
Proof. apply ap_area_all_steps. Qed.

(** * Classes without a false positive *)

Lemma np_sum_app (l1 l2 : list Q) : np_sum (l1 ++ l2) == np_sum l1 + np_sum l2.
Proof.
  induction l1 as [|x l1 IH]; [unfold np_sum at 2; simpl; ring|].
  rewrite <- app_comm_cons, !np_sum_cons, IH. ring.
Qed.

Lemma np_sum_ext {A} (f g : A -> Q) (l : list A) :
  (forall x, x ∈ l -> f x == g x) -> np_sum (f <$> l) == np_sum (g <$> l).
Proof.
  induction l as [|x l IH]; intros Hfg; [reflexivity|].
  rewrite !fmap_cons, !np_sum_cons, IH, (Hfg x); [reflexivity|by left|].
  intros y Hy. apply Hfg. by right.
Qed.

Lemma fp_zero_tp_one flags :
  Forall (fun f => f = 0%Z) (fp_of flags) ->
  Forall (fun t => t = 1%Z) (tp_of flags).
Proof.
  unfold fp_of, tp_of. induction flags as [|b flags IH]; [constructor|].
  rewrite !fmap_cons. intros [Hb Hrest]%Forall_cons.
  constructor; [by destruct b|by apply IH].
Qed.

Lemma sum_Z_ones l :
  Forall (fun t => t = 1%Z) l -> sum_Z l = Z.of_nat (length l).
Proof.
  unfold sum_Z. induction 1 as [|x l -> _ IH]; [done|].
  cbn [foldl length]. rewrite foldl_Zadd_shift, IH. lia.
Qed.

Lemma cumsum_from_ones l : forall a,
  Forall (fun t => t = 1%Z) l ->
  Forall (fun t => (a + 1 <= t)%Z) (cumsum_from a l).
Proof.
  induction l as [|x l IH]; intros a Hl; [constructor|].
  apply Forall_cons in Hl as [-> Hl]. cbn [cumsum_from].
  constructor; [lia|].
  eapply Forall_impl; [by apply IH|]. simpl. intros t Ht. lia.
Qed.

Lemma last_cumsum l : forall a,
  nth (length l) (a :: cumsum_from a l) a = (a + sum_Z l)%Z.
Proof.
  unfold sum_Z. induction l as [|x l IH]; intros a; [simpl; lia|].
  cbn [length cumsum_from foldl]. rewrite foldl_Zadd_shift.
  change (nth (S (length l)) (a :: (a + x)%Z :: cumsum_from (a + x) l) a)
    with (nth (length l) ((a + x)%Z :: cumsum_from (a + x) l) a).
  rewrite (nth_indep _ a (a + x)%Z), IH; [lia|].
  simpl. rewrite cumsum_from_length. lia.
Qed.

Lemma last_recall (c : list Z) (D : Q) :
  nth (length c) (0 :: ((fun t => inject_Z t / D) <$> c)) 0
  == inject_Z (nth (length c) (0%Z :: c) 0%Z) / D.
Proof.
  destruct c as [|x c]; [simpl; symmetry; apply zero_ratio|].
  cbn [length]. rewrite fmap_cons.
  change (nth (S (length c))
              (0 :: inject_Z x / D :: ((fun t => inject_Z t / D) <$> c)) 0)
    with (nth (length c)
              (((fun t => inject_Z t / D) <$> (x :: c))) 0).
  change (nth (S (length c)) (0%Z :: x :: c) 0%Z)
    with (nth (length c) (x :: c) 0%Z).
  rewrite (nth_indep _ 0 ((fun t => inject_Z t / D) 0%Z)).
  - change (list_fmap Z Q ?f ?l) with (map f l).
    rewrite (map_nth (fun t => inject_Z t / D)). reflexivity.
  - rewrite length_fmap. simpl. lia.
Qed.

Lemma precisions_of_ones tp_cum : forall fp_cum,
  Forall (fun t => (1 <= t)%Z) tp_cum ->
  Forall (fun f => f = 0%Z) fp_cum ->
  Forall (fun q => q == 1) (precisions_of tp_cum fp_cum).
Proof.
  unfold precisions_of.
  induction tp_cum as [|t tp_cum IH]; intros fp_cum Ht Hf; [constructor|].
  apply Forall_cons in Ht as [Ht Htp].
  destruct fp_cum as [|f fp_cum]; [constructor|].
  apply Forall_cons in Hf as [-> Hfp].
  cbn [zip_with]. constructor; [|by apply IH].
  rewrite Z.add_0_r.
  assert (H1 : 1 <= inject_Z t).
  { change 1 with (inject_Z 1). rewrite <- Zle_Qle. lia. }
  unfold np_maximum. destruct (Qltb (inject_Z t) eps32) eqn:E.
  - apply Qltb_lt in E. unfold eps32 in E. lra.
  - field. lra.
Qed.

Lemma envelope_ones_then_zero precs :
  Forall (fun q => q == 1) precs ->
  exists E, envelope (precs ++ [0]) = E ++ [0] /\
            length E = length precs /\ Forall (fun q => q == 1) E.
Proof.
  induction 1 as [|p precs Hp _ (E & HE & Hlen & H1)].
  - exists []. by repeat split.
  - rewrite <- app_comm_cons. cbn [envelope]. rewrite HE.
    destruct E as [|e E].
    + exists [np_maximum p 0]. simpl in *. split; [done|]. split; [lia|].
      constructor; [|constructor].
      unfold np_maximum. destruct (Qltb p 0) eqn:E; [|done].
      apply Qltb_lt in E. lra.
    + exists (np_maximum p e :: e :: E). simpl in *.
      split; [done|]. split; [lia|]. constructor; [|done].
      apply Forall_cons in H1 as [He _].
      by destruct (np_maximum_cases p e) as [-> | ->].
Qed.

Lemma ap_area_precision_one recalls precisions :
  length precisions = length recalls ->
  Forall (fun q => q == 1) precisions ->
  ap_area recalls precisions == nth (length recalls) (0 :: recalls) 0.
Proof.
  intros Hlen Hp. rewrite ap_area_all_steps.
  set (R := [0] ++ recalls ++ [1]).
  set (n := length recalls).
  destruct (envelope_ones_then_zero precisions Hp) as (E & HE & HlenE & HE1).
  assert (HP : forall i, nth (S i) (envelope ([0] ++ precisions ++ [0])) 0
                         = nth i (E ++ [0]) 0).
  { intros i. cbn [app envelope]. rewrite HE.
    destruct (E ++ [0]) as [|q rest] eqn:Eq; [by destruct E|]. done. }
  rewrite seq_S, fmap_app, np_sum_app. simpl seq. rewrite Nat.add_0_l.
  rewrite (np_sum_ext _ (fun i => nth (S i) R 0 - nth i R 0)).
  - rewrite np_sum_telescope. rewrite fmap_cons, np_sum_cons, HP.
    rewrite app_nth2 by lia.
    replace (n - length E)%nat with 0%nat by (unfold n; lia).
    rewrite Nat.add_0_l, fmap_nil.
    change (np_sum []) with 0. change (nth 0 [0] 0) with 0.
    change (nth 0 R 0) with 0.
    assert (HnR : nth n R 0 = nth n (0 :: recalls) 0).
    { unfold R. change ([0] ++ recalls ++ [1]) with ((0 :: recalls) ++ [1]).
      apply app_nth1. simpl. unfold n. lia. }
    rewrite HnR. ring.
  - intros i [_ Hi]%elem_of_seq. rewrite HP, app_nth1 by (unfold n in Hi; lia).
    assert (H1 : nth i E 0 == 1).
    { apply (proj1 (List.Forall_nth (fun q => q == 1) E) HE1).
      unfold n in Hi. lia. }
    rewrite H1. ring.
Qed.

Lemma class_ap_no_fp det_boxes gt_boxes thr label cls_dets num_gts st ap n :
  match_class det_boxes gt_boxes thr label = Ok (cls_dets, num_gts, st) ->
  Forall (fun f => f = 0%Z) (fp st) ->
  class_ap det_boxes gt_boxes thr "area" label = Ok (ap, n) ->
  (Z.of_nat (length cls_dets) <= num_gts)%Z /\
  ap == inject_Z (Z.of_nat (length cls_dets)) / inject_Z num_gts.
Proof.
  intros Hm Hf Hc.
  destruct (true_positives_count_bound _ _ _ _ _ _ _ Hm)
    as (flags & Htp & Hfp & Hlen & Hsum).
  assert (H1 : Forall (fun t => t = 1%Z) (tp st)).
  { rewrite Htp. apply fp_zero_tp_one. by rewrite <- Hfp. }
  assert (Hcount : sum_Z (tp st) = Z.of_nat (length cls_dets)).
  { rewrite (sum_Z_ones _ H1), Htp. unfold tp_of.
    by rewrite length_fmap, Hlen. }
  split; [lia|].
  revert Hc. unfold class_ap. rewrite Hm. simpl. intros [= <- _].
  rewrite ap_area_precision_one.
  - unfold recalls_of. rewrite length_fmap.
    rewrite last_recall. unfold cumsum.
    rewrite cumsum_from_length, (last_cumsum (tp st) 0%Z), Z.add_0_l, Hcount.
    destruct (length cls_dets) as [|k] eqn:Ek.
    + simpl. rewrite !zero_ratio. reflexivity.
    + assert (Hn : 1 <= inject_Z num_gts).
      { change 1 with (inject_Z 1). rewrite <- Zle_Qle. lia. }
      unfold np_maximum. destruct (Qltb (inject_Z num_gts) eps32) eqn:E;
        [|reflexivity].
      apply Qltb_lt in E. unfold eps32 in E. lra.
  - unfold precisions_of, recalls_of, cumsum.
    rewrite length_fmap, length_zip_with, !cumsum_from_length.
    rewrite Htp, Hfp. unfold tp_of, fp_of. rewrite !length_fmap. lia.
  - apply precisions_of_ones.
    + by apply (cumsum_from_ones _ 0%Z).
    + by apply cumsum_from_zeros.
Qed.

(** X19: a class without a false positive.  When every detection of the
    class is a true positive, the class has at least as many ground-truth
    boxes as detections, and the ['area'] AP is the recall that is reached:
    the number of detections over the number of ground-truth boxes.  It is 1
    exactly when every ground-truth box has been found. *)
Theorem no_false_positive_area_ap_is_recall
    det_boxes gt_boxes thr label cls_dets num_gts st :
  match_class det_boxes gt_boxes thr label = Ok (cls_dets, num_gts, st) ->
  Forall (fun f => f = 0%Z) (fp st) ->
  (Z.of_nat (length cls_dets) <= num_gts)%Z /\
  (forall ap n,
     class_ap det_boxes gt_boxes thr "area" label = Ok (ap, n) ->
     ap == inject_Z (Z.of_nat (length cls_dets)) / inject_Z num_gts) /\
  (forall mean_ap all_aps ap,
     compute_map det_boxes gt_boxes thr "area" = Ok (mean_ap, all_aps) ->
     all_aps !! label = Some (APNum ap) ->
     ap == inject_Z (Z.of_nat (length cls_dets)) / inject_Z num_gts /\
     (ap == 1 <-> Z.of_nat (length cls_dets) = num_gts)).
Proof.
  intros Hm Hf.
  assert (Hle : (Z.of_nat (length cls_dets) <= num_gts)%Z).
  { destruct (true_positives_count_bound _ _ _ _ _ _ _ Hm)
      as (flags & Htp & Hfp & Hlen & Hsum).
    rewrite sum_Z_ones in Hsum.
    - rewrite Htp in Hsum. unfold tp_of in Hsum.
      rewrite length_fmap, Hlen in Hsum. done.
    - rewrite Htp. apply fp_zero_tp_one. by rewrite <- Hfp. }
  split; [done|]. split.
  - intros ap n Hc. by destruct (class_ap_no_fp _ _ _ _ _ _ _ _ _ Hm Hf Hc).
  - intros mean_ap all_aps ap Hcm Hap.
    destruct (compute_map_Ok_inv _ _ _ _ _ _ Hcm) as (Hall & _ & _ & Hlk).
    rewrite Hlk in Hap. case_decide as Hl; [|done].
    rewrite Forall_forall in Hall. destruct (Hall label Hl) as (Hc & _).
    destruct (0 <? total_gts gt_boxes label)%Z eqn:Hpos; [|done].
    injection Hap as <-.
    destruct (class_ap_no_fp _ _ _ _ _ _ _ _ _ Hm Hf Hc) as [_ Hap].
    split; [done|]. rewrite Hap.
    pose proof (match_class_outcome det_boxes gt_boxes thr label) as Ho.
    simpl in Ho. rewrite Hm in Ho. destruct Ho as (_ & _ & Hn & _).
    apply Z.ltb_lt in Hpos. rewrite <- Hn in Hpos.
    assert (Hq : 0 < inject_Z num_gts).
    { change 0 with (inject_Z 0). rewrite <- Zlt_Qlt. lia. }
    split.
    + intros H1. apply inject_Z_injective.
      apply (Qmult_inj_r _ _ (/ inject_Z num_gts)).
      * intros H0. apply Qinv_lt_0_compat in Hq. lra.
      * fold (Qdiv (inject_Z (Z.of_nat (length cls_dets))) (inject_Z num_gts)).
        rewrite H1. field. lra.
    + intros ->. field. lra.
Qed.

Lemma no_false_positive_area_ap_is_recall_witness :
  let d1 := {| det_box := (0, 0, 10, 10); det_score := 9 # 10 |} in
  let det_boxes : list (gmap string (list Det)) := [ {[ "a" := [d1] ]} ] in
  let gt_boxes : list (gmap string (list Box)) :=
    [ {[ "a" := [ (0, 0, 10, 10); (20, 20, 30, 30) ] ]} ] in
  exists mean_ap all_aps ap,
    compute_map det_boxes gt_boxes (1 # 2) "area" = Ok (mean_ap, all_aps) /\
    all_aps !! "a" = Some (APNum ap) /\ ap == 1 # 2.
Proof.
  intros d1 det_boxes gt_boxes.
  destruct (match_class det_boxes gt_boxes (1 # 2) "a")
    as [[[cls_dets num_gts] st]|e] eqn:E; [|vm_compute in E; discriminate E].
  assert (Hst : Forall (fun f => f = 0%Z) (fp st) /\
                length cls_dets = 1%nat /\ num_gts = 2%Z).
  { pose proof E as E'. vm_compute in E'. injection E' as <- <- <-.
    split; [repeat constructor|]. split; reflexivity. }
  destruct Hst as (Hz & Hlen & Hn).
  destruct (no_false_positive_area_ap_is_recall det_boxes gt_boxes (1 # 2) "a"
              cls_dets num_gts st E Hz) as (_ & _ & H).
  destruct (compute_map det_boxes gt_boxes (1 # 2) "area")
    as [[mean_ap all_aps]|e] eqn:Ec; [|vm_compute in Ec; discriminate Ec].
  destruct (all_aps !! "a") as [[ap|]|] eqn:Ea.
  - exists mean_ap, all_aps, ap. split; [reflexivity|]. split; [exact Ea|].
    destruct (H mean_ap all_aps ap eq_refl Ea) as [Hap _].
    rewrite Hap, Hlen, Hn. reflexivity.
  - exfalso. pose proof Ec as Ec'. vm_compute in Ec'.
    injection Ec' as _ <-. vm_compute in Ea. discriminate Ea.
  - exfalso. pose proof Ec as Ec'. vm_compute in Ec'.
    injection Ec' as _ <-. vm_compute in Ea. discriminate Ea.
Defined.
